(** * BEL PDF Summarizer: the chunking and map-reduce summarization core

    A shallow embedding of [pdf_processor.py] (token estimation),
    [summarizer.py] (the [ReplicateSummarizerWorker]) and the token default
    of [config.py], followed by the properties of the pipeline.

    Conventions of the embedding.
    - A Python [str] is a sequence of Unicode code points: [str := list N].
    - [str.strip()], [str.split()] and the regular-expression class [\s]
      all test a character with the same predicate (CPython's
      [Py_UNICODE_ISSPACE]); it is [isspace] below.
    - Python integers are [Z]; [int(x)] truncates toward zero ([Z.quot]).
    - The constants [1.3], [0.5] and the quotient [(i + 1) / len(chunks)]
      are binary64 floats in the source.  They are embedded as exact
      rationals: [int(n * 1.3)] is [Z.quot (n * 13) 10], [int(n / 1.3)] is
      [Z.quot (n * 10) 13], [int(n * 0.5)] is [Z.quot n 2] and [int(i / n * 60)] is
      [Z.quot (i * 60) n].  This is what binary64 computes, in the standard
      library's model of it ([Binary64Spec]): for [int(n * 1.3)] on every
      word count from 0 below [2 ^ 49] ([estimate_tokens_binary64]), for
      [int(n / 1.3)] on every token count from 0 below [2 ^ 50]
      ([estimate_words_from_tokens_binary64]), for [int(n * 0.5)] on every
      count from 0 below [2 ^ 52] ([target_output_tokens_binary64]) and for
      [int(i / n * 60)] on every [0 < i <= n < 2 ^ 40]
      ([progress_share_binary64]).  Above the bounds of the estimators the
      float result can differ from the exact quotient, and on integers
      beyond the float range the source raises OverflowError
      ([binary64_differs_on_large_counts]); the properties that take a
      token count as an argument are stated below the bound.
      [binary64_estimates_agree] and [binary64_progress_agrees] compare
      the embedding with hardware floats as well, on a range of counts.
    - The remote completion service is an oracle: a function from the
      number of calls already made and the request to either the streamed
      output fragments or the message of the exception raised.
    - Qt signals are events appended to a log, in emission order;
      every completion call is logged as well. *)

From Stdlib Require Import List ZArith NArith Bool Lia Ascii String.
From Stdlib Require Import Sorting.Sorted Numbers.DecimalString.
From Stdlib Require Import Floats.PrimFloat Floats.FloatOps Floats.SpecFloat.
From Stdlib Require Import Numbers.Cyclic.Int63.Uint63.
Import ListNotations.

Local Open Scope Z_scope.

(** ** Python strings *)

Module Py.

Definition char := N.
Definition str := list char.

(** A literal of the source, which is ASCII throughout. *)
Definition lit (s : string) : str := List.map N_of_ascii (list_ascii_of_string s).

Definition char_eqb (a b : char) : bool := N.eqb a b.

Fixpoint str_eqb (a b : str) : bool :=
  match a, b with
  | [], [] => true
  | x :: a', y :: b' => char_eqb x y && str_eqb a' b'
  | _, _ => false
  end.

(** Truth value of a string or of a list: non-empty. *)
Definition truthy {A} (l : list A) : bool :=
  match l with [] => false | _ :: _ => true end.

(** [len] *)
Definition len {A} (l : list A) : Z := Z.of_nat (List.length l).

(** The characters CPython classifies as whitespace. *)
Definition isspace (c : char) : bool :=
  ((9 <=? c) && (c <=? 13) || (28 <=? c) && (c <=? 32)
   || (c =? 133) || (c =? 160) || (c =? 5760)
   || (8192 <=? c) && (c <=? 8202)
   || (c =? 8232) || (c =? 8233) || (c =? 8239) || (c =? 8287)
   || (c =? 12288))%N.

Fixpoint takewhile {A} (p : A -> bool) (l : list A) : list A :=
  match l with
  | [] => []
  | x :: l' => if p x then x :: takewhile p l' else []
  end.

Fixpoint dropwhile {A} (p : A -> bool) (l : list A) : list A :=
  match l with
  | [] => []
  | x :: l' => if p x then dropwhile p l' else l
  end.

(** Reversal in linear time; it is [rev] ([reverse_rev]). *)
Definition reverse {A} (l : list A) : list A := rev_append l [].

(** [s.strip()] *)
Definition lstrip (s : str) : str := dropwhile isspace s.
Definition rstrip (s : str) : str := reverse (dropwhile isspace (reverse s)).
Definition strip (s : str) : str := rstrip (lstrip s).

(** [s.split()]: the maximal runs of non-whitespace characters.  [word] is
    the run being read, most recent character first. *)
Fixpoint split_from (word : str) (s : str) : list str :=
  match s with
  | [] => if truthy word then [reverse word] else []
  | c :: s' =>
      if isspace c
      then (if truthy word then reverse word :: split_from [] s' else split_from [] s')
      else split_from (c :: word) s'
  end.

Definition split (s : str) : list str := split_from [] s.

(** [sep.join(parts)] *)
Fixpoint join (sep : str) (parts : list str) : str :=
  match parts with
  | [] => []
  | [p] => p
  | p :: rest => p ++ sep ++ join sep rest
  end.

(** [str(n)] for an integer. *)
Definition str_of_int (n : Z) : str := lit (NilZero.string_of_int (Z.to_int n)).

End Py.

Import Py.

(** ** Regular expressions of the source

    [re.split(pattern, text)] for a pattern that never matches the empty
    string and has no capture group: the text is scanned left to right, the
    leftmost match at or after the current position is cut out, and the
    pieces between matches are returned (so there is always at least one
    piece).  A pattern is given by its matcher: the length of its match
    anchored at the head of the remaining text, [0] when it does not match
    there. *)

Module Re.

Definition matcher := str -> nat.

(** [skip] counts the characters of the current match still to be dropped;
    [piece] is the piece being read, most recent character first. *)
Fixpoint split_from (m : matcher) (skip : nat) (piece : str) (s : str) : list str :=
  match s with
  | [] => [reverse piece]
  | c :: s' =>
      match skip with
      | S k => split_from m k piece s'
      | O =>
          match m s with
          | S k => reverse piece :: split_from m k [] s'
          | O => split_from m 0%nat (c :: piece) s'
          end
      end
  end.

Definition split (m : matcher) (s : str) : list str := split_from m 0%nat [] s.

(** Index of the last occurrence of [c] in [s]. *)
Fixpoint last_index (c : char) (s : str) : option nat :=
  match s with
  | [] => None
  | x :: s' =>
      match last_index c s' with
      | Some j => Some (S j)
      | None => if char_eqb x c then Some 0%nat else None
      end
  end.

Definition newline : char := 10%N.

(** [\n\s*\n]: a newline, then the greedy [\s*] backtracks to the last
    newline of the whitespace run that follows. *)
Definition blank_line : matcher := fun s =>
  match s with
  | c :: rest =>
      if char_eqb c newline
      then match last_index newline (takewhile isspace rest) with
           | Some j => S (S j)
           | None => 0%nat
           end
      else 0%nat
  | [] => 0%nat
  end.

(** The class [[.!?]]. *)
Definition is_terminator (c : char) : bool :=
  ((c =? 46) || (c =? 33) || (c =? 63))%N.

(** [[.!?]+]: the maximal run of sentence terminators. *)
Definition sentence_end : matcher := fun s =>
  List.length (takewhile is_terminator s).

End Re.

(** ** pdf_processor.py: token estimation *)

(** [len(text.split())] *)
Definition count_words (text : str) : Z := len (Py.split text).

(** [int(word_count * 1.3)].  The source multiplies in binary64 and
    truncates; for a text of fewer than [2 ^ 49] words the result is the
    exact quotient below ([estimate_tokens_binary64]).  A text with more
    words does not fit in memory. *)
Definition estimate_tokens (text : str) : Z :=
  let word_count := count_words text in
  Z.quot (word_count * 13) 10.

(** [int(tokens / 1.3)].  The source divides in binary64 and truncates; for
    every token count from 0 below [2 ^ 50] the result is the exact
    quotient below ([estimate_words_from_tokens_binary64]).  This is the
    domain of the embedding: from [2 ^ 50] on the float quotient can differ
    from the exact one, and on integers beyond the float range the source
    raises OverflowError ([binary64_differs_on_large_counts]).  The token
    counts of a run are the three budgets 6500, 3250 and 1040 and the
    estimates of texts held in memory. *)
Definition estimate_words_from_tokens (tokens : Z) : Z :=
  Z.quot (tokens * 10) 13.

(** ** summarizer.py: the chunk planner *)

Definition max_chunk_tokens : Z := 8000.

Definition paragraph_separator : str := lit (String "010" (String "010" EmptyString)).

(** The list comprehension [[p.strip() for p in pieces if p.strip()]]. *)
Definition stripped_units (pieces : list str) : list str :=
  List.map strip (List.filter (fun p => truthy (strip p)) pieces).

(** The semantic units: paragraphs, or sentences when there are at most two
    paragraphs and the text is longer than 500 characters. *)
Definition semantic_units (text : str) : list str :=
  let paragraphs := stripped_units (Re.split Re.blank_line text) in
  if (len paragraphs <=? 2) && (len text >? 500)
  then stripped_units (Re.split Re.sentence_end text)
  else paragraphs.

(** The packing loop, followed by the flush of the last running chunk. *)
Fixpoint pack (paragraphs : list str) (chunks : list str)
              (current_chunk : list str) (current_tokens : Z) : list str :=
  match paragraphs with
  | [] =>
      if truthy current_chunk
      then chunks ++ [join paragraph_separator current_chunk]
      else chunks
  | paragraph :: rest =>
      let paragraph_tokens := estimate_tokens paragraph in
      if (current_tokens + paragraph_tokens >? max_chunk_tokens) && truthy current_chunk
      then pack rest (chunks ++ [join paragraph_separator current_chunk])
                [paragraph] paragraph_tokens
      else pack rest chunks (current_chunk ++ [paragraph])
                (current_tokens + paragraph_tokens)
  end.

Definition _create_intelligent_chunks (text : str) : list str :=
  pack (semantic_units text) [] [] 0.

(** ** config.py *)

(** [os.getenv("REPLICATE_API_TOKEN", default)]: [env] is the value of the
    environment variable, [None] when it is not set. *)
Definition REPLICATE_API_TOKEN (env : option str) : str :=
  match env with
  | Some token => token
  | None => lit "PLEASE_SET_YOUR_REPLICATE_API_TOKEN_ENVIRONMENT_VARIABLE"
  end.

Definition GPT_NANO_MODEL : str := lit "openai/gpt-4.1-nano".

(** ** summarizer.py: requests, signals and the effects of the worker *)

(** The [input] dictionary of a completion call; the four float-valued
    sampling parameters are kept as decimal literals. *)
Record request := {
  model : str;
  prompt : str;
  system_prompt : str;
  temperature : str;
  top_p : str;
  max_completion_tokens : Z;
  presence_penalty : Z;
  frequency_penalty : str
}.

(** What [client.run] followed by ["".join(output)] does: the call streams
    output fragments, or an exception [e] is raised by the call or by the
    join, of which only [str(e)] is observed. *)
Inductive response :=
| Output (fragments : list str)
| Raises (message : str).

(** The completion service: the answer to the [k]-th call (from 0). *)
Definition service := nat -> request -> response.

(** Signals emitted by the worker, and the calls it issues. *)
Inductive event :=
| Progress (value : Z)
| Finished (summary : str)
| Error (message : str)
| ClientRun (input : request).

(** A computation returns a value or raises an exception with a message. *)
Inductive outcome (A : Type) :=
| Return (a : A)
| Raise (message : str).
Arguments Return {A} a.
Arguments Raise {A} message.

(** Effects: the events emitted, in order, and the number of completion
    calls made so far. *)
Module Eff.

Record step (A : Type) := Step {
  result : outcome A;
  emitted : list event;
  calls : nat
}.
Arguments Step {A} result emitted calls.
Arguments result {A} s.
Arguments emitted {A} s.
Arguments calls {A} s.

Definition M (A : Type) := nat -> step A.

Definition ret {A} (a : A) : M A := fun n => Step (Return a) [] n.

Definition raise {A} (message : str) : M A := fun n => Step (Raise message) [] n.

Definition bind {A B} (m : M A) (f : A -> M B) : M B := fun n =>
  let s := m n in
  match result s with
  | Return a =>
      let s' := f a (calls s) in
      Step (result s') (emitted s ++ emitted s') (calls s')
  | Raise message => Step (Raise message) (emitted s) (calls s)
  end.

(** [try: body except Exception as e: handler(str(e))] *)
Definition try_except {A} (body : M A) (handler : str -> M A) : M A := fun n =>
  let s := body n in
  match result s with
  | Return a => s
  | Raise message =>
      let s' := handler message (calls s) in
      Step (result s') (emitted s ++ emitted s') (calls s')
  end.

Definition emit (e : event) : M unit := fun n => Step (Return tt) [e] n.

(** [client.run(model, input=...)] followed by ["".join(output)]. *)
Definition client_run (client : service) (input : request) : M str := fun n =>
  match client n input with
  | Output fragments => Step (Return (List.concat fragments)) [ClientRun input] (S n)
  | Raises message => Step (Raise message) [ClientRun input] (S n)
  end.

End Eff.

Import Eff.

Declare Scope eff_scope.
Delimit Scope eff_scope with eff.
Notation "x <- m ;; k" := (bind m (fun x => k))
  (at level 61, m at next level, right associativity) : eff_scope.
Notation "m ;; k" := (bind m (fun _ => k))
  (at level 61, right associativity) : eff_scope.
Local Open Scope eff_scope.

(** What the constructor stores on the worker (the [replicate.Client] it
    also builds is the service, and building it emits nothing).  The text is whatever
    object the caller passed: [re.split] raises a [TypeError] on anything
    that is not a string, and [NotText e] is such an object, [e] being the
    message of that error. *)
Inductive text_value :=
| Text (s : str)
| NotText (type_error : str).

Record ReplicateSummarizerWorker := {
  text_to_summarize : text_value;
  summary_level : str;
  api_token : option str
}.

Definition lines (ls : list str) : str := join [Re.newline] ls.

Definition indent : str := lit "        ".

(** The prompts and the [input] dictionary built by [_process_chunk]. *)
Definition process_chunk_input (chunk detail_level prompt_instruction : str) : request :=
  let chunk_tokens := estimate_tokens chunk in
  let target_output_tokens := Z.min (Z.quot chunk_tokens 2) 4000 in
  let system_prompt := lines [
    lit "You are an expert summarizer specializing in creating " ++ detail_level
      ++ lit " summaries. ";
    indent ++ lit "Your task is to process this text segment while preserving all important information, ";
    indent ++ lit "key arguments, supporting evidence, and relevant details. This is part of a multi-stage ";
    indent ++ lit "summarization process, so thoroughness is crucial." ] in
  let prompt := lines [
    prompt_instruction;
    indent;
    indent ++ lit "Text to summarize:";
    indent ++ chunk;
    indent;
    indent ++ lit "Create a detailed summary that preserves the essence and important details of this section:" ] in
  {| model := GPT_NANO_MODEL;
     prompt := prompt;
     system_prompt := system_prompt;
     temperature := lit "0.3";
     top_p := lit "0.9";
     max_completion_tokens := target_output_tokens;
     presence_penalty := 0;
     frequency_penalty := lit "0.1" |}.

Definition section_separator : str :=
  paragraph_separator ++ lit "=== SECTION ===" ++ paragraph_separator.

(** The prompts and the [input] dictionary built by
    [_synthesize_final_summary]. *)
Definition final_synthesis_input (chunk_summaries : list str) (target_tokens : Z)
    (detail_level prompt_instruction : str) : request :=
  let combined_summaries := join section_separator chunk_summaries in
  let system_prompt := lines [
    lit "You are a master synthesizer capable of creating " ++ detail_level
      ++ lit " summaries. ";
    indent ++ lit "Your task is to integrate multiple detailed section summaries into one cohesive, ";
    indent ++ lit "comprehensive final summary that flows naturally and maintains the depth of the original content." ] in
  let final_prompt := lines [
    prompt_instruction;
    indent;
    indent ++ lit "Below are detailed summaries of different sections of a document. Your task is to synthesize ";
    indent ++ lit "these into a single, cohesive, and comprehensive summary that:";
    indent;
    indent ++ lit "1. Maintains all key information and arguments";
    indent ++ lit "2. Flows naturally as a unified document";
    indent ++ lit "3. Eliminates redundancy while preserving important details";
    indent ++ lit "4. Achieves approximately "
      ++ str_of_int (estimate_words_from_tokens target_tokens) ++ lit " words";
    indent;
    indent ++ lit "Section Summaries:";
    indent ++ combined_summaries;
    indent;
    indent ++ lit "Create a comprehensive final summary:" ] in
  {| model := GPT_NANO_MODEL;
     prompt := final_prompt;
     system_prompt := system_prompt;
     temperature := lit "0.4";
     top_p := lit "0.95";
     max_completion_tokens := Z.min target_tokens 16000;
     presence_penalty := 0;
     frequency_penalty := lit "0.1" |}.

Section Worker.

Variable client : service.

Definition _process_chunk (chunk detail_level prompt_instruction : str) : M str :=
  try_except
    (client_run client (process_chunk_input chunk detail_level prompt_instruction))
    (fun e => ret (lit "Error processing chunk: " ++ e)).

Definition _synthesize_final_summary (chunk_summaries : list str) (target_tokens : Z)
    (detail_level prompt_instruction : str) : M str :=
  try_except
    (client_run client
       (final_synthesis_input chunk_summaries target_tokens detail_level prompt_instruction))
    (fun e => ret (lit "Error in final synthesis: " ++ e)).

(** The parameters of a summary level:
    [(target_words, detail_level, prompt_instruction)]. *)
Definition level_parameters (summary_level : str) : Z * str * str :=
  if str_eqb summary_level (lit "low") then
    (5000,
     lit "extremely comprehensive and detailed",
     lit "Provide an extremely comprehensive, detailed, and thorough summary. Include all key arguments, evidence, examples, data points, and nuances. Maintain the depth and richness of the original content.")
  else if str_eqb summary_level (lit "medium") then
    (2500,
     lit "balanced and substantial",
     lit "Provide a balanced, substantial summary that covers all main points, key arguments, and important details while maintaining readability and flow.")
  else
    (800,
     lit "concise but complete",
     lit "Provide a concise summary focusing on the most critical points, main arguments, and key takeaways while ensuring completeness.").

(** The body of [for i, chunk in enumerate(chunks)]: [n] is [len(chunks)],
    [i] the index of the head of [rest]. *)
Fixpoint for_each_chunk (n i : Z) (rest : list str) (detail_level prompt_instruction : str)
    (chunk_summaries : list str) : M (list str) :=
  match rest with
  | [] => ret chunk_summaries
  | chunk :: rest' =>
      summary <- _process_chunk chunk detail_level prompt_instruction ;;
      let chunk_summaries := chunk_summaries ++ [summary] in
      let progress := 20 + Z.quot ((i + 1) * 60) n in
      emit (Progress progress) ;;
      for_each_chunk n (i + 1) rest' detail_level prompt_instruction chunk_summaries
  end.

(** [not self.api_token or self.api_token == "YOUR_HARDCODED_..."] *)
Definition token_rejected (token : option str) : bool :=
  match token with
  | None => true
  | Some t => negb (truthy t) || str_eqb t (lit "YOUR_HARDCODED_REPLICATE_API_TOKEN_HERE")
  end.

Definition run (self : ReplicateSummarizerWorker) : M unit :=
  if token_rejected (api_token self) then
    emit (Error (lit "Error: Replicate API Token is not correctly set."))
  else
    try_except
      (let '(target_words, detail_level, prompt_instruction) :=
         level_parameters (summary_level self) in
       let target_tokens := Z.quot (target_words * 13) 10 in
       emit (Progress 10) ;;
       chunks <- match text_to_summarize self with
                 | Text text => ret (_create_intelligent_chunks text)
                 | NotText type_error => raise type_error
                 end ;;
       emit (Progress 20) ;;
       chunk_summaries <- for_each_chunk (len chunks) 0 chunks detail_level prompt_instruction [] ;;
       emit (Progress 80) ;;
       final_summary <- _synthesize_final_summary chunk_summaries target_tokens
                          detail_level prompt_instruction ;;
       emit (Progress 100) ;;
       emit (Finished final_summary))
      (fun e => emit (Error (lit "Summarization error: " ++ e))).

(** The events of one run of a fresh worker. *)
Definition events_of_run (self : ReplicateSummarizerWorker) : list event :=
  emitted (run self 0%nat).

End Worker.

(** ** The specification's reading of the estimator

    The specification words both conversions with [round]: rounding to the
    nearest integer, ties to the even one as Python's [round] does. *)

Definition round_half_even (num den : Z) : Z :=
  let q := num / den in
  let r := num mod den in
  if 2 * r <? den then q
  else if 2 * r >? den then q + 1
  else if Z.even q then q else q + 1.

Definition spec_estimateTokens (text : str) : Z :=
  round_half_even (count_words text * 13) 10.

Definition spec_estimateWords (tokenCount : Z) : Z :=
  round_half_even (tokenCount * 10) 13.


(** ** Auxiliary notions used to state the properties *)

(** A text with no non-whitespace character (the empty text included). *)
Definition blank (s : str) : bool := forallb isspace s.

(** A text whose first character exists and is not whitespace. *)
Definition starts_with_text (s : str) : bool :=
  match s with
  | [] => false
  | c :: _ => negb (isspace c)
  end.

(** The running total of the packing loop for a group of units. *)
Definition units_tokens (units : list str) : Z :=
  fold_right (fun u acc => estimate_tokens u + acc) 0 units.

(** The packing loop again, keeping each chunk as the list of the units it
    is joined from.  [pack_is_joined_groups] relates it to [pack]. *)
Fixpoint pack_groups (paragraphs : list str) (groups : list (list str))
                     (current_chunk : list str) (current_tokens : Z) : list (list str) :=
  match paragraphs with
  | [] => if truthy current_chunk then groups ++ [current_chunk] else groups
  | paragraph :: rest =>
      let paragraph_tokens := estimate_tokens paragraph in
      if (current_tokens + paragraph_tokens >? max_chunk_tokens) && truthy current_chunk
      then pack_groups rest (groups ++ [current_chunk]) [paragraph] paragraph_tokens
      else pack_groups rest groups (current_chunk ++ [paragraph])
                       (current_tokens + paragraph_tokens)
  end.

Definition chunk_groups (text : str) : list (list str) :=
  pack_groups (semantic_units text) [] [] 0.

(** A group the planner may close: within the ceiling, or a single
    oversized unit kept whole. *)
Definition group_within_ceiling (g : list str) : Prop :=
  units_tokens g <= max_chunk_tokens \/
  exists u, g = [u] /\ estimate_tokens u > max_chunk_tokens.

(** The components of [level_parameters], and [int(target_words * 1.3)]. *)
Definition detail_level_of (summary_level : str) : str :=
  snd (fst (level_parameters summary_level)).
Definition prompt_instruction_of (summary_level : str) : str :=
  snd (level_parameters summary_level).
Definition target_tokens_of (summary_level : str) : Z :=
  Z.quot (fst (fst (level_parameters summary_level)) * 13) 10.

(** What each kind of event carries, in emission order. *)
Definition progress_values (events : list event) : list Z :=
  flat_map (fun e => match e with Progress v => [v] | _ => [] end) events.
Definition finished_summaries (events : list event) : list str :=
  flat_map (fun e => match e with Finished s => [s] | _ => [] end) events.
Definition error_messages (events : list event) : list str :=
  flat_map (fun e => match e with Error m => [m] | _ => [] end) events.
Definition requests_issued (events : list event) : list request :=
  flat_map (fun e => match e with ClientRun r => [r] | _ => [] end) events.

Section Stages.

Variable client : service.
Variables detail_level prompt_instruction : str.

(** The summary the map stage records for [chunk] when its call is the
    [k]-th of the run: the joined output, or the inline error marker. *)
Definition chunk_summary (k : nat) (chunk : str) : str :=
  match client k (process_chunk_input chunk detail_level prompt_instruction) with
  | Output fragments => List.concat fragments
  | Raises message => lit "Error processing chunk: " ++ message
  end.

(** The summaries of consecutive chunks, the first call being the [k]-th. *)
Fixpoint summaries_from (k : nat) (chunks : list str) : list str :=
  match chunks with
  | [] => []
  | chunk :: rest => chunk_summary k chunk :: summaries_from (S k) rest
  end.

(** The events of the map stage over [chunks], [i] chunks of [n] being
    already done. *)
Fixpoint map_stage_events (n i : Z) (chunks : list str) : list event :=
  match chunks with
  | [] => []
  | chunk :: rest =>
      ClientRun (process_chunk_input chunk detail_level prompt_instruction)
      :: Progress (20 + Z.quot ((i + 1) * 60) n)
      :: map_stage_events n (i + 1) rest
  end.

(** What the reduce stage returns when its call is the [k]-th of the run. *)
Definition synthesis_result (k : nat) (chunk_summaries : list str) (target_tokens : Z) : str :=
  match client k (final_synthesis_input chunk_summaries target_tokens
                    detail_level prompt_instruction) with
  | Output fragments => List.concat fragments
  | Raises message => lit "Error in final synthesis: " ++ message
  end.

End Stages.

(** The progress value after chunk [i] of [n] in the specification's
    words: [20 + floor(i / n * 60)]. *)
Definition mapping_progress (n : Z) (i : nat) : Z := 20 + Z.of_nat i * 60 / n.

(** The progress values of a run that reaches the end, with [n] chunks. *)
Definition successful_progress (n : nat) : list Z :=
  [10; 20] ++ List.map (mapping_progress (Z.of_nat n)) (seq 1 n) ++ [80; 100].

(** ** Concrete services and workers *)

(** A service that answers every call. *)
Definition always_answers : service := fun _ _ => Output [lit "A "; lit "summary."].

(** A service whose [k]-th call fails and whose other calls succeed. *)
Definition fails_at (k : nat) : service := fun n _ =>
  if Nat.eqb n k then Raises (lit "quota exceeded") else Output [lit "A "; lit "summary."].

(** An API token the worker accepts. *)
Definition a_token : option str := Some (lit "r8_0123456789abcdef").

Definition worker_on (text : str) (token : option str) : ReplicateSummarizerWorker :=
  {| text_to_summarize := Text text; summary_level := lit "medium"; api_token := token |}.

(** ** Concrete documents *)

(** [n] one-letter words, each followed by a space. *)
Definition words (n : Z) : str := List.concat (List.repeat (lit "w ") (Z.to_nat n)).

(** A sentence of [n] words closed by a full stop. *)
Definition sentence (n : Z) : str := words n ++ lit ".".

(** One paragraph of two sentences of 6155 words each. *)
Definition two_long_sentences : str := sentence 6155 ++ sentence 6155.

(** One paragraph of four sentences: 3073, 3082, 6155 and 6155 words. *)
Definition four_sentences : str :=
  sentence 3073 ++ sentence 3082 ++ sentence 6155 ++ sentence 6155.

(** Three paragraphs of 2308 words each, 3000 tokens by the estimate. *)
Definition three_paragraphs : str :=
  join paragraph_separator [words 2308; words 2308; words 2308].

(** ** The float expressions of the source, in binary64

    The same four expressions computed with binary64 floats, to compare
    with their exact embedding on a range of arguments. *)

Module Binary64.

Definition float_of_int (n : Z) : float := PrimFloat.of_uint63 (Uint63.of_Z n).

(** [int(f)] for a finite float. *)
Definition int_of_float (f : float) : Z :=
  match Prim2SF f with
  | S754_finite s m e =>
      let v := if 0 <=? e then Z.pos m * 2 ^ e else Z.pos m / 2 ^ (- e) in
      if s then - v else v
  | _ => 0
  end.

(** The float the literal [1.3] denotes. *)
Definition one_point_three : float := 0x1.4cccccccccccdp+0%float.

(** [int(word_count * 1.3)] *)
Definition tokens_of_words (word_count : Z) : Z :=
  int_of_float (PrimFloat.mul (float_of_int word_count) one_point_three).

(** [int(tokens / 1.3)] *)
Definition words_of_tokens (tokens : Z) : Z :=
  int_of_float (PrimFloat.div (float_of_int tokens) one_point_three).

(** [int(i / n * 60)] *)
Definition progress_share (i n : Z) : Z :=
  int_of_float (PrimFloat.mul (PrimFloat.div (float_of_int i) (float_of_int n))
                              (float_of_int 60)).

Definition upto (n : Z) : list Z := List.map Z.of_nat (seq 0 (Z.to_nat n)).

End Binary64.

(** ** The estimators in the standard library's model of binary64

    [Floats.SpecFloat] gives IEEE 754 arithmetic on integers: [SFmul] and
    [SFdiv] round to nearest, ties to even, at precision [prec = 53] and
    exponent bound [emax = 1024].  A result of [None] stands for the
    OverflowError Python raises when an integer is beyond the float range
    or when [int] is applied to an infinity. *)

Module Binary64Spec.

(** [float(n)], the conversion Python applies to the integer operand:
    correctly rounded. *)
Definition of_int (n : Z) : spec_float := binary_normalize prec emax n 0 false.

(** The float the literal [1.3] denotes: [5854679515581645 / 2 ^ 52]. *)
Definition literal_1_3 : spec_float := S754_finite false 5854679515581645 (-52).

(** [int(f)]: truncation toward zero. *)
Definition to_int (f : spec_float) : option Z :=
  match f with
  | S754_zero _ => Some 0
  | S754_finite s m e =>
      let v := if 0 <=? e then Z.pos m * 2 ^ e else Z.pos m / 2 ^ (- e) in
      Some (if s then - v else v)
  | _ => None
  end.

(** [int(tokens / 1.3)] *)
Definition int_over_1_3 (tokens : Z) : option Z :=
  match of_int tokens with
  | S754_infinity _ => None
  | x => to_int (SFdiv prec emax x literal_1_3)
  end.

(** [int(word_count * 1.3)] *)
Definition int_times_1_3 (word_count : Z) : option Z :=
  match of_int word_count with
  | S754_infinity _ => None
  | x => to_int (SFmul prec emax x literal_1_3)
  end.

(** The record [mrs] holds the integer part of [N / K] and tells where the
    rest lies with respect to one half: [shr_r] when it is at least one
    half, [shr_s] when it is neither zero nor one half. *)
Definition locates (mrs : shr_record) (N K : Z) : Prop :=
  shr_m mrs = N / K /\
  shr_r mrs = (K <=? 2 * (N mod K)) /\
  shr_s mrs = negb (N mod K =? 0) && negb (2 * (N mod K) =? K).


(** The integer nearest to [N / K], ties to even. *)
Definition nearest_even (N K : Z) : Z :=
  match 2 * (N mod K) ?= K with
  | Lt => N / K
  | Gt => N / K + 1
  | Eq => if Z.even (N / K) then N / K else N / K + 1
  end.

(** The float of value [m * 2 ^ e] for a rounded mantissa
    [2 ^ 52 <= m <= 2 ^ 53]. *)
Definition normal (m e : Z) : spec_float :=
  if m =? 2 ^ 53 then S754_finite false (Z.to_pos (2 ^ 52)) (e + 1)
  else S754_finite false (Z.to_pos m) e.

(** [int(i / n * share)], the progress expression of the workers. *)
Definition int_share (i n share : Z) : option Z :=
  to_int (SFmul prec emax (SFdiv prec emax (of_int i) (of_int n)) (of_int share)).

(** The float the literal [0.5] denotes. *)
Definition literal_0_5 : spec_float := S754_finite false 4503599627370496 (-53).

(** [int(tokens * 0.5)] *)
Definition int_times_0_5 (tokens : Z) : option Z :=
  match of_int tokens with
  | S754_infinity _ => None
  | x => to_int (SFmul prec emax x literal_0_5)
  end.

End Binary64Spec.

(** ** Further notions used to state properties of the code *)

(** The signals that end a run of the summarizer worker. *)
Definition is_terminal (e : event) : bool :=
  match e with
  | Finished _ | Error _ => true
  | _ => false
  end.

(** A text whose last character exists and is not whitespace. *)
Definition ends_with_text (s : str) : bool := starts_with_text (reverse s).

(** Every chunk but the last was closed because the first unit of the next
    one did not fit under the ceiling. *)
Fixpoint closed_when_full (groups : list (list str)) : Prop :=
  match groups with
  | g :: rest =>
      match rest with
      | next :: _ =>
          units_tokens g + estimate_tokens (hd [] next) > max_chunk_tokens
          /\ closed_when_full rest
      | [] => True
      end
  | [] => True
  end.

(** ** app.py: the planner of the single-file application

    [app.py] carries its own copy of the worker.  Its planner differs from
    the one of [summarizer.py] in one condition: it falls back to sentences
    whenever there are at most two paragraphs, whatever the length of the
    text.  The packing loop is the same. *)

Module App.

Definition semantic_units (text : str) : list str :=
  let paragraphs := stripped_units (Re.split Re.blank_line text) in
  if len paragraphs <=? 2
  then stripped_units (Re.split Re.sentence_end text)
  else paragraphs.

Definition _create_intelligent_chunks (text : str) : list str :=
  pack (semantic_units text) [] [] 0.

End App.

(** ** pdf_processor.py: the text extractor

    The file system and PyPDF2 are given by what they answer: the size of
    the file or the exception [os.path.getsize] raises, the reader that
    opening, reading and parsing the file yields or the exception raised on
    the way, the pages of the reader, and for each page the text
    [extract_text] returns or the exception raised while fetching the page
    or extracting its text.  The extension is
    [os.path.splitext(file_path)[1].lower()] and the name
    [os.path.basename(file_path)]; both are given with the file.

    The three float expressions of the extractor are embedded exactly, as
    for the summarizer: [int((page_num + 1) / total_pages * 80)] is
    [Z.quot ((page_num + 1) * 80) total_pages], which is what binary64
    computes for fewer than [2 ^ 40] pages
    ([extractor_progress_share_binary64]); the quotient
    [total_characters / total_pages] is kept as a fraction, and
    [empty_pages / total_pages > 0.7] is [10 * empty_pages > 7 * total_pages]
    ([binary64_extractor_agrees] compares them with binary64 on a range). *)

Module Pdf.

(** The exceptions [run] tells apart: [PyPDF2.errors.PdfReadError] and
    every other [Exception]; [message] is [str(e)]. *)
Inductive exn :=
| PdfReadError (message : str)
| OtherError (message : str).

Definition str_of_exn (e : exn) : str :=
  match e with
  | PdfReadError message => message
  | OtherError message => message
  end.

Inductive attempt (A : Type) :=
| Ok (a : A)
| Raised (e : exn).
Arguments Ok {A} a.
Arguments Raised {A} e.

(** [reader.pages[page_num].extract_text()]: a string, [None], or an
    exception. *)
Definition page := attempt (option str).

Record PdfReader := {
  pages : attempt (list page);
  is_encrypted : attempt bool
}.

Record file := {
  file_extension : str;
  basename : str;
  getsize : attempt Z;
  open_reader : attempt PdfReader
}.

(** The four signals of the extractor, and what it prints. *)
Inductive signal :=
| Progress (value : Z)
| Finished (filename text : str)
| Error (message : str)
| ValidationFailed (message : str)
| Printed (line : str).

(** A computation: its result or the exception it raises, and what it
    emitted. *)
Definition M (A : Type) := (attempt A * list signal)%type.

Definition ret {A} (a : A) : M A := (Ok a, []).

Definition raise {A} (e : exn) : M A := (Raised e, []).

Definition lift {A} (x : attempt A) : M A := (x, []).

Definition emit (s : signal) : M unit := (Ok tt, [s]).

Definition bind {A B} (m : M A) (f : A -> M B) : M B :=
  match fst m with
  | Ok a => let m' := f a in (fst m', snd m ++ snd m')
  | Raised e => (Raised e, snd m)
  end.

(** [try: body except Exception as e: handler(e)] *)
Definition try_except {A} (body : M A) (handler : exn -> M A) : M A :=
  match fst body with
  | Ok a => body
  | Raised e => let m' := handler e in (fst m', snd body ++ snd m')
  end.

Declare Scope pdf_scope.
Delimit Scope pdf_scope with pdf.
Notation "x <- m ;; k" := (bind m (fun x => k))
  (at level 61, m at next level, right associativity) : pdf_scope.
Notation "m ;; k" := (bind m (fun _ => k))
  (at level 61, right associativity) : pdf_scope.
Local Open Scope pdf_scope.

Definition MIN_WORDS : Z := 500.
Definition MIN_PAGES : Z := 1.

(** A float quotient [numerator / denominator], kept exact. *)
Record quotient := { numerator : Z; denominator : Z }.

(** The [extraction_stats] dictionary. *)
Record extraction_stats := {
  total_pages : Z;
  pages_with_text : Z;
  pages_with_substantial_text : Z;
  empty_pages : Z;
  total_characters : Z;
  average_chars_per_page : quotient
}.

Definition _validate_file_extension (self : file) : M bool :=
  let file_extension := file_extension self in
  if negb (str_eqb file_extension (lit ".pdf")) then
    emit (ValidationFailed (lines [
      lit "Invalid file format. Only PDF files are supported.";
      lit "File type detected: "
        ++ (if truthy file_extension then file_extension else lit "Unknown") ])) ;;
    ret false
  else ret true.

Definition _validate_file_size (self : file) : M bool :=
  try_except
    (file_size <- lift (getsize self) ;;
     if file_size =? 0 then
       emit (ValidationFailed (lit "File is empty. Please select a valid PDF file.")) ;;
       ret false
     else if file_size <? 1024 then
       emit (ValidationFailed (lit "File is too small to contain meaningful content. Please select a larger PDF file.")) ;;
       ret false
     else if file_size >? 100 * 1024 * 1024 then
       emit (ValidationFailed (lit "File is too large (>100MB). Please select a smaller PDF file.")) ;;
       ret false
     else ret true)
    (fun e =>
       emit (ValidationFailed (lit "Cannot access file: " ++ str_of_exn e)) ;;
       ret false).

Definition _validate_pdf_structure (reader : PdfReader) : M bool :=
  try_except
    (reader_pages <- lift (pages reader) ;;
     let total_pages := len reader_pages in
     if total_pages <? MIN_PAGES then
       emit (ValidationFailed (
         lit "PDF must have at least " ++ str_of_int MIN_PAGES
         ++ lit " page(s). This PDF has " ++ str_of_int total_pages ++ lit " page(s).")) ;;
       ret false
     else
       encrypted <- lift (is_encrypted reader) ;;
       if (encrypted : bool) then
         emit (ValidationFailed (lit "PDF is password-protected. Please provide an unencrypted PDF file.")) ;;
         ret false
       else ret true)
    (fun e =>
       emit (ValidationFailed (lit "Cannot read PDF structure: " ++ str_of_exn e)) ;;
       ret false).

(** [re.sub(r'\s+', ' ', s)]: every maximal run of whitespace becomes one
    space.  [in_run] tells that the previous character was whitespace. *)
Fixpoint collapse_whitespace (in_run : bool) (s : str) : str :=
  match s with
  | [] => []
  | c :: s' =>
      if isspace c
      then (if in_run then collapse_whitespace true s'
            else 32%N :: collapse_whitespace true s')
      else c :: collapse_whitespace false s'
  end.

(** [extracted and extracted.strip()] *)
Definition has_text (extracted : option str) : bool :=
  match extracted with
  | Some s => truthy s && truthy (strip s)
  | None => false
  end.

(** The body of [for page_num in range(total_pages)], over the pages from
    [page_num] on.  No exception leaves the body: what a page raises is
    printed and the page counted as empty. *)
Fixpoint extract_pages (total : Z) (page_num : Z) (rest : list page)
    (text : str) (stats : extraction_stats) : (str * extraction_stats) * list signal :=
  match rest with
  | [] => ((text, stats), [])
  | p :: rest' =>
      let '(text', stats', emitted) :=
        match p with
        | Ok extracted =>
            let progress := Z.quot ((page_num + 1) * 80) total in
            if has_text extracted then
              let s := match extracted with Some s => s | None => [] end in
              let clean_text := collapse_whitespace false (strip s) in
              (text ++ s ++ paragraph_separator,
               {| total_pages := total_pages stats;
                  pages_with_text := pages_with_text stats + 1;
                  pages_with_substantial_text :=
                    if len clean_text >? 100
                    then pages_with_substantial_text stats + 1
                    else pages_with_substantial_text stats;
                  empty_pages := empty_pages stats;
                  total_characters := total_characters stats;
                  average_chars_per_page := average_chars_per_page stats |},
               [Progress progress])
            else
              (text,
               {| total_pages := total_pages stats;
                  pages_with_text := pages_with_text stats;
                  pages_with_substantial_text := pages_with_substantial_text stats;
                  empty_pages := empty_pages stats + 1;
                  total_characters := total_characters stats;
                  average_chars_per_page := average_chars_per_page stats |},
               [Progress progress])
        | Raised e =>
            (text,
             {| total_pages := total_pages stats;
                pages_with_text := pages_with_text stats;
                pages_with_substantial_text := pages_with_substantial_text stats;
                empty_pages := empty_pages stats + 1;
                total_characters := total_characters stats;
                average_chars_per_page := average_chars_per_page stats |},
             [Printed (lit "Error extracting text from page "
                       ++ str_of_int (page_num + 1) ++ lit ": " ++ str_of_exn e)])
        end in
      let '(final, later) := extract_pages total (page_num + 1) rest' text' stats' in
      (final, emitted ++ later)
  end.

Definition _extract_and_validate_text (reader : PdfReader) : M (str * extraction_stats) :=
  reader_pages <- lift (pages reader) ;;
  let total := len reader_pages in
  let extraction_stats := {|
    total_pages := total;
    pages_with_text := 0;
    pages_with_substantial_text := 0;
    empty_pages := 0;
    total_characters := 0;
    average_chars_per_page := {| numerator := 0; denominator := 1 |} |} in
  let '((text, stats), emitted) := extract_pages total 0 reader_pages [] extraction_stats in
  let total_characters := len text in
  (Ok (text,
       {| total_pages := total_pages stats;
          pages_with_text := pages_with_text stats;
          pages_with_substantial_text := pages_with_substantial_text stats;
          empty_pages := empty_pages stats;
          total_characters := total_characters;
          average_chars_per_page :=
            if total >? 0
            then {| numerator := total_characters; denominator := total |}
            else {| numerator := 0; denominator := 1 |} |}),
   emitted).

(** [f"{x:.0f}"] for a non-negative quotient: the nearest integer, ties
    to even. *)
Definition format_0f (x : quotient) : str :=
  str_of_int (round_half_even (numerator x) (denominator x)).

Definition _validate_extracted_text (text : str) (stats : extraction_stats) : M bool :=
  emit (Progress 85) ;;
  if negb (truthy text) || negb (truthy (strip text)) then
    emit (ValidationFailed (lit "No text could be extracted from this PDF. The file may contain only images or scanned content without OCR.")) ;;
    ret false
  else
    let word_count := len (Py.split text) in
    if word_count <? MIN_WORDS then
      emit (ValidationFailed (lines [
        lit "PDF contains insufficient text for summarization.";
        lit "Minimum required: " ++ str_of_int MIN_WORDS ++ lit " words";
        lit "Found: " ++ str_of_int word_count ++ lit " words" ])) ;;
      ret false
    else if total_pages stats =? 0 then
      raise (OtherError (lit "division by zero"))
    else if 10 * empty_pages stats >? 7 * total_pages stats then
      emit (ValidationFailed (lines [
        lit "Too many pages without text (" ++ str_of_int (empty_pages stats)
          ++ lit "/" ++ str_of_int (total_pages stats) ++ lit " pages are empty).";
        lit "This PDF may contain primarily images or scanned content." ])) ;;
      ret false
    else if (pages_with_substantial_text stats =? 0) && (total_pages stats >? 0) then
      emit (ValidationFailed (lit "No pages contain substantial text content. The PDF may contain only headers, footers, or minimal text.")) ;;
      ret false
    else if (numerator (average_chars_per_page stats)
               <? 200 * denominator (average_chars_per_page stats))
            && (total_pages stats >? 0) then
      emit (ValidationFailed (lines [
        lit "Average text per page is too low ("
          ++ format_0f (average_chars_per_page stats) ++ lit " characters/page).";
        lit "This suggests the PDF contains primarily non-text content." ])) ;;
      ret false
    else
      emit (Progress 100) ;;
      ret true.

Definition run (self : file) : M unit :=
  try_except
    (valid <- _validate_file_extension self ;;
     if negb valid then ret tt else
     valid <- _validate_file_size self ;;
     if negb valid then ret tt else
     reader <- lift (open_reader self) ;;
     valid <- _validate_pdf_structure reader ;;
     if negb valid then ret tt else
     extraction <- _extract_and_validate_text reader ;;
     let '(text, extraction_stats) := extraction in
     valid <- _validate_extracted_text text extraction_stats ;;
     if negb valid then ret tt else
     emit (Finished (basename self) (strip text)))
    (fun e =>
       match e with
       | PdfReadError _ =>
           emit (ValidationFailed (lit "Invalid PDF file or corrupted content. Please ensure the file is a valid PDF."))
       | OtherError message =>
           emit (ValidationFailed (lit "Error processing PDF: " ++ message))
       end).

Definition events_of_run (self : file) : list signal := snd (run self).

Definition progress_values (events : list signal) : list Z :=
  flat_map (fun e => match e with Progress v => [v] | _ => [] end) events.

(** *** The extraction in closed form *)

(** The texts of the pages that have text, in page order. *)
Definition page_texts (reader_pages : list page) : list str :=
  flat_map (fun p => match p with
                     | Ok (Some s) => if has_text (Some s) then [s] else []
                     | _ => []
                     end) reader_pages.

(** What the loop accumulates in [text]. *)
Definition extracted_text (reader_pages : list page) : str :=
  List.concat (List.map (fun s => s ++ paragraph_separator) (page_texts reader_pages)).

(** A page text counted in [pages_with_substantial_text]. *)
Definition is_substantial (s : str) : bool :=
  len (collapse_whitespace false (strip s)) >? 100.

(** The statistics of a whole document. *)
Definition expected_stats (reader_pages : list page) : extraction_stats :=
  {| total_pages := len reader_pages;
     pages_with_text := len (page_texts reader_pages);
     pages_with_substantial_text := len (List.filter is_substantial (page_texts reader_pages));
     empty_pages := len reader_pages - len (page_texts reader_pages);
     total_characters := len (extracted_text reader_pages);
     average_chars_per_page :=
       if len reader_pages >? 0
       then {| numerator := len (extracted_text reader_pages);
               denominator := len reader_pages |}
       else {| numerator := 0; denominator := 1 |} |}.

(** What the loop emits: a progress value for a page that was read, a
    printed line for a page that raised. *)
Fixpoint page_events (total page_num : Z) (rest : list page) : list signal :=
  match rest with
  | [] => []
  | p :: rest' =>
      match p with
      | Ok _ => Progress (Z.quot ((page_num + 1) * 80) total)
      | Raised e => Printed (lit "Error extracting text from page "
                             ++ str_of_int (page_num + 1) ++ lit ": " ++ str_of_exn e)
      end :: page_events total (page_num + 1) rest'
  end.

(** *** The conditions under which a file is accepted *)

Definition size_ok (self : file) : bool :=
  match getsize self with
  | Ok file_size => (1024 <=? file_size) && (file_size <=? 100 * 1024 * 1024)
  | Raised _ => false
  end.

Definition structure_ok (reader : PdfReader) : bool :=
  match pages reader with
  | Ok reader_pages =>
      (MIN_PAGES <=? len reader_pages)
      && match is_encrypted reader with
         | Ok encrypted => negb encrypted
         | Raised _ => false
         end
  | Raised _ => false
  end.

Definition text_ok (reader_pages : list page) : bool :=
  (MIN_WORDS <=? count_words (extracted_text reader_pages))
  && (10 * (len reader_pages - len (page_texts reader_pages)) <=? 7 * len reader_pages)
  && (1 <=? len (List.filter is_substantial (page_texts reader_pages)))
  && (200 * len reader_pages <=? len (extracted_text reader_pages)).

Definition pages_of (reader : PdfReader) : list page :=
  match pages reader with
  | Ok reader_pages => reader_pages
  | Raised _ => []
  end.

Definition accepted (self : file) : bool :=
  str_eqb (file_extension self) (lit ".pdf")
  && size_ok self
  && match open_reader self with
     | Ok reader => structure_ok reader && text_ok (pages_of reader)
     | Raised _ => false
     end.

(** The signals that end a run of the extractor. *)
Definition is_terminal (e : signal) : bool :=
  match e with
  | Finished _ _ | ValidationFailed _ | Error _ => true
  | _ => false
  end.

(** Progress values and printed lines, the events that do not end a run. *)
Definition is_report (e : signal) : bool :=
  match e with
  | Progress _ | Printed _ => true
  | _ => false
  end.

End Pdf.

(** The float expressions of the extractor, in binary64. *)
Module Binary64Extractor.

(** [int(i / n * 80)] *)
Definition progress_share (i n : Z) : Z :=
  Binary64.int_of_float
    (PrimFloat.mul (PrimFloat.div (Binary64.float_of_int i) (Binary64.float_of_int n))
                   (Binary64.float_of_int 80)).

(** [empty_pages / total_pages > 0.7] *)
Definition ratio_above (empty total : Z) : bool :=
  PrimFloat.ltb 0x1.6666666666666p-1%float
    (PrimFloat.div (Binary64.float_of_int empty) (Binary64.float_of_int total)).

(** [total_characters / total_pages < 200] *)
Definition average_below (characters total : Z) : bool :=
  PrimFloat.ltb (PrimFloat.div (Binary64.float_of_int characters) (Binary64.float_of_int total))
                (Binary64.float_of_int 200).

End Binary64Extractor.

(** ** Concrete files *)

(** A page of [n] one-letter words. *)
Definition page_of_words (n : Z) : Pdf.page := Pdf.Ok (Some (words n)).

(** A readable, unencrypted PDF file of 5000 bytes with the given pages. *)
Definition pdf_with (reader_pages : list Pdf.page) : Pdf.file :=
  {| Pdf.file_extension := lit ".pdf";
     Pdf.basename := lit "report.pdf";
     Pdf.getsize := Pdf.Ok 5000;
     Pdf.open_reader :=
       Pdf.Ok {| Pdf.pages := Pdf.Ok reader_pages; Pdf.is_encrypted := Pdf.Ok false |} |}.

(** Four pages: two of 300 words, one without text, one that fails. *)
Definition four_pages : list Pdf.page :=
  [page_of_words 300; Pdf.Ok None; Pdf.Raised (Pdf.OtherError (lit "bad page"));
   page_of_words 300].
(** * Properties *)

(** ** The exact embedding against binary64

    On word and token counts below 4000, and around the counts used in the
    documents below, truncating the float product or quotient gives what
    the integer quotient gives; so does the progress share for up to 120
    chunks. *)

Lemma binary64_estimates_agree :
  forallb (fun n => (Binary64.tokens_of_words n =? Z.quot (n * 13) 10)
                    && (Binary64.words_of_tokens n =? Z.quot (n * 10) 13))
          (Binary64.upto 4000 ++ [6154; 6155; 6500; 8000; 8001; 1000000]) = true.
Proof. vm_compute. reflexivity. Qed.

Lemma binary64_progress_agrees :
  forallb (fun n => forallb (fun i => Binary64.progress_share (i + 1) (n + 1)
                                      =? Z.quot ((i + 1) * 60) (n + 1))
                            (Binary64.upto (n + 1)))
          (Binary64.upto 120) = true.
Proof. vm_compute. reflexivity. Qed.

(** ** The estimators in binary64

    The source computes [int(word_count * 1.3)] and [int(tokens / 1.3)]
    with binary64 floats.  In the standard library's model of binary64
    the float results are the exact quotients of the embedding, for every
    word count below [2 ^ 49] and every token count below [2 ^ 50]. *)

Module Binary64SpecFacts.

Import Binary64Spec.

Lemma digits2_pos_size (p : positive) : digits2_pos p = Pos.size p.
Proof. induction p; simpl; congruence. Qed.

Lemma digits2_pos_log2 (p : positive) : Z.pos (digits2_pos p) = Z.log2 (Z.pos p) + 1.
Proof.
  rewrite digits2_pos_size.
  destruct p; simpl; try reflexivity; now rewrite Pos2Z.inj_succ.
Qed.

Lemma digits2_pos_bounds (p : positive) (d : Z) :
  2 ^ (d - 1) <= Z.pos p < 2 ^ d -> Z.pos (digits2_pos p) = d.
Proof.
  intros H. rewrite digits2_pos_log2.
  assert (0 <= d - 1).
  { destruct (Z.le_gt_cases 0 (d - 1)) as [|Hneg]; [assumption|].
    assert (d <= 0) by lia.
    assert (2 ^ d <= 2 ^ 0) by (apply Z.pow_le_mono_r; lia).
    simpl in *. lia. }
  rewrite (Z.log2_unique (Z.pos p) (d - 1)); [lia | assumption |].
  replace (Z.succ (d - 1)) with d by lia. exact H.
Qed.

Lemma iter_xO (d p : positive) : Z.pos (Pos.iter xO p d) = Z.pos p * 2 ^ Z.pos d.
Proof.
  induction d as [|d IH] using Pos.peano_ind.
  - simpl. lia.
  - rewrite Pos.iter_succ, Pos2Z.inj_xO, IH, Pos2Z.inj_succ, Z.pow_succ_r by lia. lia.
Qed.

(** The float of an integer below [2 ^ 53] is the integer itself. *)
Lemma of_int_exact (t : Z) :
  0 < t < 2 ^ 53 ->
  exists m : positive,
    of_int t = S754_finite false m (Z.log2 t - 52) /\
    Z.pos m = t * 2 ^ (52 - Z.log2 t) /\
    Z.pos (digits2_pos m) = 53.
Proof.
  intros Ht. destruct t as [|p|p]; try lia.
  pose proof (Z.log2_spec (Z.pos p) ltac:(lia)) as Hlog.
  pose proof (Z.log2_nonneg (Z.pos p)) as Hnn.
  assert (Hlt : Z.log2 (Z.pos p) < 53).
  { apply Z.log2_lt_pow2; lia. }
  set (L := Z.log2 (Z.pos p)) in *.
  unfold of_int, binary_normalize, binary_round.
  assert (Hfexp : fexp prec emax (Z.pos (digits2_pos p) + 0) = L - 52).
  { rewrite digits2_pos_log2. fold L. unfold fexp, SpecFloat.emin, prec, emax. lia. }
  rewrite Hfexp.
  assert (Hal : exists m, shl_align p 0 (L - 52) = (m, L - 52)
                          /\ Z.pos m = Z.pos p * 2 ^ (52 - L)).
  { unfold shl_align. destruct (L - 52 - 0) as [|d|d] eqn:E; try lia.
    - exists p. replace (L - 52) with 0 by lia. replace (52 - L) with 0 by lia.
      split; [reflexivity | simpl; lia].
    - exists (Pos.iter xO p d). split; [reflexivity|].
      rewrite iter_xO. f_equal. f_equal. lia. }
  destruct Hal as (m & -> & Hm).
  assert (Hd : Z.pos (digits2_pos m) = 53).
  { apply digits2_pos_bounds. rewrite Hm.
    assert (E1 : 2 ^ (53 - 1) = 2 ^ L * 2 ^ (52 - L))
      by (rewrite <- Z.pow_add_r by lia; f_equal; lia).
    assert (E2 : 2 ^ 53 = 2 ^ Z.succ L * 2 ^ (52 - L))
      by (rewrite <- Z.pow_add_r by lia; f_equal; lia).
    rewrite E1, E2.
    assert (0 < 2 ^ (52 - L)) by (apply Z.pow_pos_nonneg; lia).
    split; [apply Z.mul_le_mono_nonneg_r | apply Z.mul_lt_mono_pos_r]; lia. }
  exists m. split; [|split; assumption].
  unfold binary_round_aux, shr_fexp. cbn [Zdigits2 shr_record_of_loc].
  assert (Hf2 : fexp prec emax (Z.pos (digits2_pos m) + (L - 52)) - (L - 52) = 0).
  { rewrite Hd. unfold fexp, SpecFloat.emin, prec, emax. lia. }
  rewrite Hf2. cbn [shr shr_m loc_of_shr_record round_nearest_even Zdigits2 shr_record_of_loc].
  rewrite Hf2. cbn [shr shr_m].
  replace (L - 52 <=? emax - prec) with true; [reflexivity|].
  symmetry. apply Z.leb_le. unfold emax, prec. lia.
Qed.

Lemma exact_locates (m : Z) : locates (shr_record_of_loc m loc_Exact) m 1.
Proof.
  unfold locates. cbn [shr_record_of_loc shr_m shr_r shr_s].
  rewrite Z.div_1_r, Z.mod_1_r. repeat split.
Qed.

Lemma division_locates (M D : Z) :
  0 < D -> Z.odd D = true ->
  locates (shr_record_of_loc (M / D) (new_location D (M mod D))) M D.
Proof.
  intros HD Hodd.
  pose proof (Z.mod_pos_bound M D HD) as Hr.
  assert (Hparity : D = 2 * (D / 2) + 1).
  { rewrite (Z.div_mod D 2) at 1 by lia. rewrite Zmod_odd, Hodd. reflexivity. }
  unfold new_location. rewrite <- Z.negb_odd, Hodd. cbn [negb].
  unfold new_location_odd, locates.
  destruct (Z.eqb_spec (M mod D) 0) as [E|E].
  - cbn [shr_record_of_loc shr_m shr_r shr_s]. rewrite E.
    repeat split. symmetry. apply Z.leb_gt. lia.
  - destruct (Z.compare_spec (2 * (M mod D) + 1) D) as [C|C|C];
      cbn [shr_record_of_loc shr_m shr_r shr_s];
      (split; [reflexivity|]); split.
    + symmetry. apply Z.leb_gt. lia.
    + destruct (Z.eqb_spec (2 * (M mod D)) D); [lia | reflexivity].
    + symmetry. apply Z.leb_gt. lia.
    + destruct (Z.eqb_spec (2 * (M mod D)) D); [lia | reflexivity].
    + symmetry. apply Z.leb_le. lia.
    + destruct (Z.eqb_spec (2 * (M mod D)) D); [lia | reflexivity].
Qed.

Lemma shr_1_locates (mrs : shr_record) (N K : Z) :
  0 <= N -> 0 < K -> locates mrs N K -> locates (shr_1 mrs) N (2 * K).
Proof.
  intros HN HK. destruct mrs as [m r s]. unfold locates.
  cbn [shr_m shr_r shr_s]. intros (Hm & Hr & Hs).
  pose proof (Z.mod_pos_bound N K HK) as Hrho.
  pose proof (Z.div_mod N K ltac:(lia)) as HNK.
  assert (Hq : 0 <= N / K) by (apply Z.div_pos; lia).
  set (q := N / K) in *. set (rho := N mod K) in *.
  assert (Hdiv : forall q' b, q = 2 * q' + b -> 0 <= b < 2 ->
                 N / (2 * K) = q' /\ N mod (2 * K) = K * b + rho).
  { intros q' b Hq' Hb.
    assert (HN' : N = (2 * K) * q' + (K * b + rho)) by (rewrite HNK, Hq'; ring).
    assert (0 <= K * b + rho < 2 * K) by nia.
    split; [symmetry; apply (Z.div_unique N (2 * K) q' (K * b + rho)); [lia | exact HN']
           | symmetry; apply (Z.mod_unique N (2 * K) q' (K * b + rho)); [lia | exact HN']]. }
  assert (Hor : orb r s = negb (rho =? 0)).
  { rewrite Hr, Hs.
    destruct (Z.eqb_spec rho 0) as [E|E]; cbn [negb andb].
    - rewrite E. rewrite orb_false_r. apply Z.leb_gt. lia.
    - destruct (Z.leb_spec K (2 * rho)); [reflexivity|].
      cbn [orb]. destruct (Z.eqb_spec (2 * rho) K); [lia | reflexivity]. }
  assert (Heven : forall q', q = 2 * q' ->
            N / (2 * K) = q' /\
            false = (2 * K <=? 2 * (N mod (2 * K))) /\
            orb r s = negb (N mod (2 * K) =? 0) && negb (2 * (N mod (2 * K)) =? 2 * K)).
  { intros q' Hq'. destruct (Hdiv q' 0 ltac:(lia) ltac:(lia)) as [-> ->].
    split; [reflexivity|]. split.
    - symmetry. apply Z.leb_gt. lia.
    - rewrite Hor. replace (K * 0 + rho) with rho by lia.
      destruct (Z.eqb_spec (2 * rho) (2 * K)); [lia|]. now rewrite andb_true_r. }
  assert (Hodd : forall q', q = 2 * q' + 1 ->
            N / (2 * K) = q' /\
            true = (2 * K <=? 2 * (N mod (2 * K))) /\
            orb r s = negb (N mod (2 * K) =? 0) && negb (2 * (N mod (2 * K)) =? 2 * K)).
  { intros q' Hq'. destruct (Hdiv q' 1 ltac:(lia) ltac:(lia)) as [-> ->].
    split; [reflexivity|]. split.
    - symmetry. apply Z.leb_le. lia.
    - rewrite Hor. replace (K * 1 + rho) with (K + rho) by lia.
      destruct (Z.eqb_spec (K + rho) 0); [lia|]. cbn [negb andb].
      destruct (Z.eqb_spec rho 0), (Z.eqb_spec (2 * (K + rho)) (2 * K)); try lia; reflexivity. }
  destruct m as [|[p|p|]|p]; cbn [shr_1 shr_m shr_r shr_s]; try lia.
  - destruct (Heven 0 ltac:(lia)) as (H1 & H2 & H3). now rewrite H1.
  - destruct (Hodd (Z.pos p) ltac:(lia)) as (H1 & H2 & H3). now rewrite H1.
  - destruct (Heven (Z.pos p) ltac:(lia)) as (H1 & H2 & H3). now rewrite H1.
  - destruct (Hodd 0 ltac:(lia)) as (H1 & H2 & H3). now rewrite H1.
Qed.

Lemma iter_shr_1_locates (n : positive) :
  forall (mrs : shr_record) (N K : Z),
  0 <= N -> 0 < K -> locates mrs N K ->
  locates (iter_pos shr_1 n mrs) N (2 ^ Z.pos n * K).
Proof.
  induction n as [n IH|n IH|]; intros mrs N K HN HK H; cbn [iter_pos].
  - assert (0 < 2 ^ Z.pos n) by (apply Z.pow_pos_nonneg; lia).
    replace (2 ^ Z.pos n~1 * K) with (2 ^ Z.pos n * (2 ^ Z.pos n * (2 * K))).
    + apply IH; [lia | nia |]. apply IH; [lia | lia |]. now apply shr_1_locates.
    + replace (Z.pos n~1) with (Z.pos n + Z.pos n + 1) by lia.
      rewrite !Z.pow_add_r, Z.pow_1_r by lia. ring.
  - assert (0 < 2 ^ Z.pos n) by (apply Z.pow_pos_nonneg; lia).
    replace (2 ^ Z.pos n~0 * K) with (2 ^ Z.pos n * (2 ^ Z.pos n * K)).
    + apply IH; [lia | nia |]. now apply IH.
    + replace (Z.pos n~0) with (Z.pos n + Z.pos n) by lia.
      rewrite Z.pow_add_r by lia. ring.
  - change (2 ^ 1 * K) with (2 * K). now apply shr_1_locates.
Qed.

(** Rounding to nearest: the rounded integer is within one half of [N / K]. *)
Lemma round_nearest_even_near (mrs : shr_record) (N K : Z) :
  0 < K -> locates mrs N K ->
  N / K <= round_nearest_even (shr_m mrs) (loc_of_shr_record mrs) <= N / K + 1 /\
  2 * (round_nearest_even (shr_m mrs) (loc_of_shr_record mrs) * K) <= 2 * N + K /\
  2 * N <= 2 * (round_nearest_even (shr_m mrs) (loc_of_shr_record mrs) * K) + K.
Proof.
  intros HK. destruct mrs as [m r s]. unfold locates.
  cbn [shr_m shr_r shr_s]. intros (Hm & Hr & Hs).
  pose proof (Z.mod_pos_bound N K HK) as Hrho.
  pose proof (Z.div_mod N K ltac:(lia)) as HNK.
  set (q := N / K) in *. set (rho := N mod K) in *. subst m.
  assert (Hqk : (q + 1) * K = K * q + K) by ring.
  assert (Hqk' : q * K = K * q) by ring.
  destruct r, s; cbn [loc_of_shr_record round_nearest_even].
  - symmetry in Hr. apply Z.leb_le in Hr. rewrite Hqk. lia.
  - symmetry in Hr. apply Z.leb_le in Hr.
    destruct (Z.even q); [rewrite Hqk' | rewrite Hqk]; lia.
  - symmetry in Hr. apply Z.leb_gt in Hr. rewrite Hqk'. lia.
  - symmetry in Hr. apply Z.leb_gt in Hr. rewrite Hqk'. lia.
Qed.

Lemma Zdigits2_bounds (m d : Z) :
  0 < m -> 2 ^ (d - 1) <= m < 2 ^ d -> Zdigits2 m = d.
Proof.
  intros Hm H. destruct m as [|p|p]; try lia. now apply digits2_pos_bounds.
Qed.

Lemma Zdigits2_spec (m : Z) :
  0 < m -> 2 ^ (Zdigits2 m - 1) <= m < 2 ^ Zdigits2 m.
Proof.
  intros Hm. destruct m as [|p|p]; try lia.
  cbn [Zdigits2]. rewrite digits2_pos_log2.
  replace (Z.log2 (Z.pos p) + 1 - 1) with (Z.log2 (Z.pos p)) by lia.
  replace (Z.log2 (Z.pos p) + 1) with (Z.succ (Z.log2 (Z.pos p))) by lia.
  apply Z.log2_spec. lia.
Qed.

(** The last step of rounding: a mantissa that reached [2 ^ 53] is halved,
    which does not change the value. *)
Lemma renormalize (m0 e' : Z) :
  2 ^ 52 <= m0 <= 2 ^ 53 -> -1074 <= e' <= -2 ->
  to_int
    (let '(mrs'', e'') := shr_fexp prec emax m0 e' loc_Exact in
     match shr_m mrs'' with
     | Z0 => S754_zero false
     | Z.pos m => if e'' <=? emax - prec then S754_finite false m e'' else S754_infinity false
     | Z.neg _ => S754_nan
     end)
  = Some (m0 / 2 ^ (- e')).
Proof.
  intros Hm He.
  destruct (Z.eq_dec m0 (2 ^ 53)) as [->|Hne].
  - unfold shr_fexp.
    replace (fexp prec emax (Zdigits2 (2 ^ 53) + e') - e') with 1
      by (unfold fexp, SpecFloat.emin, prec, emax; change (Zdigits2 (2 ^ 53)) with 54; lia).
    cbn [shr shr_record_of_loc iter_pos].
    change (shr_1 {| shr_m := 2 ^ 53; shr_r := false; shr_s := false |})
      with {| shr_m := 2 ^ 52; shr_r := false; shr_s := false |}.
    cbn [shr_m]. change (2 ^ 52) with (Z.pos (2 ^ 52)) at 1.
    cbv beta iota.
    replace (e' + 1 <=? emax - prec) with true
      by (symmetry; apply Z.leb_le; unfold emax, prec; lia).
    unfold to_int.
    replace (0 <=? e' + 1) with false by (symmetry; apply Z.leb_gt; lia).
    f_equal.
    replace (- e') with (1 + - (e' + 1)) by lia.
    rewrite Z.pow_add_r, Z.pow_1_r by lia.
    assert (0 < 2 ^ (- (e' + 1))) by (apply Z.pow_pos_nonneg; lia).
    rewrite <- Z.div_div by lia. reflexivity.
  - assert (Hd : Zdigits2 m0 = 53) by (apply Zdigits2_bounds; simpl; lia).
    unfold shr_fexp. rewrite Hd.
    replace (fexp prec emax (53 + e') - e') with 0
      by (unfold fexp, SpecFloat.emin, prec, emax; lia).
    cbn [shr shr_record_of_loc shr_m].
    destruct m0 as [|p|p]; try (simpl in Hm; lia).
    cbv beta iota.
    replace (e' <=? emax - prec) with true
      by (symmetry; apply Z.leb_le; unfold emax, prec; lia).
    unfold to_int.
    replace (0 <=? e') with false by (symmetry; apply Z.leb_gt; lia).
    reflexivity.
Qed.

(** Rounding a located quotient of at least 53 digits, the exponent staying
    negative: the integer part of the result is that of a mantissa within
    one half of the quotient. *)
Lemma binary_round_aux_near (mx ex : Z) (lx : location) (N K : Z) :
  0 <= N -> 0 < K ->
  locates (shr_record_of_loc mx lx) N K ->
  53 <= Zdigits2 mx ->
  -1074 <= ex -> ex + (Zdigits2 mx - 53) <= -2 ->
  exists m0 : Z,
    to_int (binary_round_aux prec emax false mx ex lx)
    = Some (m0 / 2 ^ (- (ex + (Zdigits2 mx - 53)))) /\
    2 * (m0 * (2 ^ (Zdigits2 mx - 53) * K)) <= 2 * N + 2 ^ (Zdigits2 mx - 53) * K /\
    2 * N <= 2 * (m0 * (2 ^ (Zdigits2 mx - 53) * K)) + 2 ^ (Zdigits2 mx - 53) * K.
Proof.
  intros HN HK Hloc Hd Hex He.
  assert (Hmx : mx = N / K) by (destruct Hloc as [H _]; now destruct lx as [|[]]).
  assert (Hpos : 0 < mx).
  { assert (0 <= mx) by (rewrite Hmx; apply Z.div_pos; lia).
    destruct mx; [simpl in Hd; lia | lia | lia]. }
  pose proof (Zdigits2_spec mx Hpos) as Hbounds.
  set (d := Zdigits2 mx) in *.
  set (n := d - 53) in *.
  assert (Hp2 : 0 < 2 ^ n) by (apply Z.pow_pos_nonneg; lia).
  unfold binary_round_aux.
  assert (Hshr : exists mrs',
            shr_fexp prec emax mx ex lx = (mrs', ex + n) /\ locates mrs' N (2 ^ n * K)).
  { unfold shr_fexp. fold d.
    replace (fexp prec emax (d + ex) - ex) with n
      by (unfold fexp, SpecFloat.emin, prec, emax; lia).
    destruct n as [|p|p] eqn:En; try lia.
    - exists (shr_record_of_loc mx lx). split.
      + cbn [shr]. f_equal. lia.
      + now rewrite Z.pow_0_r, Z.mul_1_l.
    - exists (iter_pos shr_1 p (shr_record_of_loc mx lx)). split; [reflexivity|].
      now apply iter_shr_1_locates. }
  destruct Hshr as (mrs' & -> & Hloc').
  assert (HK' : 0 < 2 ^ n * K) by lia.
  destruct (round_nearest_even_near mrs' N (2 ^ n * K) HK' Hloc') as (Hq & Hup & Hlo).
  set (m0 := round_nearest_even (shr_m mrs') (loc_of_shr_record mrs')) in *.
  assert (Hquot : N / (2 ^ n * K) = mx / 2 ^ n).
  { rewrite Hmx, Z.div_div by lia. f_equal. ring. }
  assert (Hrange : 2 ^ 52 <= mx / 2 ^ n < 2 ^ 53).
  { assert (E1 : 2 ^ (d - 1) = 2 ^ 52 * 2 ^ n)
      by (rewrite <- Z.pow_add_r by lia; f_equal; lia).
    assert (E2 : 2 ^ d = 2 ^ 53 * 2 ^ n)
      by (rewrite <- Z.pow_add_r by lia; f_equal; lia).
    rewrite E1, E2 in Hbounds. split.
    - apply Z.div_le_lower_bound; lia.
    - apply Z.div_lt_upper_bound; lia. }
  exists m0. split; [|split; assumption].
  apply renormalize; lia.
Qed.

Lemma SFdiv_core_by_1_3 (m1 : positive) (e1 : Z) :
  Z.pos (digits2_pos m1) = 53 -> -1021 <= e1 ->
  SFdiv_core_binary prec emax (Z.pos m1) e1 5854679515581645 (-52)
  = (Z.pos m1 * 2 ^ 53 / 5854679515581645, e1 - 1,
     new_location 5854679515581645 ((Z.pos m1 * 2 ^ 53) mod 5854679515581645)).
Proof.
  intros Hd He. unfold SFdiv_core_binary. cbn [Zdigits2]. rewrite Hd.
  change (Z.pos (digits2_pos 5854679515581645)) with 53.
  replace (Z.min (fexp prec emax (53 + e1 - (53 + -52))) (e1 - -52)) with (e1 - 1)
    by (unfold fexp, SpecFloat.emin, prec, emax; lia).
  replace (e1 - -52 - (e1 - 1)) with 53 by lia.
  cbv beta iota zeta.
  rewrite Z.shiftl_mul_pow2 by lia.
  unfold Z.div, Z.modulo.
  now destruct (Z.div_eucl (Z.pos m1 * 2 ^ 53) 5854679515581645).
Qed.

(** From a mantissa within one half of [t * A / 1.3] to the integer part
    of [t / 1.3]. *)
Lemma quotient_from_rounding (t A m0 : Z) :
  0 <= t -> 8 <= A -> t * A < 2 ^ 54 ->
  2 * (m0 * 5854679515581645) <= 2 * (t * A * 2 ^ 52) + 5854679515581645 ->
  2 * (t * A * 2 ^ 52) <= 2 * (m0 * 5854679515581645) + 5854679515581645 ->
  m0 / A = t * 10 / 13.
Proof.
  intros Ht HA Hsmall Hup Hlo.
  pose proof (Z.div_mod (t * 10) 13 ltac:(lia)) as Hdm.
  pose proof (Z.mod_pos_bound (t * 10) 13 ltac:(lia)) as Hrho.
  set (w := t * 10 / 13) in *. set (rho := (t * 10) mod 13) in *.
  assert (Hw : 0 <= w) by (apply Z.div_pos; lia).
  assert (HX : 10 * (t * A) = 13 * (w * A) + rho * A).
  { replace (10 * (t * A)) with (t * 10 * A) by ring. rewrite Hdm. ring. }
  assert (HR : 0 <= rho * A <= 12 * A) by nia.
  assert (HY : 0 <= w * A) by nia.
  change (2 ^ 52) with 4503599627370496 in *.
  change (2 ^ 54) with 18014398509481984 in *.
  symmetry. apply (Z.div_unique m0 A w (m0 - w * A)); [|lia].
  left. lia.
Qed.

Lemma int_over_1_3_exact (t : Z) :
  0 <= t < 2 ^ 50 -> int_over_1_3 t = Some (t * 10 / 13).
Proof.
  intros Ht. destruct (Z.eq_dec t 0) as [->|Hnz]; [reflexivity|].
  destruct (of_int_exact t) as (m1 & Hof & Hm1 & Hd1).
  { split; [lia|]. apply Z.lt_trans with (2 ^ 50); [lia | reflexivity]. }
  pose proof (Z.log2_spec t ltac:(lia)) as Hlog.
  pose proof (Z.log2_nonneg t) as Hnn.
  assert (Hlt : Z.log2 t < 50) by (apply Z.log2_lt_pow2; lia).
  set (lam := Z.log2 t) in *.
  set (G := 2 ^ (52 - lam)) in *.
  assert (HG : 0 < G) by (apply Z.pow_pos_nonneg; lia).
  assert (Hm1range : 2 ^ 52 <= Z.pos m1 < 2 ^ 53).
  { pose proof (Zdigits2_spec (Z.pos m1) ltac:(lia)) as H.
    cbn [Zdigits2] in H. rewrite Hd1 in H. exact H. }
  unfold int_over_1_3. rewrite Hof. cbv beta iota.
  unfold literal_1_3, SFdiv.
  rewrite SFdiv_core_by_1_3 by (assumption || lia).
  cbn [xorb].
  set (D := 5854679515581645) in *.
  set (N := Z.pos m1 * 2 ^ 53) in *.
  assert (HN : 0 <= N) by (subst N; lia).
  assert (HD : 0 < D) by reflexivity.
  assert (Hq : 2 ^ 52 <= N / D < 2 ^ 54).
  { split.
    - apply Z.div_le_lower_bound; [lia|]. subst N D.
      change (2 ^ 52) with 4503599627370496 in *.
      change (2 ^ 53) with 9007199254740992 in *. lia.
    - apply Z.div_lt_upper_bound; [lia|]. subst N D.
      change (2 ^ 54) with 18014398509481984.
      change (2 ^ 53) with 9007199254740992 in *. lia. }
  assert (Hdq : Zdigits2 (N / D) = 53 \/ Zdigits2 (N / D) = 54).
  { destruct (Z.lt_ge_cases (N / D) (2 ^ 53)).
    - left. apply Zdigits2_bounds; [lia|]. change (53 - 1) with 52. lia.
    - right. apply Zdigits2_bounds; [lia|]. change (54 - 1) with 53. lia. }
  destruct (binary_round_aux_near (N / D) (lam - 52 - 1) (new_location D (N mod D)) N D)
    as (m0 & Hto & Hup & Hlo); try lia.
  { apply division_locates; [assumption | reflexivity]. }
  rewrite Hto. f_equal.
  assert (HNt : N = t * G * 2 ^ 53) by (subst N; now rewrite Hm1).
  assert (HtG : t * (2 * G) < 2 ^ 54).
  { assert (E : 2 ^ 54 = 2 ^ Z.succ lam * (2 * G)).
    { subst G. rewrite <- (Z.pow_succ_r 2 (52 - lam)), <- Z.pow_add_r by lia.
      f_equal. lia. }
    rewrite E. apply Z.mul_lt_mono_pos_r; lia. }
  change (2 ^ 53) with (2 * 2 ^ 52) in HNt.
  clearbody N. subst D.
  assert (HG8 : 8 <= G).
  { subst G. change 8 with (2 ^ 3). apply Z.pow_le_mono_r; lia. }
  destruct Hdq as [Hdq|Hdq]; rewrite Hdq in *.
  - replace (- (lam - 52 - 1 + (53 - 53))) with (Z.succ (52 - lam)) by lia.
    rewrite Z.pow_succ_r by lia. fold G.
    change (2 ^ (53 - 53)) with 1 in *.
    apply quotient_from_rounding; lia.
  - replace (- (lam - 52 - 1 + (54 - 53))) with (52 - lam) by lia. fold G.
    change (2 ^ (54 - 53)) with 2 in *.
    apply quotient_from_rounding; lia.
Qed.

(** From a mantissa within one half of [w * A * 1.3] to the integer part
    of [w * 1.3]. *)
Lemma product_from_rounding (w A m0 : Z) :
  0 <= w < 2 ^ 49 -> 8 <= A ->
  2 * (m0 * 2 ^ 52) <= 2 * (w * A * 5854679515581645) + 2 ^ 52 ->
  2 * (w * A * 5854679515581645) <= 2 * (m0 * 2 ^ 52) + 2 ^ 52 ->
  m0 / A = w * 13 / 10.
Proof.
  intros Hw HA Hup Hlo.
  pose proof (Z.div_mod (w * 13) 10 ltac:(lia)) as Hdm.
  pose proof (Z.mod_pos_bound (w * 13) 10 ltac:(lia)) as Hrho.
  set (k := w * 13 / 10) in *. set (rho := (w * 13) mod 10) in *.
  assert (Hk : 0 <= k) by (apply Z.div_pos; lia).
  assert (HX : 13 * (w * A) = 10 * (k * A) + rho * A).
  { replace (13 * (w * A)) with (w * 13 * A) by ring. rewrite Hdm. ring. }
  assert (HR : 0 <= rho * A <= 9 * A) by nia.
  assert (HY : 0 <= k * A) by nia.
  assert (HwA : 0 <= 8 * (w * A) < 2 ^ 52 * A).
  { change (2 ^ 49) with 562949953421312 in Hw.
    change (2 ^ 52) with 4503599627370496. nia. }
  change (2 ^ 52) with 4503599627370496 in *.
  symmetry. apply (Z.div_unique m0 A k (m0 - k * A)); [|lia].
  left. lia.
Qed.

Lemma int_times_1_3_exact (w : Z) :
  0 <= w < 2 ^ 49 -> int_times_1_3 w = Some (w * 13 / 10).
Proof.
  intros Hw. destruct (Z.eq_dec w 0) as [->|Hnz]; [reflexivity|].
  destruct (of_int_exact w) as (m1 & Hof & Hm1 & Hd1).
  { split; [lia|]. apply Z.lt_trans with (2 ^ 49); [lia | reflexivity]. }
  pose proof (Z.log2_spec w ltac:(lia)) as Hlog.
  pose proof (Z.log2_nonneg w) as Hnn.
  assert (Hlt : Z.log2 w < 49) by (apply Z.log2_lt_pow2; lia).
  set (lam := Z.log2 w) in *.
  set (G := 2 ^ (51 - lam)) in *.
  assert (HG : 8 <= G).
  { subst G. change 8 with (2 ^ 3). apply Z.pow_le_mono_r; lia. }
  assert (HG2 : 2 ^ (52 - lam) = 2 * G).
  { subst G. rewrite <- Z.pow_succ_r by lia. f_equal. lia. }
  rewrite HG2 in Hm1.
  assert (Hm1range : 2 ^ 52 <= Z.pos m1 < 2 ^ 53).
  { pose proof (Zdigits2_spec (Z.pos m1) ltac:(lia)) as H.
    cbn [Zdigits2] in H. rewrite Hd1 in H. exact H. }
  unfold int_times_1_3. rewrite Hof. cbv beta iota.
  unfold literal_1_3, SFmul. cbn [xorb].
  rewrite Pos2Z.inj_mul.
  set (N := Z.pos m1 * 5854679515581645) in *.
  assert (HN : 2 ^ 104 <= N < 2 ^ 106).
  { subst N. change (2 ^ 52) with 4503599627370496 in *.
    change (2 ^ 53) with 9007199254740992 in *.
    change (2 ^ 104) with 20282409603651670423947251286016.
    change (2 ^ 106) with 81129638414606681695789005144064. lia. }
  assert (Hdq : Zdigits2 N = 105 \/ Zdigits2 N = 106).
  { destruct (Z.lt_ge_cases N (2 ^ 105)).
    - left. apply Zdigits2_bounds; [lia|]. change (105 - 1) with 104. lia.
    - right. apply Zdigits2_bounds; [lia|]. change (106 - 1) with 105. lia. }
  destruct (binary_round_aux_near N (lam - 52 + -52) loc_Exact N 1)
    as (m0 & Hto & Hup & Hlo); try lia.
  { apply exact_locates. }
  rewrite Hto. f_equal.
  assert (HNw : N = w * (2 * G) * 5854679515581645) by (subst N; now rewrite Hm1).
  clearbody N.
  destruct Hdq as [Hdq|Hdq]; rewrite Hdq in *.
  - replace (- (lam - 52 + -52 + (105 - 53))) with (Z.succ (51 - lam)) by lia.
    rewrite Z.pow_succ_r by lia. fold G.
    change (2 ^ (105 - 53)) with (2 ^ 52) in *.
    apply product_from_rounding; lia.
  - replace (- (lam - 52 + -52 + (106 - 53))) with (51 - lam) by lia. fold G.
    change (2 ^ (106 - 53)) with (2 * 2 ^ 52) in *.
    apply product_from_rounding; lia.
Qed.



Lemma round_nearest_even_locates (mrs : shr_record) (N K : Z) :
  0 < K -> locates mrs N K ->
  round_nearest_even (shr_m mrs) (loc_of_shr_record mrs) = nearest_even N K.
Proof.
  intros HK. destruct mrs as [m r s]. unfold locates, nearest_even.
  cbn [shr_m shr_r shr_s]. intros (-> & Hr & Hs).
  pose proof (Z.mod_pos_bound N K HK) as Hrho.
  destruct (Z.compare_spec (2 * (N mod K)) K) as [C|C|C];
    destruct r, s; cbn [loc_of_shr_record round_nearest_even]; try reflexivity;
    exfalso.
  all: try (symmetry in Hr; apply Z.leb_le in Hr; lia).
  all: try (symmetry in Hr; apply Z.leb_gt in Hr; lia).
  all: revert Hs; destruct (Z.eqb_spec (N mod K) 0), (Z.eqb_spec (2 * (N mod K)) K);
    cbn [negb andb]; try discriminate; lia.
Qed.

Lemma nearest_even_scale (c N K : Z) :
  0 < c -> 0 < K -> nearest_even (c * N) (c * K) = nearest_even N K.
Proof.
  intros Hc HK. unfold nearest_even.
  rewrite Z.mul_mod_distr_l, Z.div_mul_cancel_l by lia.
  replace (2 * (c * (N mod K))) with (c * (2 * (N mod K))) by ring.
  destruct (Z.compare_spec (2 * (N mod K)) K) as [C|C|C];
    destruct (Z.compare_spec (c * (2 * (N mod K))) (c * K)) as [C'|C'|C'];
    try reflexivity; nia.
Qed.

(** The nearest integer depends on the quotient only. *)
Lemma nearest_even_ratio (N K N' K' : Z) :
  0 < K -> 0 < K' -> N * K' = N' * K -> nearest_even N K = nearest_even N' K'.
Proof.
  intros HK HK' H.
  rewrite <- (nearest_even_scale K' N K), <- (nearest_even_scale K N' K') by lia.
  f_equal; [rewrite Z.mul_comm; rewrite H; ring | ring].
Qed.

Lemma nearest_even_near (N K : Z) :
  0 < K ->
  N / K <= nearest_even N K <= N / K + 1 /\
  2 * (nearest_even N K * K) <= 2 * N + K /\
  2 * N <= 2 * (nearest_even N K * K) + K.
Proof.
  intros HK. unfold nearest_even.
  pose proof (Z.mod_pos_bound N K HK) as Hrho.
  pose proof (Z.div_mod N K ltac:(lia)) as HNK.
  set (q := N / K) in *. set (rho := N mod K) in *.
  assert (Hqk : (q + 1) * K = K * q + K) by ring.
  assert (Hqk' : q * K = K * q) by ring.
  destruct (Z.compare_spec (2 * rho) K) as [C|C|C].
  - destruct (Z.even q); [rewrite Hqk' | rewrite Hqk]; lia.
  - rewrite Hqk'. lia.
  - rewrite Hqk. lia.
Qed.

Lemma quotient_locates (M D : Z) :
  0 < D -> locates (shr_record_of_loc (M / D) (new_location D (M mod D))) M D.
Proof.
  intros HD.
  destruct (Z.odd D) eqn:Hodd; [now apply division_locates|].
  pose proof (Z.mod_pos_bound M D HD) as Hr.
  unfold new_location. rewrite <- Z.negb_odd, Hodd. cbn [negb].
  unfold new_location_even, locates.
  destruct (Z.eqb_spec (M mod D) 0) as [E|E].
  - cbn [shr_record_of_loc shr_m shr_r shr_s]. rewrite E.
    repeat split. symmetry. apply Z.leb_gt. lia.
  - destruct (Z.compare_spec (2 * (M mod D)) D) as [C|C|C];
      cbn [shr_record_of_loc shr_m shr_r shr_s];
      (split; [reflexivity|]); split.
    + symmetry. apply Z.leb_le. lia.
    + destruct (Z.eqb_spec (2 * (M mod D)) D); [reflexivity | lia].
    + symmetry. apply Z.leb_gt. lia.
    + destruct (Z.eqb_spec (2 * (M mod D)) D); [lia | reflexivity].
    + symmetry. apply Z.leb_le. lia.
    + destruct (Z.eqb_spec (2 * (M mod D)) D); [lia | reflexivity].
Qed.

(** The last step of rounding yields the float [normal m0 e']. *)
Lemma second_round_normal (m0 e' : Z) :
  2 ^ 52 <= m0 <= 2 ^ 53 -> -1074 <= e' <= 900 ->
  (let '(mrs'', e'') := shr_fexp prec emax m0 e' loc_Exact in
   match shr_m mrs'' with
   | Z0 => S754_zero false
   | Z.pos m => if e'' <=? emax - prec then S754_finite false m e'' else S754_infinity false
   | Z.neg _ => S754_nan
   end)
  = normal m0 e'.
Proof.
  intros Hm He. unfold normal.
  destruct (Z.eqb_spec m0 (2 ^ 53)) as [->|Hne].
  - unfold shr_fexp.
    replace (fexp prec emax (Zdigits2 (2 ^ 53) + e') - e') with 1
      by (unfold fexp, SpecFloat.emin, prec, emax; change (Zdigits2 (2 ^ 53)) with 54; lia).
    cbn [shr shr_record_of_loc iter_pos].
    change (shr_1 {| shr_m := 2 ^ 53; shr_r := false; shr_s := false |})
      with {| shr_m := 2 ^ 52; shr_r := false; shr_s := false |}.
    cbn [shr_m]. change (2 ^ 52) with (Z.pos (Z.to_pos (2 ^ 52))) at 1.
    cbv beta iota.
    replace (e' + 1 <=? emax - prec) with true
      by (symmetry; apply Z.leb_le; unfold emax, prec; lia).
    reflexivity.
  - assert (Hd : Zdigits2 m0 = 53) by (apply Zdigits2_bounds; simpl; lia).
    unfold shr_fexp. rewrite Hd.
    replace (fexp prec emax (53 + e') - e') with 0
      by (unfold fexp, SpecFloat.emin, prec, emax; lia).
    cbn [shr shr_record_of_loc shr_m].
    destruct m0 as [|p|p]; try (simpl in Hm; lia).
    cbv beta iota.
    replace (e' <=? emax - prec) with true
      by (symmetry; apply Z.leb_le; unfold emax, prec; lia).
    reflexivity.
Qed.

(** Rounding a located quotient of at least 53 digits: the result is the
    float of the nearest mantissa. *)
Lemma binary_round_aux_normal (mx ex : Z) (lx : location) (N K : Z) :
  0 <= N -> 0 < K ->
  locates (shr_record_of_loc mx lx) N K ->
  53 <= Zdigits2 mx ->
  -1074 <= ex -> ex + (Zdigits2 mx - 53) <= 900 ->
  binary_round_aux prec emax false mx ex lx
  = normal (nearest_even N (2 ^ (Zdigits2 mx - 53) * K)) (ex + (Zdigits2 mx - 53)) /\
  2 ^ 52 <= nearest_even N (2 ^ (Zdigits2 mx - 53) * K) <= 2 ^ 53.
Proof.
  intros HN HK Hloc Hd Hex He.
  assert (Hmx : mx = N / K) by (destruct Hloc as [H _]; now destruct lx as [|[]]).
  assert (Hpos : 0 < mx).
  { assert (0 <= mx) by (rewrite Hmx; apply Z.div_pos; lia).
    destruct mx; [simpl in Hd; lia | lia | lia]. }
  pose proof (Zdigits2_spec mx Hpos) as Hbounds.
  set (d := Zdigits2 mx) in *.
  set (n := d - 53) in *.
  assert (Hp2 : 0 < 2 ^ n) by (apply Z.pow_pos_nonneg; lia).
  unfold binary_round_aux.
  assert (Hshr : exists mrs',
            shr_fexp prec emax mx ex lx = (mrs', ex + n) /\ locates mrs' N (2 ^ n * K)).
  { unfold shr_fexp. fold d.
    replace (fexp prec emax (d + ex) - ex) with n
      by (unfold fexp, SpecFloat.emin, prec, emax; lia).
    destruct n as [|p|p] eqn:En; try lia.
    - exists (shr_record_of_loc mx lx). split.
      + cbn [shr]. f_equal. lia.
      + now rewrite Z.pow_0_r, Z.mul_1_l.
    - exists (iter_pos shr_1 p (shr_record_of_loc mx lx)). split; [reflexivity|].
      now apply iter_shr_1_locates. }
  destruct Hshr as (mrs' & -> & Hloc').
  assert (HK' : 0 < 2 ^ n * K) by lia.
  rewrite (round_nearest_even_locates mrs' N (2 ^ n * K) HK' Hloc').
  destruct (nearest_even_near N (2 ^ n * K) HK') as (Hq & _ & _).
  assert (Hquot : N / (2 ^ n * K) = mx / 2 ^ n).
  { rewrite Hmx, Z.div_div by lia. f_equal. ring. }
  assert (Hrange : 2 ^ 52 <= mx / 2 ^ n < 2 ^ 53).
  { assert (E1 : 2 ^ (d - 1) = 2 ^ 52 * 2 ^ n)
      by (rewrite <- Z.pow_add_r by lia; f_equal; lia).
    assert (E2 : 2 ^ d = 2 ^ 53 * 2 ^ n)
      by (rewrite <- Z.pow_add_r by lia; f_equal; lia).
    rewrite E1, E2 in Hbounds. split.
    - apply Z.div_le_lower_bound; lia.
    - apply Z.div_lt_upper_bound; lia. }
  split; [|lia].
  apply second_round_normal; lia.
Qed.

Lemma SFdiv_core_normal (m1 m2 : positive) (e1 e2 : Z) :
  Z.pos (digits2_pos m1) = 53 -> Z.pos (digits2_pos m2) = 53 ->
  -1021 <= e1 - e2 ->
  SFdiv_core_binary prec emax (Z.pos m1) e1 (Z.pos m2) e2
  = (Z.pos m1 * 2 ^ 53 / Z.pos m2, e1 - e2 - 53,
     new_location (Z.pos m2) ((Z.pos m1 * 2 ^ 53) mod Z.pos m2)).
Proof.
  intros Hd1 Hd2 He. unfold SFdiv_core_binary. cbn [Zdigits2]. rewrite Hd1, Hd2.
  replace (Z.min (fexp prec emax (53 + e1 - (53 + e2))) (e1 - e2)) with (e1 - e2 - 53)
    by (unfold fexp, SpecFloat.emin, prec, emax; lia).
  replace (e1 - e2 - (e1 - e2 - 53)) with 53 by lia.
  cbv beta iota zeta.
  rewrite Z.shiftl_mul_pow2 by lia.
  unfold Z.div, Z.modulo.
  now destruct (Z.div_eucl (Z.pos m1 * 2 ^ 53) (Z.pos m2)).
Qed.

(** The float quotient of two integers below [2 ^ 53]: the nearest
    53-bit mantissa of [i / n], at the exponent [- s] that brings the
    quotient between [2 ^ 52] and [2 ^ 53]. *)
Lemma SFdiv_ints (i n s : Z) :
  0 < i -> 0 < n < 2 ^ 53 -> i < 2 ^ 53 ->
  2 ^ 52 * n <= i * 2 ^ s < 2 ^ 53 * n ->
  SFdiv prec emax (of_int i) (of_int n) = normal (nearest_even (i * 2 ^ s) n) (- s) /\
  2 ^ 52 <= nearest_even (i * 2 ^ s) n <= 2 ^ 53.
Proof.
  intros Hi Hn Hi53 Hs.
  assert (Hs0 : 0 <= s).
  { destruct (Z.le_gt_cases 0 s); [assumption|].
    rewrite (Z.pow_neg_r 2 s) in Hs by lia.
    change (2 ^ 52) with 4503599627370496 in Hs. lia. }
  destruct (of_int_exact i ltac:(lia)) as (m1 & Hof1 & Hm1 & Hd1).
  destruct (of_int_exact n ltac:(lia)) as (m2 & Hof2 & Hm2 & Hd2).
  pose proof (Z.log2_nonneg i) as Hli. pose proof (Z.log2_nonneg n) as Hln.
  assert (Hli' : Z.log2 i < 53) by (apply Z.log2_lt_pow2; lia).
  assert (Hln' : Z.log2 n < 53) by (apply Z.log2_lt_pow2; lia).
  set (a := 52 - Z.log2 i) in *. set (b := 52 - Z.log2 n) in *.
  replace (Z.log2 i - 52) with (- a) in Hof1 by lia.
  replace (Z.log2 n - 52) with (- b) in Hof2 by lia.
  assert (Hm1r : 2 ^ 52 <= Z.pos m1 < 2 ^ 53).
  { pose proof (Zdigits2_spec (Z.pos m1) ltac:(lia)) as H.
    cbn [Zdigits2] in H. rewrite Hd1 in H. exact H. }
  assert (Hm2r : 2 ^ 52 <= Z.pos m2 < 2 ^ 53).
  { pose proof (Zdigits2_spec (Z.pos m2) ltac:(lia)) as H.
    cbn [Zdigits2] in H. rewrite Hd2 in H. exact H. }
  assert (Hpa : 0 < 2 ^ a) by (apply Z.pow_pos_nonneg; lia).
  assert (Hpb : 0 < 2 ^ b) by (apply Z.pow_pos_nonneg; lia).
  assert (Hps : 0 < 2 ^ s) by (apply Z.pow_pos_nonneg; lia).
  (* the shift of the quotient *)
  set (sh := 53 + a - b - s).
  assert (Hsh : 0 <= sh).
  { destruct (Z.le_gt_cases 0 sh); [assumption|]. exfalso.
    assert (Hexp : 54 + a <= s + b) by (subst sh; lia).
    assert (H1 : 2 ^ (54 + a) <= 2 ^ (s + b)) by (apply Z.pow_le_mono_r; lia).
    rewrite !Z.pow_add_r in H1 by lia.
    assert (H2 : i * 2 ^ s * 2 ^ b < 2 ^ 53 * n * 2 ^ b)
      by (apply Z.mul_lt_mono_pos_r; lia).
    assert (H3 : i * (2 ^ 54 * 2 ^ a) <= i * (2 ^ s * 2 ^ b))
      by (apply Z.mul_le_mono_nonneg_l; lia).
    rewrite Hm1 in Hm1r. rewrite Hm2 in Hm2r.
    change (2 ^ 54) with (4 * 2 ^ 52) in H3.
    assert (H4 : 2 ^ 53 * (n * 2 ^ b) < 2 ^ 53 * 2 ^ 53)
      by (apply Z.mul_lt_mono_pos_l; lia).
    assert (H5 : 4 * 2 ^ 52 * 2 ^ 52 <= 4 * 2 ^ 52 * (i * 2 ^ a))
      by (apply Z.mul_le_mono_nonneg_l; lia).
    change (2 ^ 52) with 4503599627370496 in *.
    change (2 ^ 53) with 9007199254740992 in *.
    lia. }
  assert (Hpsh : 0 < 2 ^ sh) by (apply Z.pow_pos_nonneg; lia).
  assert (Hkey : 2 ^ a * 2 ^ 53 = 2 ^ s * (2 ^ sh * 2 ^ b)).
  { rewrite <- !Z.pow_add_r by lia. f_equal. subst sh. lia. }
  set (W := 2 ^ sh * 2 ^ b) in *.
  assert (HW : 0 < W) by (subst W; lia).
  set (N := Z.pos m1 * 2 ^ 53).
  assert (HNX : N = i * 2 ^ s * W).
  { subst N. rewrite Hm1, <- Z.mul_assoc, Hkey. ring. }
  assert (HKW : 2 ^ sh * Z.pos m2 = n * W) by (subst W; rewrite Hm2; ring).
  assert (HNpos : 0 <= N) by (subst N; lia).
  (* the digits of the quotient *)
  assert (Hq : 2 ^ (52 + sh) <= N / Z.pos m2 < 2 ^ (53 + sh)).
  { rewrite !Z.pow_add_r by lia. split.
    - apply Z.div_le_lower_bound; [lia|].
      replace (Z.pos m2 * (2 ^ 52 * 2 ^ sh)) with (2 ^ 52 * (2 ^ sh * Z.pos m2)) by ring.
      rewrite HKW, HNX.
      replace (2 ^ 52 * (n * W)) with (2 ^ 52 * n * W) by ring.
      apply Z.mul_le_mono_nonneg_r; lia.
    - apply Z.div_lt_upper_bound; [lia|].
      replace (Z.pos m2 * (2 ^ 53 * 2 ^ sh)) with (2 ^ 53 * (2 ^ sh * Z.pos m2)) by ring.
      rewrite HKW, HNX.
      replace (2 ^ 53 * (n * W)) with (2 ^ 53 * n * W) by ring.
      apply Z.mul_lt_mono_pos_r; lia. }
  assert (Hqpos : 0 < N / Z.pos m2).
  { assert (0 < 2 ^ (52 + sh)) by (apply Z.pow_pos_nonneg; lia). lia. }
  assert (Hdq : Zdigits2 (N / Z.pos m2) = 53 + sh).
  { apply Zdigits2_bounds; [assumption|].
    replace (53 + sh - 1) with (52 + sh) by lia. exact Hq. }
  rewrite Hof1, Hof2. unfold SFdiv.
  rewrite SFdiv_core_normal by (assumption || lia).
  cbn [xorb]. fold N.
  destruct (binary_round_aux_normal (N / Z.pos m2) (- a - - b - 53)
              (new_location (Z.pos m2) (N mod Z.pos m2)) N (Z.pos m2))
    as (Hround & Hrange); try lia.
  { apply quotient_locates. lia. }
  rewrite Hdq in Hround, Hrange.
  replace (53 + sh - 53) with sh in Hround, Hrange by lia.
  assert (Hne : nearest_even N (2 ^ sh * Z.pos m2) = nearest_even (i * 2 ^ s) n).
  { apply nearest_even_ratio; [lia | lia |]. rewrite HKW, HNX. ring. }
  rewrite Hne in Hround, Hrange.
  split; [|exact Hrange].
  rewrite Hround. f_equal. subst sh. lia.
Qed.

(** From the two roundings of [i / n * c] to its integer part, when the
    product is not an integer. *)
Lemma share_from_rounding (i n c k rho mx U m0y A P G : Z) :
  0 < n -> 0 < c -> 0 < G -> 0 < P -> 0 < A -> 0 <= k -> 0 < mx ->
  i * c = k * n + rho -> 1 <= rho <= n - 1 ->
  2 * (c * n) <= U -> n <= A ->
  A * P = U * G ->
  2 * (mx * n) <= 2 * (i * U) + n ->
  2 * (i * U) <= 2 * (mx * n) + n ->
  2 * (m0y * P) <= 2 * (mx * (c * G)) + P ->
  2 * (mx * (c * G)) <= 2 * (m0y * P) + P ->
  m0y / A = k.
Proof.
  intros Hn Hc HG HP HA Hk Hmx Hic Hrho HU HnA HAP Hx1 Hx2 Hy1 Hy2.
  assert (HUpos : 0 < U) by nia.
  (* the second rounding, at the scale of the first *)
  assert (Hy1' : 2 * (m0y * U) <= 2 * (mx * c * A) + U).
  { apply (Z.mul_le_mono_pos_r _ _ G HG).
    replace (2 * (m0y * U) * G) with (2 * m0y * (U * G)) by ring.
    replace ((2 * (mx * c * A) + U) * G) with (2 * (mx * (c * G)) * A + U * G) by ring.
    rewrite <- HAP.
    assert (H : A * (2 * (m0y * P)) <= A * (2 * (mx * (c * G)) + P))
      by (apply Z.mul_le_mono_nonneg_l; lia).
    lia. }
  assert (Hy2' : 2 * (mx * c * A) <= 2 * (m0y * U) + U).
  { apply (Z.mul_le_mono_pos_r _ _ G HG).
    replace ((2 * (m0y * U) + U) * G) with (2 * m0y * (U * G) + U * G) by ring.
    replace (2 * (mx * c * A) * G) with (2 * (mx * (c * G)) * A) by ring.
    rewrite <- HAP.
    assert (H : A * (2 * (mx * (c * G))) <= A * (2 * (m0y * P) + P))
      by (apply Z.mul_le_mono_nonneg_l; lia).
    lia. }
  (* both roundings, multiplied out *)
  assert (Hx1' : c * A * (2 * (mx * n)) <= c * A * (2 * (i * U) + n))
    by (apply Z.mul_le_mono_nonneg_l; nia).
  assert (Hx2' : c * A * (2 * (i * U)) <= c * A * (2 * (mx * n) + n))
    by (apply Z.mul_le_mono_nonneg_l; nia).
  assert (Hy1n : n * (2 * (m0y * U)) <= n * (2 * (mx * c * A) + U))
    by (apply Z.mul_le_mono_nonneg_l; lia).
  assert (Hy2n : n * (2 * (mx * c * A)) <= n * (2 * (m0y * U) + U))
    by (apply Z.mul_le_mono_nonneg_l; lia).
  assert (Hic' : i * c * (U * A) = k * n * (U * A) + rho * (U * A)) by (rewrite Hic; ring).
  assert (HUA : 0 < U * A) by nia.
  assert (Hrho1 : 1 * (U * A) <= rho * (U * A)) by (apply Z.mul_le_mono_nonneg_r; lia).
  assert (Hrho2 : rho * (U * A) <= (n - 1) * (U * A)) by (apply Z.mul_le_mono_nonneg_r; lia).
  assert (HcnA : 2 * (c * n) * A <= U * A) by (apply Z.mul_le_mono_nonneg_r; lia).
  assert (HUn : U * n <= U * A) by (apply Z.mul_le_mono_nonneg_l; lia).
  symmetry. apply (Z.div_unique m0y A k (m0y - k * A)); [|lia].
  left. split.
  - (* k * A <= m0y *)
    destruct (Z.le_gt_cases (k * A) m0y) as [|Hlt]; [lia|]. exfalso.
    assert (H : (U * n) * (m0y + 1) <= (U * n) * (k * A))
      by (apply Z.mul_le_mono_nonneg_l; nia).
    nia.
  - (* m0y < (k + 1) * A *)
    destruct (Z.lt_ge_cases m0y ((k + 1) * A)) as [|Hge]; [lia|]. exfalso.
    assert (H : (U * n) * ((k + 1) * A) <= (U * n) * m0y)
      by (apply Z.mul_le_mono_nonneg_l; nia).
    nia.
Qed.

Lemma normal_finite (m0 e : Z) :
  2 ^ 52 <= m0 <= 2 ^ 53 ->
  exists (mx : positive) (j : Z),
    (j = 0 \/ j = 1) /\
    normal m0 e = S754_finite false mx (e + j) /\
    Z.pos (digits2_pos mx) = 53 /\
    Z.pos mx * 2 ^ j = m0.
Proof.
  intros Hm. unfold normal. destruct (Z.eqb_spec m0 (2 ^ 53)) as [->|Hne].
  - exists (Z.to_pos (2 ^ 52)), 1. repeat split; auto.
  - exists (Z.to_pos m0), 0. split; [now left|]. split; [now rewrite Z.add_0_r|].
    assert (Hpos : Z.pos (Z.to_pos m0) = m0).
    { apply Z2Pos.id. change (2 ^ 52) with 4503599627370496 in Hm. lia. }
    split.
    + apply digits2_pos_bounds. rewrite Hpos. change (53 - 1) with 52. lia.
    + rewrite Hpos. simpl. lia.
Qed.

(** The exponent that brings [i / n] between [2 ^ 52] and [2 ^ 53]. *)
Lemma quotient_exponent (i n : Z) :
  0 < i -> i <= n ->
  exists s, 52 <= s /\ 2 ^ 52 * n <= i * 2 ^ s < 2 ^ 53 * n.
Proof.
  intros Hi Hin.
  pose proof (Z.log2_spec i ltac:(lia)) as Hli.
  pose proof (Z.log2_spec n ltac:(lia)) as Hln.
  pose proof (Z.log2_nonneg i) as Hi0.
  assert (Hmono : Z.log2 i <= Z.log2 n) by (apply Z.log2_le_mono; lia).
  set (li := Z.log2 i) in *. set (ln := Z.log2 n) in *.
  set (s1 := 52 + ln - li).
  assert (Hs1 : 2 ^ li * 2 ^ s1 = 2 ^ 52 * 2 ^ ln).
  { rewrite <- !Z.pow_add_r by lia. f_equal. subst s1. lia. }
  assert (Hp1 : 0 < 2 ^ s1) by (apply Z.pow_pos_nonneg; lia).
  assert (Hpn : 0 < 2 ^ ln) by (apply Z.pow_pos_nonneg; lia).
  rewrite !Z.pow_succ_r in * by lia.
  assert (Hlo : 2 ^ 52 * 2 ^ ln <= i * 2 ^ s1).
  { rewrite <- Hs1. apply Z.mul_le_mono_nonneg_r; lia. }
  assert (Hhi : i * 2 ^ s1 < 2 * (2 ^ 52 * 2 ^ ln)).
  { rewrite <- Hs1. replace (2 * (2 ^ li * 2 ^ s1)) with (2 * 2 ^ li * 2 ^ s1) by ring.
    apply Z.mul_lt_mono_pos_r; lia. }
  change (2 ^ 53) with (2 * 2 ^ 52).
  change (2 ^ 52) with 4503599627370496 in *.
  destruct (Z.le_gt_cases (4503599627370496 * n) (i * 2 ^ s1)) as [Hge|Hlt].
  - exists s1. split; [subst s1; lia|]. lia.
  - exists (s1 + 1). split; [subst s1; lia|].
    rewrite Z.pow_add_r, Z.pow_1_r by lia. lia.
Qed.

(** The float quotient depends on the exact quotient only. *)
Lemma SFdiv_same_quotient (i n k c : Z) :
  0 < i -> i <= n -> n < 2 ^ 53 -> 0 < k -> 0 < c < 2 ^ 53 -> k < 2 ^ 53 ->
  i * c = k * n ->
  SFdiv prec emax (of_int i) (of_int n) = SFdiv prec emax (of_int k) (of_int c).
Proof.
  intros Hi Hin Hn Hk Hc Hk53 Heq.
  destruct (quotient_exponent i n Hi Hin) as (s & Hs & Hlo & Hhi).
  assert (Hps : 0 < 2 ^ s) by (apply Z.pow_pos_nonneg; lia).
  assert (Hbounds : 2 ^ 52 * c <= k * 2 ^ s < 2 ^ 53 * c).
  { assert (H1 : c * (2 ^ 52 * n) <= c * (i * 2 ^ s))
      by (apply Z.mul_le_mono_nonneg_l; lia).
    assert (H2 : c * (i * 2 ^ s) < c * (2 ^ 53 * n))
      by (apply Z.mul_lt_mono_pos_l; lia).
    replace (c * (i * 2 ^ s)) with (i * c * 2 ^ s) in H1, H2 by ring.
    rewrite Heq in H1, H2.
    split.
    - apply (Z.mul_le_mono_pos_r _ _ n); [lia|].
      replace (2 ^ 52 * c * n) with (c * (2 ^ 52 * n)) by ring.
      replace (k * 2 ^ s * n) with (k * n * 2 ^ s) by ring. exact H1.
    - apply (Z.mul_lt_mono_pos_r n); [lia|].
      replace (2 ^ 53 * c * n) with (c * (2 ^ 53 * n)) by ring.
      replace (k * 2 ^ s * n) with (k * n * 2 ^ s) by ring. exact H2. }
  destruct (SFdiv_ints i n s) as [-> _]; try lia.
  destruct (SFdiv_ints k c s) as [-> _]; try lia.
  f_equal. apply nearest_even_ratio; [lia | lia |].
  replace (i * 2 ^ s * c) with (i * c * 2 ^ s) by ring. rewrite Heq. ring.
Qed.

(** [int(i / n * c)] when [i * c / n] is not an integer. *)
Lemma int_share_fraction (i n c : Z) :
  0 < i -> i <= n -> n < 2 ^ 40 -> 32 <= c < 128 ->
  (i * c) mod n <> 0 ->
  int_share i n c = Some (i * c / n).
Proof.
  intros Hi Hin Hn Hc Hfrac.
  assert (H40 : 2 ^ 40 < 2 ^ 53) by reflexivity.
  destruct (quotient_exponent i n Hi Hin) as (s & Hs & Hlo & Hhi).
  assert (Hps : 0 < 2 ^ s) by (apply Z.pow_pos_nonneg; lia).
  (* s is at most 92 *)
  assert (Hs92 : s <= 92).
  { destruct (Z.le_gt_cases s 92); [assumption|]. exfalso.
    assert (H1 : 2 ^ 93 <= 2 ^ s) by (apply Z.pow_le_mono_r; lia).
    assert (H2 : 1 * 2 ^ s <= i * 2 ^ s) by (apply Z.mul_le_mono_nonneg_r; lia).
    change (2 ^ 93) with (2 ^ 53 * 2 ^ 40) in H1.
    change (2 ^ 53) with 9007199254740992 in *.
    change (2 ^ 40) with 1099511627776 in *. lia. }
  destruct (SFdiv_ints i n s) as [Hdiv Hrange]; try lia.
  destruct (nearest_even_near (i * 2 ^ s) n ltac:(lia)) as (_ & Hx1 & Hx2).
  set (m0x := nearest_even (i * 2 ^ s) n) in *.
  destruct (normal_finite m0x (- s) Hrange) as (mx & j & Hj & Hnormal & Hdx & Hmx).
  destruct (of_int_exact c) as (mc & Hofc & Hmc & Hdc).
  { change (2 ^ 53) with 9007199254740992. lia. }
  assert (Hlc : 5 <= Z.log2 c <= 6).
  { split.
    - apply Z.log2_le_pow2; [lia|]. change (2 ^ 5) with 32. lia.
    - assert (Z.log2 c < 7) by (apply Z.log2_lt_pow2; [lia|]; change (2 ^ 7) with 128; lia).
      lia. }
  set (g := 52 - Z.log2 c) in *.
  replace (Z.log2 c - 52) with (- g) in Hofc by lia.
  assert (Hpg : 0 < 2 ^ g) by (apply Z.pow_pos_nonneg; lia).
  unfold int_share. rewrite Hdiv, Hnormal, Hofc.
  unfold SFmul. cbn [xorb]. rewrite Pos2Z.inj_mul.
  set (ex := - s + j) in *.
  set (N := Z.pos mx * Z.pos mc).
  assert (Hmxr : 2 ^ 52 <= Z.pos mx < 2 ^ 53).
  { pose proof (Zdigits2_spec (Z.pos mx) ltac:(lia)) as H.
    cbn [Zdigits2] in H. rewrite Hdx in H. exact H. }
  assert (Hmcr : 2 ^ 52 <= Z.pos mc < 2 ^ 53).
  { pose proof (Zdigits2_spec (Z.pos mc) ltac:(lia)) as H.
    cbn [Zdigits2] in H. rewrite Hdc in H. exact H. }
  assert (HN : 2 ^ 104 <= N < 2 ^ 106).
  { subst N. change (2 ^ 104) with (2 ^ 52 * 2 ^ 52).
    change (2 ^ 106) with (2 ^ 53 * 2 ^ 53).
    split; [apply Z.mul_le_mono_nonneg | apply Z.mul_lt_mono_nonneg]; lia. }
  assert (Hdq : Zdigits2 N = 105 \/ Zdigits2 N = 106).
  { destruct (Z.lt_ge_cases N (2 ^ 105)).
    - left. apply Zdigits2_bounds; [lia|]. change (105 - 1) with 104. lia.
    - right. apply Zdigits2_bounds; [lia|]. change (106 - 1) with 105. lia. }
  destruct (binary_round_aux_near N (ex + - g) loc_Exact N 1)
    as (m0y & Hto & Hy1 & Hy2); try (subst ex; lia).
  { apply exact_locates. }
  rewrite Hto. f_equal.
  set (n' := Zdigits2 N - 53) in *.
  assert (Hn' : 52 <= n' <= 53) by (subst n'; lia).
  set (S := - (ex + - g + n')) in *.
  assert (HS : 40 <= S) by (subst S ex; lia).
  assert (Hex : 0 <= - ex) by (subst ex; lia).
  assert (HAP : 2 ^ S * 2 ^ n' = 2 ^ (- ex) * 2 ^ g).
  { rewrite <- !Z.pow_add_r by lia. f_equal. subst S. lia. }
  assert (HUT : 2 ^ (- ex) * 2 ^ j = 2 ^ s).
  { rewrite <- Z.pow_add_r by lia. f_equal. subst ex. lia. }
  pose proof (Z.div_mod (i * c) n ltac:(lia)) as Hdm.
  pose proof (Z.mod_pos_bound (i * c) n ltac:(lia)) as Hrho.
  assert (Hk : 0 <= i * c / n) by (apply Z.div_pos; [apply Z.mul_nonneg_nonneg|]; lia).
  assert (HP : 0 < 2 ^ n') by (apply Z.pow_pos_nonneg; lia).
  assert (HA : 0 < 2 ^ S) by (apply Z.pow_pos_nonneg; lia).
  assert (Hic : i * c = i * c / n * n + (i * c) mod n) by (rewrite Hdm at 1; ring).
  assert (HU : 2 * (c * n) <= 2 ^ (- ex)).
  { assert (H1 : 2 ^ 51 <= 2 ^ (- ex)) by (apply Z.pow_le_mono_r; subst ex; lia).
    assert (H2 : c * n <= 128 * n) by (apply Z.mul_le_mono_nonneg_r; lia).
    change (2 ^ 51) with 2251799813685248 in H1.
    change (2 ^ 40) with 1099511627776 in Hn. lia. }
  assert (HnA : n <= 2 ^ S).
  { assert (H1 : 2 ^ 40 <= 2 ^ S) by (apply Z.pow_le_mono_r; lia). lia. }
  assert (Hx1' : 2 * (Z.pos mx * n) <= 2 * (i * 2 ^ (- ex)) + n).
  { rewrite <- Hmx, <- HUT in Hx1.
    destruct Hj as [-> | ->]; rewrite ?Z.pow_0_r, ?Z.pow_1_r in Hx1; lia. }
  assert (Hx2' : 2 * (i * 2 ^ (- ex)) <= 2 * (Z.pos mx * n) + n).
  { rewrite <- Hmx, <- HUT in Hx2.
    destruct Hj as [-> | ->]; rewrite ?Z.pow_0_r, ?Z.pow_1_r in Hx2; lia. }
  assert (Hy1' : 2 * (m0y * 2 ^ n') <= 2 * (Z.pos mx * (c * 2 ^ g)) + 2 ^ n').
  { rewrite Z.mul_1_r in Hy1. subst N. rewrite Hmc in Hy1. exact Hy1. }
  assert (Hy2' : 2 * (Z.pos mx * (c * 2 ^ g)) <= 2 * (m0y * 2 ^ n') + 2 ^ n').
  { rewrite Z.mul_1_r in Hy2. subst N. rewrite Hmc in Hy2. exact Hy2. }
  apply (share_from_rounding i n c (i * c / n) ((i * c) mod n) (Z.pos mx)
           (2 ^ (- ex)) m0y (2 ^ S) (2 ^ n') (2 ^ g)); assumption || lia.
Qed.

(** [int(k / c * c)] is [k], for the shares 60 and 80 of the workers. *)
Lemma int_share_whole (k c : Z) :
  c = 60 \/ c = 80 -> 0 < k <= c -> int_share k c c = Some k.
Proof.
  intros Hc Hk.
  assert (Hall : forall c', c' = 60 \/ c' = 80 ->
            forallb (fun j => match int_share (Z.of_nat j) c' c' with
                              | Some v => v =? Z.of_nat j
                              | None => false
                              end)
                    (seq 1 (Z.to_nat c')) = true).
  { intros c' [-> | ->]; vm_compute; reflexivity. }
  specialize (Hall c Hc). rewrite forallb_forall in Hall.
  specialize (Hall (Z.to_nat k)).
  rewrite Z2Nat.id in Hall by lia.
  destruct (int_share k c c) as [v|].
  - f_equal. apply Z.eqb_eq. apply Hall. apply in_seq. lia.
  - discriminate Hall. apply in_seq. lia.
Qed.

(** The progress share [int(i / n * c)] in binary64 is the exact quotient
    [i * c / n], for at most [2 ^ 40] steps. *)
Lemma int_share_exact (i n c : Z) :
  0 < i -> i <= n -> n < 2 ^ 40 -> c = 60 \/ c = 80 ->
  int_share i n c = Some (i * c / n).
Proof.
  intros Hi Hin Hn Hc.
  assert (Hc' : 32 <= c < 128) by (destruct Hc; subst c; lia).
  destruct (Z.eq_dec ((i * c) mod n) 0) as [Hz|Hnz].
  - assert (Heq : i * c = i * c / n * n).
    { rewrite (Z.div_mod (i * c) n) at 1 by lia. rewrite Hz. ring. }
    set (k := i * c / n) in *.
    assert (Hk : 0 < k <= c).
    { split.
      - assert (0 < i * c) by (apply Z.mul_pos_pos; lia).
        destruct (Z.le_gt_cases k 0) as [Hle|]; [|assumption]. exfalso.
        assert (k * n <= 0 * n) by (apply Z.mul_le_mono_nonneg_r; lia). lia.
      - destruct (Z.le_gt_cases k c) as [|Hgt]; [assumption|]. exfalso.
        assert (H1 : (c + 1) * n <= k * n) by (apply Z.mul_le_mono_nonneg_r; lia).
        assert (H2 : i * c <= n * c) by (apply Z.mul_le_mono_nonneg_r; lia).
        lia. }
    unfold int_share.
    assert (H40 : 2 ^ 40 < 2 ^ 53) by reflexivity.
    change (2 ^ 53) with 9007199254740992 in H40.
    rewrite (SFdiv_same_quotient i n k c);
      try (change (2 ^ 53) with 9007199254740992; lia).
    apply (int_share_whole k c Hc Hk).
  - now apply int_share_fraction.
Qed.

(** [int(n * 0.5)] in binary64 is [n / 2]. *)
Lemma int_times_0_5_exact (n : Z) :
  0 <= n < 2 ^ 52 -> int_times_0_5 n = Some (n / 2).
Proof.
  intros Hn. destruct (Z.eq_dec n 0) as [->|Hnz]; [reflexivity|].
  destruct (of_int_exact n) as (m1 & Hof & Hm1 & Hd1).
  { split; [lia|]. apply Z.lt_trans with (2 ^ 52); [lia | reflexivity]. }
  pose proof (Z.log2_nonneg n) as Hnn.
  assert (Hlt : Z.log2 n < 52) by (apply Z.log2_lt_pow2; lia).
  set (a := 52 - Z.log2 n) in *.
  replace (Z.log2 n - 52) with (- a) in Hof by lia.
  assert (Hpa : 0 < 2 ^ a) by (apply Z.pow_pos_nonneg; lia).
  assert (Hm1r : 2 ^ 52 <= Z.pos m1 < 2 ^ 53).
  { pose proof (Zdigits2_spec (Z.pos m1) ltac:(lia)) as H.
    cbn [Zdigits2] in H. rewrite Hd1 in H. exact H. }
  unfold int_times_0_5. rewrite Hof. cbv beta iota.
  unfold literal_0_5, SFmul. cbn [xorb]. rewrite Pos2Z.inj_mul.
  change (Z.pos 4503599627370496) with (2 ^ 52).
  set (N := Z.pos m1 * 2 ^ 52).
  assert (HN : 2 ^ 104 <= N < 2 ^ 105).
  { subst N. change (2 ^ 104) with (2 ^ 52 * 2 ^ 52).
    change (2 ^ 105) with (2 ^ 53 * 2 ^ 52).
    split; [apply Z.mul_le_mono_nonneg_r | apply Z.mul_lt_mono_pos_r]; lia. }
  assert (Hdq : Zdigits2 N = 105).
  { apply Zdigits2_bounds; [lia|]. change (105 - 1) with 104. lia. }
  destruct (binary_round_aux_near N (- a + -53) loc_Exact N 1)
    as (m0 & Hto & Hup & Hlo); try lia.
  { apply exact_locates. }
  rewrite Hto, Hdq. f_equal.
  rewrite Hdq in Hup, Hlo. change (2 ^ (105 - 53)) with (2 ^ 52) in Hup, Hlo.
  assert (Hm0 : m0 = Z.pos m1).
  { subst N. change (2 ^ 52) with 4503599627370496 in *. lia. }
  rewrite Hm0, Hm1.
  replace (- (- a + -53 + (105 - 53))) with (a + 1) by lia.
  rewrite Z.pow_add_r, Z.pow_1_r by lia.
  rewrite (Z.mul_comm (2 ^ a) 2).
  apply Z.div_mul_cancel_r; lia.
Qed.

End Binary64SpecFacts.

(** ** Token estimation *)

Lemma count_words_nonneg (text : str) : 0 <= count_words text.
Proof. unfold count_words, len. lia. Qed.

Lemma estimate_tokens_floor (text : str) :
  estimate_tokens text = count_words text * 13 / 10.
Proof.
  unfold estimate_tokens. pose proof (count_words_nonneg text).
  apply Z.quot_div_nonneg; lia.
Qed.

Lemma estimate_words_floor (tokens : Z) :
  0 <= tokens -> estimate_words_from_tokens tokens = tokens * 10 / 13.
Proof. intros H. unfold estimate_words_from_tokens. apply Z.quot_div_nonneg; lia. Qed.

Lemma estimate_tokens_nonneg (text : str) : 0 <= estimate_tokens text.
Proof.
  rewrite estimate_tokens_floor. pose proof (count_words_nonneg text).
  apply Z.div_pos; lia.
Qed.

(** C7: converting a text's token estimate back to words lands within one
    word of the text's word count, for every non-empty text. *)
Theorem roundtrip_within_one_word (text : str) :
  text <> [] ->
  Z.abs (estimate_words_from_tokens (estimate_tokens text) - count_words text) <= 1.
Proof.
  intros _.
  pose proof (count_words_nonneg text) as Hw.
  pose proof (estimate_tokens_nonneg text) as Ht.
  rewrite (estimate_words_floor _ Ht).
  rewrite estimate_tokens_floor in *.
  set (w := count_words text) in *.
  pose proof (Z.div_mod (w * 13) 10 ltac:(lia)) as E1.
  pose proof (Z.mod_pos_bound (w * 13) 10 ltac:(lia)) as B1.
  set (t := w * 13 / 10) in *.
  pose proof (Z.div_mod (t * 10) 13 ltac:(lia)) as E2.
  pose proof (Z.mod_pos_bound (t * 10) 13 ltac:(lia)) as B2.
  lia.
Qed.

Lemma roundtrip_within_one_word_witness :
  lit "a b c" <> [] /\
  Z.abs (estimate_words_from_tokens (estimate_tokens (lit "a b c"))
         - count_words (lit "a b c")) <= 1.
Proof.
  split.
  - discriminate.
  - apply (roundtrip_within_one_word (lit "a b c")). discriminate.
Defined.

(** C8, as the specification states it, fails on a two-word text: the code
    truncates 2.6 to 2 where rounding gives 3, and truncates 2 / 1.3 to 1
    where rounding gives 2.  Nor is the conversion total: on the token
    count [2 ^ 1024] the division raises OverflowError. *)
Lemma estimator_is_not_rounding :
  estimate_tokens (lit "a b") = 2 /\ spec_estimateTokens (lit "a b") = 3 /\
  estimate_words_from_tokens 2 = 1 /\ spec_estimateWords 2 = 2 /\
  Binary64Spec.int_over_1_3 (2 ^ 1024) = None.
Proof. repeat split; vm_compute; reflexivity. Qed.

(** The float literal of the hardware floats is the one of the model. *)
Lemma literal_1_3_is_the_float :
  Prim2SF Binary64.one_point_three = Binary64Spec.literal_1_3.
Proof. vm_compute. reflexivity. Qed.

(** Hardware floats and the model give the same estimates, on small and
    on large counts. *)
Lemma binary64_models_agree :
  forallb (fun n => match Binary64Spec.int_times_1_3 n, Binary64Spec.int_over_1_3 n with
                    | Some tokens, Some word_count =>
                        (Binary64.tokens_of_words n =? tokens)
                        && (Binary64.words_of_tokens n =? word_count)
                    | _, _ => false
                    end)
          (Binary64.upto 2000
           ++ [6154; 6155; 6500; 8000; 8001; 1000000; 2 ^ 49 - 1; 2 ^ 50 - 1;
               844439122117403; 1463730508048831; 2 ^ 53 + 1; 10 ^ 18]) = true.
Proof. vm_compute. reflexivity. Qed.

(** The binary64 product of the source is the exact quotient of the
    embedding, for every text of fewer than [2 ^ 49] words. *)
Lemma estimate_tokens_binary64 (text : str) :
  count_words text < 2 ^ 49 ->
  Binary64Spec.int_times_1_3 (count_words text) = Some (estimate_tokens text).
Proof.
  intros H. rewrite estimate_tokens_floor.
  apply Binary64SpecFacts.int_times_1_3_exact.
  pose proof (count_words_nonneg text). lia.
Qed.

(** The binary64 quotient of the source is the exact quotient of the
    embedding, for every token count from 0 below [2 ^ 50]. *)
Lemma estimate_words_from_tokens_binary64 (tokens : Z) :
  0 <= tokens < 2 ^ 50 ->
  Binary64Spec.int_over_1_3 tokens = Some (estimate_words_from_tokens tokens).
Proof.
  intros H. rewrite estimate_words_floor by lia.
  now apply Binary64SpecFacts.int_over_1_3_exact.
Qed.

(** The binary64 product [chunk_tokens * 0.5] of [_process_chunk] is the
    exact half of the embedding. *)
Lemma target_output_tokens_binary64 (chunk : str) :
  estimate_tokens chunk < 2 ^ 52 ->
  Binary64Spec.int_times_0_5 (estimate_tokens chunk)
  = Some (Z.quot (estimate_tokens chunk) 2).
Proof.
  intros H. pose proof (estimate_tokens_nonneg chunk).
  rewrite Z.quot_div_nonneg by lia.
  apply Binary64SpecFacts.int_times_0_5_exact. lia.
Qed.

(** The binary64 progress share [int((i + 1) / len(chunks) * 60)] of [run]
    is the exact quotient of the embedding, for fewer than [2 ^ 40]
    chunks. *)
Lemma progress_share_binary64 (i n : Z) :
  0 <= i < n -> n < 2 ^ 40 ->
  Binary64Spec.int_share (i + 1) n 60 = Some (Z.quot ((i + 1) * 60) n).
Proof.
  intros Hi Hn. rewrite Z.quot_div_nonneg by lia.
  apply Binary64SpecFacts.int_share_exact; lia.
Qed.

(** Likewise the share [int((page_num + 1) / total_pages * 80)] of the
    extractor, for fewer than [2 ^ 40] pages. *)
Lemma extractor_progress_share_binary64 (page_num total_pages : Z) :
  0 <= page_num < total_pages -> total_pages < 2 ^ 40 ->
  Binary64Spec.int_share (page_num + 1) total_pages 80
  = Some (Z.quot ((page_num + 1) * 80) total_pages).
Proof.
  intros Hi Hn. rewrite Z.quot_div_nonneg by lia.
  apply Binary64SpecFacts.int_share_exact; lia.
Qed.

(** Above the bounds binary64 can differ from the exact quotient: a token
    count between [2 ^ 50] and [2 ^ 51], the token count [10 ^ 18], and a
    word count between [2 ^ 49] and [2 ^ 50]; on [2 ^ 1024] the conversion
    to a float raises OverflowError. *)
Lemma binary64_differs_on_large_counts :
  (2 ^ 50 <= 1463730508048831 < 2 ^ 51 /\
   Binary64Spec.int_over_1_3 1463730508048831 = Some 1125946544652947 /\
   estimate_words_from_tokens 1463730508048831 = 1125946544652946) /\
  (Binary64Spec.int_over_1_3 (10 ^ 18) = Some 769230769230769152 /\
   estimate_words_from_tokens (10 ^ 18) = 769230769230769230) /\
  (2 ^ 49 <= 844439122117403 < 2 ^ 50 /\
   Binary64Spec.int_times_1_3 844439122117403 = Some 1097770858752624 /\
   Z.quot (844439122117403 * 13) 10 = 1097770858752623) /\
  Binary64Spec.int_over_1_3 (2 ^ 1024) = None /\
  Binary64Spec.int_times_1_3 (2 ^ 1024) = None.
Proof. vm_compute. repeat split; intros H; discriminate H. Qed.

(** C8, amended: both conversions truncate, they do not round.
    [estimate_tokens text] is the integer part of [1.3 * count_words text].
    For every token count from 0 below [2 ^ 50], [int(tokens / 1.3)] as
    binary64 computes it returns a result, [estimate_words_from_tokens
    tokens], and it is the integer part of [tokens / 1.3]; likewise
    [int(word_count * 1.3)] returns [estimate_tokens text] when the text
    has fewer than [2 ^ 49] words.  The estimate of the empty string is 0
    and so is the word count of 0 tokens. *)
Theorem estimator_truncates (text : str) (tokens : Z) :
  0 <= tokens < 2 ^ 50 ->
  (10 * estimate_tokens text <= 13 * count_words text < 10 * (estimate_tokens text + 1)) /\
  (13 * estimate_words_from_tokens tokens <= 10 * tokens
     < 13 * (estimate_words_from_tokens tokens + 1)) /\
  Binary64Spec.int_over_1_3 tokens = Some (estimate_words_from_tokens tokens) /\
  (count_words text < 2 ^ 49 ->
   Binary64Spec.int_times_1_3 (count_words text) = Some (estimate_tokens text)) /\
  estimate_tokens [] = 0 /\ estimate_words_from_tokens 0 = 0.
Proof.
  intros Ht.
  split; [|split; [|split; [|split; [|split; reflexivity]]]].
  - rewrite estimate_tokens_floor.
    pose proof (Z.div_mod (count_words text * 13) 10 ltac:(lia)).
    pose proof (Z.mod_pos_bound (count_words text * 13) 10 ltac:(lia)).
    lia.
  - rewrite estimate_words_floor by lia.
    pose proof (Z.div_mod (tokens * 10) 13 ltac:(lia)).
    pose proof (Z.mod_pos_bound (tokens * 10) 13 ltac:(lia)).
    lia.
  - exact (estimate_words_from_tokens_binary64 tokens Ht).
  - exact (estimate_tokens_binary64 text).
Qed.

Lemma estimator_truncates_witness :
  0 <= 6500 < 2 ^ 50 /\
  count_words (lit "a b") < 2 ^ 49 /\
  estimate_tokens (lit "a b") = 2 /\
  Binary64Spec.int_times_1_3 (count_words (lit "a b")) = Some 2 /\
  estimate_words_from_tokens 6500 = 5000 /\
  Binary64Spec.int_over_1_3 6500 = Some 5000.
Proof.
  assert (Htokens : 0 <= 6500 < 2 ^ 50) by (split; [lia | reflexivity]).
  assert (Hwords : count_words (lit "a b") < 2 ^ 49) by reflexivity.
  destruct (estimator_truncates (lit "a b") 6500 Htokens)
    as (_ & _ & Hdiv & Hmul & _ & _).
  split; [exact Htokens|]. split; [exact Hwords|].
  split; [reflexivity|]. split; [exact (Hmul Hwords)|].
  split; [reflexivity | exact Hdiv].
Defined.

(** ** Strings: stripping and splitting *)

Lemma reverse_rev {A} (l : list A) : reverse l = rev l.
Proof. unfold reverse. symmetry. apply rev_alt. Qed.

Lemma dropwhile_all {A} (p : A -> bool) (l : list A) :
  forallb p l = true -> dropwhile p l = [].
Proof.
  induction l as [|x l IH]; simpl; [reflexivity|].
  intros H. apply andb_true_iff in H as [Hx Hl]. rewrite Hx. auto.
Qed.

Lemma dropwhile_stops {A} (p : A -> bool) (l : list A) :
  forallb p l = false -> exists x rest, dropwhile p l = x :: rest /\ p x = false.
Proof.
  induction l as [|x l IH]; simpl; [discriminate|].
  destruct (p x) eqn:Hx; simpl; intros H.
  - auto.
  - exists x, l. auto.
Qed.

Lemma dropwhile_app_stop {A} (p : A -> bool) (l : list A) (x : A) :
  p x = false -> dropwhile p (l ++ [x]) = dropwhile p l ++ [x].
Proof.
  intros Hx. induction l as [|y l IH]; simpl.
  - now rewrite Hx.
  - destruct (p y); auto.
Qed.

Lemma blank_reverse (s : str) : blank (reverse s) = blank s.
Proof.
  rewrite reverse_rev. unfold blank.
  destruct (forallb isspace s) eqn:E.
  - apply forallb_forall. intros c Hc. apply in_rev in Hc.
    rewrite forallb_forall in E. auto.
  - destruct (forallb isspace (rev s)) eqn:E'; [|reflexivity].
    rewrite <- E. symmetry. apply forallb_forall. intros c Hc.
    rewrite forallb_forall in E'. apply E'. now apply in_rev in Hc.
Qed.

Lemma strip_blank (s : str) : blank s = true -> strip s = [].
Proof.
  intros H. unfold strip, lstrip, rstrip.
  now rewrite (dropwhile_all _ _ H).
Qed.

Lemma strip_starts_with_text (s : str) :
  blank s = false -> starts_with_text (strip s) = true.
Proof.
  intros H. unfold strip, lstrip, rstrip.
  destruct (dropwhile_stops _ _ H) as (c & rest & -> & Hc).
  rewrite !reverse_rev. simpl rev.
  rewrite (dropwhile_app_stop _ _ _ Hc), rev_app_distr. simpl.
  now rewrite Hc.
Qed.

Lemma starts_with_text_not_blank (s : str) :
  starts_with_text s = true -> blank s = false.
Proof.
  destruct s as [|c s]; simpl; [discriminate|].
  intros H. apply negb_true_iff in H. now rewrite H.
Qed.

Lemma truthy_strip (s : str) : truthy (strip s) = negb (blank s).
Proof.
  destruct (blank s) eqn:E.
  - now rewrite (strip_blank _ E).
  - apply strip_starts_with_text in E. now destruct (strip s).
Qed.

Lemma re_split_from_blank (m : Re.matcher) (s : str) :
  forall skip piece, blank piece = true -> blank s = true ->
  Forall (fun p => blank p = true) (Re.split_from m skip piece s).
Proof.
  induction s as [|c s IH]; simpl; intros skip piece Hp Hs.
  - constructor; [now rewrite blank_reverse | constructor].
  - apply andb_true_iff in Hs as [Hc Hs].
    destruct skip as [|k]; [|now apply IH].
    destruct (m (c :: s)) as [|k].
    + apply IH; [simpl; now rewrite Hc | assumption].
    + constructor; [now rewrite blank_reverse | now apply IH].
Qed.

Lemma stripped_units_blank (pieces : list str) :
  Forall (fun p => blank p = true) pieces -> stripped_units pieces = [].
Proof.
  unfold stripped_units. induction 1 as [|p pieces Hp _ IH]; simpl; [reflexivity|].
  now rewrite truthy_strip, Hp.
Qed.

Lemma stripped_units_start (pieces : list str) :
  Forall (fun u => starts_with_text u = true) (stripped_units pieces).
Proof.
  unfold stripped_units. induction pieces as [|p pieces IH]; simpl; [constructor|].
  rewrite truthy_strip. destruct (blank p) eqn:E; simpl; [assumption|].
  constructor; [now apply strip_starts_with_text | assumption].
Qed.

Lemma semantic_units_blank (text : str) :
  blank text = true -> semantic_units text = [].
Proof.
  intros H. unfold semantic_units.
  rewrite !stripped_units_blank by (now apply re_split_from_blank).
  now destruct (_ && _).
Qed.

Lemma semantic_units_start (text : str) :
  Forall (fun u => starts_with_text u = true) (semantic_units text).
Proof.
  unfold semantic_units. destruct (_ && _); apply stripped_units_start.
Qed.

(** ** The packing loop *)

Lemma pack_is_joined_groups (paragraphs : list str) :
  forall groups current_chunk current_tokens,
  pack paragraphs (List.map (join paragraph_separator) groups) current_chunk current_tokens
  = List.map (join paragraph_separator)
             (pack_groups paragraphs groups current_chunk current_tokens).
Proof.
  induction paragraphs as [|p ps IH]; simpl; intros groups cur t.
  - destruct (truthy cur); [now rewrite map_app | reflexivity].
  - destruct (_ && _).
    + rewrite <- IH. now rewrite map_app.
    + apply IH.
Qed.

Lemma chunks_are_joined_groups (text : str) :
  _create_intelligent_chunks text
  = List.map (join paragraph_separator) (chunk_groups text).
Proof. apply (pack_is_joined_groups _ []). Qed.

Lemma pack_groups_concat (paragraphs : list str) :
  forall groups current_chunk current_tokens,
  List.concat (pack_groups paragraphs groups current_chunk current_tokens)
  = List.concat groups ++ current_chunk ++ paragraphs.
Proof.
  induction paragraphs as [|p ps IH]; simpl; intros groups cur t.
  - destruct cur; simpl.
    + now rewrite app_nil_r.
    + rewrite concat_app. simpl. now rewrite !app_nil_r.
  - destruct (_ && _); rewrite IH.
    + rewrite concat_app. simpl. now rewrite app_nil_r, <- app_assoc.
    + now rewrite <- app_assoc.
Qed.

Lemma pack_groups_nonempty (paragraphs : list str) :
  forall groups current_chunk current_tokens,
  Forall (fun g => g <> []) groups ->
  Forall (fun g => g <> []) (pack_groups paragraphs groups current_chunk current_tokens).
Proof.
  induction paragraphs as [|p ps IH]; simpl; intros groups cur t Hg.
  - destruct cur; simpl; [assumption|].
    apply Forall_app. split; [assumption|]. now repeat constructor.
  - destruct (t + estimate_tokens p >? max_chunk_tokens); simpl.
    + destruct cur as [|u cur]; simpl.
      * apply IH. assumption.
      * apply IH. apply Forall_app. split; [assumption|]. now repeat constructor.
    + apply IH. assumption.
Qed.

Lemma units_tokens_app (a b : list str) :
  units_tokens (a ++ b) = units_tokens a + units_tokens b.
Proof. unfold units_tokens. induction a as [|u a IH]; simpl; lia. Qed.

Lemma units_tokens_nonneg (g : list str) : 0 <= units_tokens g.
Proof.
  unfold units_tokens. induction g as [|u g IH]; simpl; [lia|].
  pose proof (estimate_tokens_nonneg u). lia.
Qed.

Lemma pack_groups_ceiling (paragraphs : list str) :
  forall groups current_chunk current_tokens,
  current_tokens = units_tokens current_chunk ->
  group_within_ceiling current_chunk ->
  Forall group_within_ceiling groups ->
  Forall group_within_ceiling (pack_groups paragraphs groups current_chunk current_tokens).
Proof.
  induction paragraphs as [|p ps IH]; simpl; intros groups cur t Ht Hcur Hg.
  - destruct (truthy cur); [|assumption].
    apply Forall_app. split; [assumption|]. constructor; [exact Hcur | constructor].
  - pose proof (estimate_tokens_nonneg p) as Hp.
    pose proof (units_tokens_nonneg cur) as Hc.
    assert (Hone : units_tokens [p] = estimate_tokens p) by (unfold units_tokens; simpl; lia).
    destruct (Z.gtb_spec (t + estimate_tokens p) max_chunk_tokens) as [Hover|Hfits]; simpl.
    + destruct cur as [|u cur]; simpl.
      * assert (t = 0) as -> by (now rewrite Ht).
        apply IH; [rewrite Hone; lia | | assumption].
        right. exists p. split; [reflexivity | lia].
      * apply IH; [now rewrite Hone | | ].
        -- destruct (Z_le_gt_dec (estimate_tokens p) max_chunk_tokens) as [Hle|Hgt].
           ++ left. now rewrite Hone.
           ++ right. now exists p.
        -- apply Forall_app. split; [assumption|]. constructor; [exact Hcur | constructor].
    + apply IH; [rewrite units_tokens_app, Hone; lia | | assumption].
      left. rewrite units_tokens_app, Hone. lia.
Qed.

Lemma join_starts_with_text (sep : str) (g : list str) :
  g <> [] -> Forall (fun u => starts_with_text u = true) g ->
  starts_with_text (join sep g) = true.
Proof.
  destruct g as [|u g]; [congruence|].
  intros _ H. inversion H as [|? ? Hu _]; subst.
  destruct u as [|c u]; [discriminate|].
  destruct g; exact Hu.
Qed.

Lemma chunk_groups_concat (text : str) :
  List.concat (chunk_groups text) = semantic_units text.
Proof. unfold chunk_groups. now rewrite pack_groups_concat. Qed.

Lemma chunk_groups_nonempty (text : str) :
  Forall (fun g => g <> []) (chunk_groups text).
Proof. apply pack_groups_nonempty. constructor. Qed.

Lemma chunks_start_with_text (text : str) :
  Forall (fun c => starts_with_text c = true) (_create_intelligent_chunks text).
Proof.
  rewrite chunks_are_joined_groups. apply Forall_map.
  pose proof (chunk_groups_nonempty text) as Hne.
  pose proof (semantic_units_start text) as Hst.
  rewrite <- chunk_groups_concat in Hst.
  induction (chunk_groups text) as [|g gs IH]; [constructor|].
  inversion Hne; subst. simpl in Hst. apply Forall_app in Hst as [Hg Hgs].
  constructor; [now apply join_starts_with_text | now apply IH].
Qed.

(** ** The chunk planner *)

Lemma blank_text_has_no_chunk (text : str) :
  blank text = true -> _create_intelligent_chunks text = [].
Proof.
  intros H. unfold _create_intelligent_chunks.
  now rewrite (semantic_units_blank _ H).
Qed.

(** C10: on a text with no non-whitespace character (the empty text
    included) the planner returns no chunk, and on every text no chunk it
    returns is empty or whitespace-only.  The planner is a total function
    of the text, so it raises on no string. *)
Theorem chunks_are_never_blank (text : str) :
  (blank text = true -> _create_intelligent_chunks text = []) /\
  Forall (fun chunk => blank chunk = false) (_create_intelligent_chunks text).
Proof.
  split.
  - apply blank_text_has_no_chunk.
  - eapply Forall_impl; [|apply chunks_start_with_text].
    intros chunk. apply starts_with_text_not_blank.
Qed.

Lemma chunks_are_never_blank_witness :
  blank (lit "   ") = true /\ _create_intelligent_chunks (lit "   ") = [].
Proof.
  split.
  - reflexivity.
  - apply (chunks_are_never_blank (lit "   ")). reflexivity.
Defined.

(** C4, as stated, fails on one paragraph of four sentences: all three
    chunks are estimated at 8001 tokens, above the ceiling.  Two of them are
    single oversized sentences; the first packs two sentences whose
    estimates total exactly 8000. *)
Lemma three_chunks_over_the_ceiling :
  List.map estimate_tokens (_create_intelligent_chunks four_sentences) = [8001; 8001; 8001] /\
  List.map (fun g => len g) (chunk_groups four_sentences) = [2; 1; 1] /\
  List.map units_tokens (chunk_groups four_sentences) = [8000; 8001; 8001].
Proof. vm_compute. repeat split; reflexivity. Qed.

(** C4, amended: every chunk is non-empty; each chunk is the join of a
    non-empty group of consecutive semantic units, and the groups
    concatenated are the semantic units in their order; for each chunk the
    sum of its units' token estimates (the running total of the loop) is at
    most 8000, unless the chunk is a single unit whose estimate exceeds
    8000.  Any number of chunks may be such oversized units. *)
Theorem planner_invariants (text : str) :
  _create_intelligent_chunks text
    = List.map (join paragraph_separator) (chunk_groups text) /\
  List.concat (chunk_groups text) = semantic_units text /\
  Forall (fun g => g <> []) (chunk_groups text) /\
  Forall (fun chunk => chunk <> []) (_create_intelligent_chunks text) /\
  Forall group_within_ceiling (chunk_groups text).
Proof.
  split; [apply chunks_are_joined_groups|].
  split; [apply chunk_groups_concat|].
  split; [apply chunk_groups_nonempty|].
  split.
  - eapply Forall_impl; [|apply chunks_start_with_text].
    intros chunk H ->. discriminate.
  - apply pack_groups_ceiling.
    + reflexivity.
    + left. unfold units_tokens, max_chunk_tokens. simpl. lia.
    + constructor.
Qed.

Lemma pack_fits (paragraphs : list str) :
  forall chunks current_chunk current_tokens,
  current_tokens = units_tokens current_chunk ->
  current_tokens + units_tokens paragraphs <= max_chunk_tokens ->
  current_chunk ++ paragraphs <> [] ->
  pack paragraphs chunks current_chunk current_tokens
  = chunks ++ [join paragraph_separator (current_chunk ++ paragraphs)].
Proof.
  induction paragraphs as [|p ps IH]; intros chunks cur t Ht Hfit Hne.
  - rewrite app_nil_r in *. destruct cur; [congruence | reflexivity].
  - pose proof (estimate_tokens_nonneg p) as Hp.
    pose proof (units_tokens_nonneg ps) as Hps.
    change (units_tokens (p :: ps)) with (estimate_tokens p + units_tokens ps) in Hfit.
    simpl pack.
    destruct (Z.gtb_spec (t + estimate_tokens p) max_chunk_tokens) as [Hover|_]; [lia|].
    simpl. rewrite IH.
    + now rewrite <- app_assoc.
    + rewrite units_tokens_app. unfold units_tokens at 2. simpl. lia.
    + lia.
    + now destruct cur.
Qed.

(** C3, as stated, fails on one paragraph of two long sentences: the text
    has no blank line, and the planner returns two chunks. *)
Lemma one_paragraph_two_chunks :
  len (Re.split Re.blank_line two_long_sentences) = 1 /\
  len (_create_intelligent_chunks two_long_sentences) = 2.
Proof. vm_compute. split; reflexivity. Qed.

(** C3, amended: a document that is one paragraph (it has no blank line
    and is not blank) of at most 500 characters yields exactly one chunk,
    the stripped paragraph.  A longer one is split into sentences instead.
    It then yields exactly one chunk, the join of its sentences, in two
    cases and in no other: when it is a single sentence, whatever its size,
    or when it has a sentence and the sentences' estimates total at most
    8000. *)
Theorem one_paragraph_chunks (text : str) :
  Re.split Re.blank_line text = [text] ->
  blank text = false ->
  (len text <= 500 -> _create_intelligent_chunks text = [strip text]) /\
  (len text > 500 ->
   let sentences := stripped_units (Re.split Re.sentence_end text) in
   (((exists u, sentences = [u])
     \/ (sentences <> [] /\ units_tokens sentences <= max_chunk_tokens)) ->
    _create_intelligent_chunks text = [join paragraph_separator sentences]) /\
   (len (_create_intelligent_chunks text) = 1 ->
    (exists u, sentences = [u])
    \/ (sentences <> [] /\ units_tokens sentences <= max_chunk_tokens))).
Proof.
  intros Hone Hblank.
  assert (Hpar : stripped_units (Re.split Re.blank_line text) = [strip text]).
  { rewrite Hone. unfold stripped_units. simpl.
    now rewrite truthy_strip, Hblank. }
  split; intros Hlen.
  - unfold _create_intelligent_chunks, semantic_units. rewrite Hpar.
    change (len [strip text] <=? 2) with true. rewrite andb_true_l.
    destruct (Z.gtb_spec (len text) 500) as [Hgt|_]; [lia|].
    simpl. now rewrite andb_false_r.
  - intros sentences.
    assert (Hsem : semantic_units text = sentences).
    { unfold semantic_units. rewrite Hpar.
      change (len [strip text] <=? 2) with true. rewrite andb_true_l.
      destruct (Z.gtb_spec (len text) 500) as [_|Hle]; [reflexivity | lia]. }
    split.
    + unfold _create_intelligent_chunks. rewrite Hsem.
      intros [[u Hu]|[Hne Hfit]].
      * rewrite Hu. simpl. now rewrite andb_false_r.
      * now rewrite (pack_fits _ [] [] 0).
    + intros Hcount.
      pose proof (chunk_groups_concat text) as Hconcat.
      pose proof (chunk_groups_nonempty text) as Hnonempty.
      assert (Hceiling : Forall group_within_ceiling (chunk_groups text)).
      { apply pack_groups_ceiling; [reflexivity | | constructor].
        left. unfold units_tokens, max_chunk_tokens. simpl. lia. }
      rewrite chunks_are_joined_groups in Hcount.
      unfold len in Hcount. rewrite length_map in Hcount.
      destruct (chunk_groups text) as [|g [|g' gs]]; simpl in Hcount; try lia.
      simpl in Hconcat. rewrite app_nil_r, Hsem in Hconcat. subst g.
      inversion Hnonempty as [|? ? Hne _]; subst.
      inversion Hceiling as [|? ? Hg _]; subst.
      destruct Hg as [Hfit|(u & Hu & _)].
      * right. split; assumption.
      * left. exists u. exact Hu.
Qed.

Lemma one_paragraph_chunks_witness :
  (Re.split Re.blank_line (lit " One paragraph. Two sentences. ")
   = [lit " One paragraph. Two sentences. "] /\
   blank (lit " One paragraph. Two sentences. ") = false /\
   len (lit " One paragraph. Two sentences. ") <= 500 /\
   _create_intelligent_chunks (lit " One paragraph. Two sentences. ")
   = [lit "One paragraph. Two sentences."]) /\
  (Re.split Re.blank_line (sentence 6155) = [sentence 6155] /\
   blank (sentence 6155) = false /\
   len (sentence 6155) > 500 /\
   stripped_units (Re.split Re.sentence_end (sentence 6155)) = [strip (words 6155)] /\
   _create_intelligent_chunks (sentence 6155) = [strip (words 6155)] /\
   estimate_tokens (strip (words 6155)) = 8001).
Proof.
  split.
  - split; [reflexivity|]. split; [reflexivity|]. split; [vm_compute; discriminate|].
    apply (one_paragraph_chunks (lit " One paragraph. Two sentences. "));
      [reflexivity | reflexivity | vm_compute; discriminate].
  - assert (Hone : Re.split Re.blank_line (sentence 6155) = [sentence 6155])
      by (vm_compute; reflexivity).
    assert (Hblank : blank (sentence 6155) = false) by (vm_compute; reflexivity).
    assert (Hlen : len (sentence 6155) > 500) by (vm_compute; reflexivity).
    assert (Hunit : stripped_units (Re.split Re.sentence_end (sentence 6155))
                    = [strip (words 6155)]) by (vm_compute; reflexivity).
    split; [exact Hone|]. split; [exact Hblank|].
    split; [exact Hlen|]. split; [exact Hunit|]. split; [|vm_compute; reflexivity].
    destruct (one_paragraph_chunks (sentence 6155) Hone Hblank) as [_ Hlong].
    destruct (Hlong Hlen) as [Hthen _].
    rewrite Hthen; [rewrite Hunit; reflexivity|].
    left. exists (strip (words 6155)). exact Hunit.
Defined.

(** ** The worker: what one run emits *)

Section WorkerFacts.

Variable client : service.

Lemma bind_return {A B} (m : M A) (f : A -> M B) (n : nat) (a : A) (ev : list event) (n' : nat) :
  m n = Step (Return a) ev n' ->
  bind m f n = Step (result (f a n')) (ev ++ emitted (f a n')) (calls (f a n')).
Proof. intros H. unfold bind. now rewrite H. Qed.

Lemma process_chunk_step (chunk d p : str) (k : nat) :
  _process_chunk client chunk d p k
  = Step (Return (chunk_summary client d p k chunk))
         [ClientRun (process_chunk_input chunk d p)] (S k).
Proof.
  unfold _process_chunk, try_except, client_run, chunk_summary.
  destruct (client k _); reflexivity.
Qed.

Lemma synthesize_step (summaries : list str) (target : Z) (d p : str) (k : nat) :
  _synthesize_final_summary client summaries target d p k
  = Step (Return (synthesis_result client d p k summaries target))
         [ClientRun (final_synthesis_input summaries target d p)] (S k).
Proof.
  unfold _synthesize_final_summary, try_except, client_run, synthesis_result.
  destruct (client k _); reflexivity.
Qed.

Lemma for_each_chunk_step (d p : str) (n : Z) (rest : list str) :
  forall i acc k,
  for_each_chunk client n i rest d p acc k
  = Step (Return (acc ++ summaries_from client d p k rest))
         (map_stage_events d p n i rest) (k + List.length rest).
Proof.
  induction rest as [|chunk rest IH]; intros i acc k; simpl.
  - unfold ret. now rewrite app_nil_r, Nat.add_0_r.
  - rewrite (bind_return _ _ _ _ _ _ (process_chunk_step chunk d p k)).
    unfold bind at 1. unfold emit at 1. simpl.
    rewrite IH. simpl. rewrite <- app_assoc. simpl.
    f_equal. lia.
Qed.

(** A run on a string with an accepted token: start, chunking, the map
    stage, then the single reduce call, 100 and the final summary. *)
Lemma run_on_text (self : ReplicateSummarizerWorker) (text : str) :
  token_rejected (api_token self) = false ->
  text_to_summarize self = Text text ->
  events_of_run client self
  = [Progress 10; Progress 20]
    ++ map_stage_events (detail_level_of (summary_level self))
         (prompt_instruction_of (summary_level self))
         (len (_create_intelligent_chunks text)) 0 (_create_intelligent_chunks text)
    ++ [Progress 80;
        ClientRun (final_synthesis_input
          (summaries_from client (detail_level_of (summary_level self))
             (prompt_instruction_of (summary_level self)) 0 (_create_intelligent_chunks text))
          (target_tokens_of (summary_level self))
          (detail_level_of (summary_level self))
          (prompt_instruction_of (summary_level self)));
        Progress 100;
        Finished (synthesis_result client (detail_level_of (summary_level self))
          (prompt_instruction_of (summary_level self))
          (List.length (_create_intelligent_chunks text))
          (summaries_from client (detail_level_of (summary_level self))
             (prompt_instruction_of (summary_level self)) 0 (_create_intelligent_chunks text))
          (target_tokens_of (summary_level self)))].
Proof.
  intros Htoken Htext.
  unfold events_of_run, run, detail_level_of, prompt_instruction_of, target_tokens_of.
  rewrite Htoken, Htext.
  destruct (level_parameters (summary_level self)) as [[target_words d] p].
  cbn [fst snd].
  unfold try_except, bind, emit, ret.
  cbn [result emitted calls].
  rewrite for_each_chunk_step. cbn [result emitted calls].
  rewrite synthesize_step. cbn [result emitted calls].
  reflexivity.
Qed.

Lemma run_on_rejected_token (self : ReplicateSummarizerWorker) :
  token_rejected (api_token self) = true ->
  events_of_run client self
  = [Error (lit "Error: Replicate API Token is not correctly set.")].
Proof. intros H. unfold events_of_run, run. now rewrite H. Qed.

Lemma run_on_non_text (self : ReplicateSummarizerWorker) (type_error : str) :
  token_rejected (api_token self) = false ->
  text_to_summarize self = NotText type_error ->
  events_of_run client self
  = [Progress 10; Error (lit "Summarization error: " ++ type_error)].
Proof.
  intros Htoken Htext. unfold events_of_run, run. rewrite Htoken, Htext.
  now destruct (level_parameters (summary_level self)) as [[target_words d] p].
Qed.

End WorkerFacts.

(** ** Events of the map stage *)

Section MapStage.

Variables d p : str.

Lemma map_stage_requests (n : Z) (chunks : list str) :
  forall i,
  requests_issued (map_stage_events d p n i chunks)
  = List.map (fun chunk => process_chunk_input chunk d p) chunks.
Proof. induction chunks as [|c cs IH]; intros i; simpl; [reflexivity | now rewrite IH]. Qed.

Lemma map_stage_no_error (n : Z) (chunks : list str) :
  forall i, error_messages (map_stage_events d p n i chunks) = [].
Proof. induction chunks as [|c cs IH]; intros i; simpl; auto. Qed.

Lemma map_stage_no_finished (n : Z) (chunks : list str) :
  forall i, finished_summaries (map_stage_events d p n i chunks) = [].
Proof. induction chunks as [|c cs IH]; intros i; simpl; auto. Qed.

Lemma map_stage_progress (n : Z) (chunks : list str) :
  0 < n ->
  forall i : nat,
  progress_values (map_stage_events d p n (Z.of_nat i) chunks)
  = List.map (mapping_progress n) (seq (S i) (List.length chunks)).
Proof.
  intros Hn. induction chunks as [|c cs IH]; intros i; [reflexivity|].
  cbn [map_stage_events progress_values flat_map app List.length seq List.map].
  replace (Z.of_nat i + 1) with (Z.of_nat (S i)) by lia.
  fold (progress_values (map_stage_events d p n (Z.of_nat (S i)) cs)).
  rewrite IH. unfold mapping_progress at 1.
  rewrite Z.quot_div_nonneg by lia. reflexivity.
Qed.

(** The map stage, chunk by chunk: the call for the chunk in position
    [i], then the progress value after [i] chunks. *)
Lemma map_stage_chunk_by_chunk (n : Z) (chunks : list str) :
  0 < n ->
  forall i : nat,
  map_stage_events d p n (Z.of_nat i) chunks
  = flat_map (fun ic => [ClientRun (process_chunk_input (snd ic) d p);
                         Progress (mapping_progress n (fst ic))])
      (combine (seq (S i) (List.length chunks)) chunks).
Proof.
  intros Hn. induction chunks as [|c cs IH]; intros i; [reflexivity|].
  cbn [map_stage_events List.length seq combine flat_map app fst snd].
  replace (Z.of_nat i + 1) with (Z.of_nat (S i)) by lia.
  rewrite IH. unfold mapping_progress at 1.
  rewrite Z.quot_div_nonneg by lia. reflexivity.
Qed.

End MapStage.



(** ** Progress values *)

Lemma mapping_progress_bounds (n : Z) (i : nat) :
  0 < n -> Z.of_nat i <= n -> 20 <= mapping_progress n i <= 80.
Proof.
  intros Hn Hi. unfold mapping_progress.
  assert (0 <= Z.of_nat i * 60 / n) by (apply Z.div_pos; lia).
  assert (Z.of_nat i * 60 / n <= 60) by (apply Z.div_le_upper_bound; lia).
  lia.
Qed.

Lemma mapping_progress_mono (n : Z) (i j : nat) :
  0 < n -> (i <= j)%nat -> mapping_progress n i <= mapping_progress n j.
Proof.
  intros Hn Hij. unfold mapping_progress.
  assert (Z.of_nat i * 60 / n <= Z.of_nat j * 60 / n) by (apply Z.div_le_mono; lia).
  lia.
Qed.

Lemma mapping_progress_sorted (n : Z) (count : nat) :
  0 < n ->
  forall lo, StronglySorted Z.le (List.map (mapping_progress n) (seq lo count)).
Proof.
  intros Hn. induction count as [|count IH]; intros lo; simpl; constructor.
  - apply IH.
  - apply Forall_map, Forall_forall. intros j Hj. apply in_seq in Hj.
    apply mapping_progress_mono; lia.
Qed.

Lemma strongly_sorted_app {A} (R : A -> A -> Prop) (l1 l2 : list A) :
  StronglySorted R l1 -> StronglySorted R l2 ->
  (forall x y, In x l1 -> In y l2 -> R x y) ->
  StronglySorted R (l1 ++ l2).
Proof.
  induction 1 as [|x l1 Hs IH Hx]; intros H2 Hcross; simpl; [assumption|].
  constructor.
  - apply IH; [assumption|]. intros a b Ha Hb. apply Hcross; [now right | assumption].
  - apply Forall_app. split; [assumption|].
    apply Forall_forall. intros y Hy. apply Hcross; [now left | assumption].
Qed.

Lemma successful_progress_sorted (n : nat) :
  StronglySorted Z.le (successful_progress n).
Proof.
  unfold successful_progress.
  destruct n as [|n].
  { simpl. repeat constructor; lia. }
  set (N := Z.of_nat (S n)).
  assert (HN : 0 < N) by (subst N; lia).
  assert (Hb : Forall (fun v => 20 <= v <= 80)
                 (List.map (mapping_progress N) (seq 1 (S n)))).
  { apply Forall_map, Forall_forall. intros j Hj. apply in_seq in Hj.
    apply mapping_progress_bounds; subst N; lia. }
  rewrite Forall_forall in Hb.
  assert (Hm : StronglySorted Z.le
                 (List.map (mapping_progress N) (seq 1 (S n)) ++ [80; 100])).
  { apply strongly_sorted_app.
    - now apply mapping_progress_sorted.
    - repeat constructor; lia.
    - intros x y Hx Hy. specialize (Hb x Hx).
      destruct Hy as [<-|[<-|[]]]; lia. }
  change ([10; 20] ++ ?l) with (10 :: 20 :: l).
  constructor; [constructor; [exact Hm|] |].
  - apply Forall_forall. intros y Hy. apply in_app_or in Hy as [Hy|Hy].
    + specialize (Hb y Hy). lia.
    + destruct Hy as [<-|[<-|[]]]; lia.
  - constructor; [lia|].
    apply Forall_forall. intros y Hy. apply in_app_or in Hy as [Hy|Hy].
    + specialize (Hb y Hy). lia.
    + destruct Hy as [<-|[<-|[]]]; lia.
Qed.

Lemma successful_progress_last (n : nat) : List.last (successful_progress n) 0 = 100.
Proof.
  unfold successful_progress. rewrite app_assoc.
  change [80; 100] with ([80] ++ [100]). rewrite app_assoc.
  apply last_last.
Qed.

Section RunFacts.

Variable client : service.
Variable self : ReplicateSummarizerWorker.

Let d := detail_level_of (summary_level self).
Let p := prompt_instruction_of (summary_level self).
Let target := target_tokens_of (summary_level self).

Lemma progress_on_text (text : str) :
  token_rejected (api_token self) = false ->
  text_to_summarize self = Text text ->
  progress_values (events_of_run client self)
  = successful_progress (List.length (_create_intelligent_chunks text)).
Proof.
  intros Htoken Htext. rewrite (run_on_text client self text Htoken Htext).
  unfold progress_values, successful_progress.
  rewrite !flat_map_app. cbn [flat_map app].
  fold (progress_values (map_stage_events
          (detail_level_of (summary_level self)) (prompt_instruction_of (summary_level self))
          (len (_create_intelligent_chunks text)) 0 (_create_intelligent_chunks text))).
  destruct (_create_intelligent_chunks text) as [|c cs] eqn:E; [reflexivity|].
  assert (Hn : 0 < len (c :: cs)) by (unfold len; cbn [List.length]; lia).
  rewrite (map_stage_progress _ _ _ (c :: cs) Hn 0%nat).
  reflexivity.
Qed.

Lemma errors_on_text (text : str) :
  token_rejected (api_token self) = false ->
  text_to_summarize self = Text text ->
  error_messages (events_of_run client self) = [].
Proof.
  intros Htoken Htext. rewrite (run_on_text client self text Htoken Htext).
  unfold error_messages. rewrite !flat_map_app. cbn [flat_map app].
  rewrite app_nil_r. apply map_stage_no_error.
Qed.

Lemma finished_on_text (text : str) :
  token_rejected (api_token self) = false ->
  text_to_summarize self = Text text ->
  finished_summaries (events_of_run client self)
  = [synthesis_result client d p (List.length (_create_intelligent_chunks text))
       (summaries_from client d p 0 (_create_intelligent_chunks text)) target].
Proof.
  intros Htoken Htext. rewrite (run_on_text client self text Htoken Htext).
  unfold finished_summaries. rewrite !flat_map_app. cbn [flat_map app].
  fold (finished_summaries (map_stage_events
          (detail_level_of (summary_level self)) (prompt_instruction_of (summary_level self))
          (len (_create_intelligent_chunks text)) 0 (_create_intelligent_chunks text))).
  now rewrite map_stage_no_finished.
Qed.

Lemma requests_on_text (text : str) :
  token_rejected (api_token self) = false ->
  text_to_summarize self = Text text ->
  requests_issued (events_of_run client self)
  = List.map (fun chunk => process_chunk_input chunk d p) (_create_intelligent_chunks text)
    ++ [final_synthesis_input (summaries_from client d p 0 (_create_intelligent_chunks text))
          target d p].
Proof.
  intros Htoken Htext. rewrite (run_on_text client self text Htoken Htext).
  unfold requests_issued. rewrite !flat_map_app. cbn [flat_map app].
  fold (requests_issued (map_stage_events
          (detail_level_of (summary_level self)) (prompt_instruction_of (summary_level self))
          (len (_create_intelligent_chunks text)) 0 (_create_intelligent_chunks text))).
  now rewrite map_stage_requests.
Qed.

End RunFacts.

Lemma in_error_messages (events : list event) (message : str) :
  In (Error message) events -> In message (error_messages events).
Proof.
  intros H. unfold error_messages. apply in_flat_map.
  exists (Error message). split; [assumption | now left].
Qed.

Lemma in_finished_summaries (events : list event) (summary : str) :
  In (Finished summary) events -> In summary (finished_summaries events).
Proof.
  intros H. unfold finished_summaries. apply in_flat_map.
  exists (Finished summary). split; [assumption | now left].
Qed.

(** ** The run *)

(** C5, as stated, fails: a run whose reduce call raises is a failed run
    of the specification, and it emits 100 after the failed call. *)
Lemma failed_reduce_call_emits_100 :
  requests_issued (events_of_run (fails_at 1) (worker_on (lit "One paragraph.") a_token))
  = [process_chunk_input (lit "One paragraph.")
       (detail_level_of (lit "medium")) (prompt_instruction_of (lit "medium"));
     final_synthesis_input [lit "A summary."] (target_tokens_of (lit "medium"))
       (detail_level_of (lit "medium")) (prompt_instruction_of (lit "medium"))] /\
  fails_at 1 1%nat
    (final_synthesis_input [lit "A summary."] (target_tokens_of (lit "medium"))
       (detail_level_of (lit "medium")) (prompt_instruction_of (lit "medium")))
  = Raises (lit "quota exceeded") /\
  In 100 (progress_values
            (events_of_run (fails_at 1) (worker_on (lit "One paragraph.") a_token))) /\
  List.last (events_of_run (fails_at 1) (worker_on (lit "One paragraph.") a_token))
            (Progress 0)
  = Finished (lit "Error in final synthesis: quota exceeded").
Proof.
  split; [vm_compute; reflexivity|].
  split; [vm_compute; reflexivity|].
  split; [|vm_compute; reflexivity].
  vm_compute. do 4 right. left. reflexivity.
Qed.

(** C5, amended: in every run the progress values are non-decreasing.  A
    run that delivers a summary was given a string and an accepted token,
    and its events are exactly: 10, then 20, then for each chunk [i] of [N],
    in order, the map-stage call for that chunk followed by
    [20 + floor(i / N * 60)], a value between 20 and 80, then 80, the
    reduce call, 100 and the summary.  Every run given a string and an
    accepted token delivers a summary, whatever its calls answer.  A run
    that reports an error never emits 100, and it issues no call and
    delivers no summary. *)
Theorem progress_is_monotone (client : service) (self : ReplicateSummarizerWorker) :
  let events := events_of_run client self in
  let d := detail_level_of (summary_level self) in
  let p := prompt_instruction_of (summary_level self) in
  Sorted Z.le (progress_values events) /\
  (forall summary, In (Finished summary) events ->
   exists text,
     text_to_summarize self = Text text /\
     token_rejected (api_token self) = false /\
     events
     = [Progress 10; Progress 20]
       ++ flat_map (fun ic =>
                      [ClientRun (process_chunk_input (snd ic) d p);
                       Progress (mapping_progress (len (_create_intelligent_chunks text))
                                   (fst ic))])
            (combine (seq 1 (List.length (_create_intelligent_chunks text)))
                     (_create_intelligent_chunks text))
       ++ [Progress 80;
           ClientRun (final_synthesis_input
                        (summaries_from client d p 0 (_create_intelligent_chunks text))
                        (target_tokens_of (summary_level self)) d p);
           Progress 100;
           Finished summary] /\
     progress_values events
     = [10; 20]
       ++ List.map (mapping_progress (len (_create_intelligent_chunks text)))
            (seq 1 (List.length (_create_intelligent_chunks text)))
       ++ [80; 100] /\
     Forall (fun v => 20 <= v <= 80)
       (List.map (mapping_progress (len (_create_intelligent_chunks text)))
          (seq 1 (List.length (_create_intelligent_chunks text)))) /\
     List.last (progress_values events) 0 = 100) /\
  (forall text,
   token_rejected (api_token self) = false ->
   text_to_summarize self = Text text ->
   In (Finished (synthesis_result client d p
                   (List.length (_create_intelligent_chunks text))
                   (summaries_from client d p 0 (_create_intelligent_chunks text))
                   (target_tokens_of (summary_level self))))
      events) /\
  (forall message, In (Error message) events ->
   ~ In 100 (progress_values events) /\
   requests_issued events = [] /\
   finished_summaries events = []).
Proof.
  intros events d p. subst events d p.
  destruct (token_rejected (api_token self)) eqn:Htoken.
  { rewrite (run_on_rejected_token client self Htoken). simpl.
    split; [constructor|]. split; [|split].
    - intros summary [H|[]]. discriminate.
    - intros text H. discriminate.
    - intros _ _. split; [intros []|]. split; reflexivity. }
  destruct (text_to_summarize self) as [text|type_error] eqn:Htext.
  - pose proof (progress_on_text client self text Htoken Htext) as Hp.
    pose proof (errors_on_text client self text Htoken Htext) as He.
    pose proof (finished_on_text client self text Htoken Htext) as Hf.
    pose proof (run_on_text client self text Htoken Htext) as Hrun.
    split; [|split; [|split]].
    + rewrite Hp. apply StronglySorted_Sorted, successful_progress_sorted.
    + intros summary Hin. exists text.
      apply in_finished_summaries in Hin. rewrite Hf in Hin.
      destruct Hin as [Hsummary|[]].
      split; [reflexivity|]. split; [reflexivity|]. split; [|split; [|split]].
      * rewrite Hrun, Hsummary. f_equal. f_equal.
        destruct (_create_intelligent_chunks text) as [|c cs]; [reflexivity|].
        apply (map_stage_chunk_by_chunk _ _ _ (c :: cs)) with (i := 0%nat).
        unfold len. cbn [List.length]. lia.
      * exact Hp.
      * apply Forall_map, Forall_forall. intros i Hi. apply in_seq in Hi.
        apply mapping_progress_bounds; unfold len; lia.
      * rewrite Hp. apply successful_progress_last.
    + intros text' _ Heq. injection Heq as <-.
      rewrite Hrun. apply in_or_app. right. apply in_or_app. right.
      right. right. right. left. reflexivity.
    + intros message H. apply in_error_messages in H. rewrite He in H. destruct H.
  - rewrite (run_on_non_text client self type_error Htoken Htext). simpl.
    split; [repeat constructor|]. split; [|split].
    + intros summary [H|[H|[]]]; discriminate.
    + intros text _ H. discriminate.
    + intros _ _. split; [|split; reflexivity].
      intros [H|[]]. discriminate.
Qed.

Lemma progress_is_monotone_witness :
  In (Finished (lit "A summary."))
     (events_of_run always_answers (worker_on (lit "One paragraph.") a_token)) /\
  events_of_run always_answers (worker_on (lit "One paragraph.") a_token)
  = [Progress 10; Progress 20;
     ClientRun (process_chunk_input (lit "One paragraph.")
                  (detail_level_of (lit "medium")) (prompt_instruction_of (lit "medium")));
     Progress 80; Progress 80;
     ClientRun (final_synthesis_input [lit "A summary."] (target_tokens_of (lit "medium"))
                  (detail_level_of (lit "medium")) (prompt_instruction_of (lit "medium")));
     Progress 100; Finished (lit "A summary.")] /\
  List.last (progress_values
               (events_of_run always_answers (worker_on (lit "One paragraph.") a_token))) 0
  = 100.
Proof.
  assert (H : In (Finished (lit "A summary."))
                (events_of_run always_answers (worker_on (lit "One paragraph.") a_token))).
  { vm_compute. do 7 right. now left. }
  split; [exact H|].
  destruct (progress_is_monotone always_answers (worker_on (lit "One paragraph.") a_token))
    as (_ & Hok & _).
  destruct (Hok _ H) as (text & Htext & _ & Hevents & _ & _ & Hlast).
  split; [|exact Hlast].
  injection Htext as <-. rewrite Hevents. vm_compute. reflexivity.
Defined.



(** C1, as stated, fails: when the reduce call raises, the run still emits
    100 and delivers a final summary, the error marker, and reports no
    error. *)
Lemma reduce_failure_reaches_done :
  progress_values (events_of_run (fails_at 1) (worker_on (lit "One paragraph.") a_token))
  = [10; 20; 80; 80; 100] /\
  finished_summaries (events_of_run (fails_at 1) (worker_on (lit "One paragraph.") a_token))
  = [lit "Error in final synthesis: quota exceeded"] /\
  error_messages (events_of_run (fails_at 1) (worker_on (lit "One paragraph.") a_token))
  = [].
Proof. vm_compute. repeat split; reflexivity. Qed.

(** C1, amended: when the reduce call raises, [_synthesize_final_summary]
    catches the exception and returns ["Error in final synthesis: <cause>"];
    the run emits 100 and delivers that text as the final summary, whatever
    the map stage produced, and reports no error. *)
Theorem reduce_failure_is_delivered_as_summary
    (client : service) (self : ReplicateSummarizerWorker) (text message : str) :
  token_rejected (api_token self) = false ->
  text_to_summarize self = Text text ->
  let d := detail_level_of (summary_level self) in
  let p := prompt_instruction_of (summary_level self) in
  let chunks := _create_intelligent_chunks text in
  client (List.length chunks)
    (final_synthesis_input (summaries_from client d p 0 chunks)
       (target_tokens_of (summary_level self)) d p)
  = Raises message ->
  let events := events_of_run client self in
  finished_summaries events = [lit "Error in final synthesis: " ++ message] /\
  error_messages events = [] /\
  List.last (progress_values events) 0 = 100.
Proof.
  intros Htoken Htext d p chunks Hcall events. subst events.
  rewrite (finished_on_text client self text Htoken Htext).
  rewrite (errors_on_text client self text Htoken Htext).
  rewrite (progress_on_text client self text Htoken Htext).
  unfold synthesis_result. fold d p chunks. rewrite Hcall.
  split; [reflexivity|]. split; [reflexivity|]. apply successful_progress_last.
Qed.

Lemma reduce_failure_is_delivered_as_summary_witness :
  token_rejected (api_token (worker_on (lit "One paragraph.") a_token)) = false /\
  finished_summaries
    (events_of_run (fails_at 1) (worker_on (lit "One paragraph.") a_token))
  = [lit "Error in final synthesis: " ++ lit "quota exceeded"].
Proof.
  split; [reflexivity|].
  apply (reduce_failure_is_delivered_as_summary (fails_at 1)
           (worker_on (lit "One paragraph.") a_token) (lit "One paragraph.")
           (lit "quota exceeded") eq_refl eq_refl eq_refl).
Defined.

(** The tokens the worker does reject: a missing one, the empty string and
    the hard-coded sentinel.  Such a run reports the configuration error
    and nothing else: no progress value, no completion call. *)
Lemma rejected_tokens :
  token_rejected None = true /\
  token_rejected (Some []) = true /\
  token_rejected (Some (lit "YOUR_HARDCODED_REPLICATE_API_TOKEN_HERE")) = true.
Proof. repeat split; reflexivity. Qed.

Lemma rejected_token_run (client : service) (self : ReplicateSummarizerWorker) :
  token_rejected (api_token self) = true ->
  progress_values (events_of_run client self) = [] /\
  requests_issued (events_of_run client self) = [] /\
  finished_summaries (events_of_run client self) = [] /\
  error_messages (events_of_run client self)
  = [lit "Error: Replicate API Token is not correctly set."].
Proof.
  intros H. rewrite (run_on_rejected_token client self H). repeat split; reflexivity.
Qed.

(** C6 on the code: the placeholder that [config.py] supplies when the
    environment variable is unset is not the sentinel [run] compares with.
    A worker given that placeholder passes the check: on every text, at
    every level and with every service it emits 10 first, reports no error,
    issues one completion call per chunk and the reduce call, and delivers a
    summary. *)
Theorem default_placeholder_is_accepted (client : service) (text level : str) :
  let self := {| text_to_summarize := Text text;
                 summary_level := level;
                 api_token := Some (REPLICATE_API_TOKEN None) |} in
  let events := events_of_run client self in
  token_rejected (api_token self) = false /\
  hd_error events = Some (Progress 10) /\
  error_messages events = [] /\
  List.length (requests_issued events)
  = S (List.length (_create_intelligent_chunks text)) /\
  List.length (finished_summaries events) = 1%nat.
Proof.
  intros self events.
  assert (Htoken : token_rejected (api_token self) = false) by reflexivity.
  assert (Htext : text_to_summarize self = Text text) by reflexivity.
  split; [exact Htoken|].
  split; [subst events; now rewrite (run_on_text client self text Htoken Htext)|].
  split; [now apply (errors_on_text client self text)|].
  split.
  - subst events. rewrite (requests_on_text client self text Htoken Htext).
    rewrite length_app, length_map. simpl. lia.
  - subst events. now rewrite (finished_on_text client self text Htoken Htext).
Qed.

(** C9, as stated, fails on the empty text: the run issues a completion
    call, reaches 100 and delivers a summary, without reporting an error. *)
Lemma empty_text_is_summarized :
  progress_values (events_of_run always_answers (worker_on [] a_token))
  = [10; 20; 80; 100] /\
  len (requests_issued (events_of_run always_answers (worker_on [] a_token))) = 1 /\
  finished_summaries (events_of_run always_answers (worker_on [] a_token))
  = [lit "A summary."] /\
  error_messages (events_of_run always_answers (worker_on [] a_token)) = [].
Proof. vm_compute. repeat split; reflexivity. Qed.

(** C9, amended: when an empty or whitespace-only text reaches [run] with
    an accepted token, the planner returns no chunk and no map-stage call
    is issued; the run emits 10, 20 and 80, issues the reduce call over no
    summaries, emits 100 and delivers what that call gives as the final
    summary.  It reports no input error. *)
Theorem blank_text_goes_to_the_reduce_stage
    (client : service) (self : ReplicateSummarizerWorker) (text : str) :
  token_rejected (api_token self) = false ->
  text_to_summarize self = Text text ->
  blank text = true ->
  let d := detail_level_of (summary_level self) in
  let p := prompt_instruction_of (summary_level self) in
  let target := target_tokens_of (summary_level self) in
  events_of_run client self
  = [Progress 10; Progress 20; Progress 80;
     ClientRun (final_synthesis_input [] target d p);
     Progress 100;
     Finished (synthesis_result client d p 0 [] target)].
Proof.
  intros Htoken Htext Hblank d p target.
  rewrite (run_on_text client self text Htoken Htext).
  rewrite (blank_text_has_no_chunk text Hblank). reflexivity.
Qed.

Lemma blank_text_goes_to_the_reduce_stage_witness :
  blank (lit "   ") = true /\
  finished_summaries (events_of_run always_answers (worker_on (lit "   ") a_token))
  = [lit "A summary."].
Proof.
  split; [reflexivity|].
  rewrite (blank_text_goes_to_the_reduce_stage always_answers
             (worker_on (lit "   ") a_token) (lit "   ") eq_refl eq_refl eq_refl).
  reflexivity.
Defined.

(** The end-to-end scenario of the specification: three paragraphs of
    3000 tokens each are packed into two chunks, of two and one paragraph;
    the run issues two map-stage calls and the reduce call, and the progress
    values are 10, 20, 50, 80, 80, 100. *)
Example three_paragraphs_scenario :
  List.map units_tokens (chunk_groups three_paragraphs) = [6000; 3000] /\
  progress_values (events_of_run always_answers (worker_on three_paragraphs a_token))
  = [10; 20; 50; 80; 80; 100] /\
  List.map max_completion_tokens
    (requests_issued (events_of_run always_answers (worker_on three_paragraphs a_token)))
  = [3000; 1500; 3250] /\
  finished_summaries (events_of_run always_answers (worker_on three_paragraphs a_token))
  = [lit "A summary."].
Proof. vm_compute. repeat split; reflexivity. Qed.

(** * Further properties of the code *)

(** ** Words: [str.split], [strip] and [join] *)

Lemma split_from_app_space (a : str) :
  forall word c rest, isspace c = true ->
  Py.split_from word (a ++ c :: rest) = Py.split_from word a ++ Py.split_from [] rest.
Proof.
  induction a as [|x a IH]; intros word c rest Hc; simpl.
  - rewrite Hc. now destruct (truthy word).
  - destruct (isspace x).
    + destruct (truthy word); simpl; now rewrite IH.
    + now apply IH.
Qed.

Lemma split_join (units : list str) :
  Py.split (join paragraph_separator units) = List.concat (List.map Py.split units).
Proof.
  induction units as [|u units IH]; [reflexivity|].
  destruct units as [|v units].
  - simpl. now rewrite app_nil_r.
  - change (join paragraph_separator (u :: v :: units))
      with (u ++ Re.newline :: Re.newline :: join paragraph_separator (v :: units)).
    unfold Py.split in *. rewrite split_from_app_space by reflexivity.
    change (Py.split_from [] (Re.newline :: ?s)) with (Py.split_from [] s).
    now rewrite IH.
Qed.

Lemma split_from_nil_iff (s : str) :
  forall word, Py.split_from word s = [] <-> word = [] /\ blank s = true.
Proof.
  induction s as [|c s IH]; intros word; simpl.
  - destruct word; simpl; intuition discriminate.
  - destruct (isspace c); simpl.
    + destruct word as [|x word]; simpl.
      * rewrite IH. intuition.
      * intuition discriminate.
    + rewrite IH. intuition discriminate.
Qed.

Lemma split_from_blank_tail (a : str) :
  forall word tail, blank tail = true ->
  Py.split_from word (a ++ tail) = Py.split_from word a.
Proof.
  induction a as [|x a IH]; intros word tail Ht.
  - simpl app. destruct tail as [|c tail]; [reflexivity|].
    simpl in Ht. apply andb_true_iff in Ht as [Hc Ht].
    simpl. rewrite Hc.
    assert (E : Py.split_from [] tail = []) by (apply split_from_nil_iff; auto).
    rewrite E. reflexivity.
  - simpl. destruct (isspace x); [destruct (truthy word)|]; now rewrite IH.
Qed.

Lemma split_dropwhile (s : str) :
  Py.split_from [] (dropwhile isspace s) = Py.split_from [] s.
Proof.
  induction s as [|c s IH]; [reflexivity|].
  simpl. destruct (isspace c) eqn:Hc; [exact IH|].
  simpl. now rewrite Hc.
Qed.

Lemma takewhile_dropwhile {A} (p : A -> bool) (l : list A) :
  takewhile p l ++ dropwhile p l = l.
Proof.
  induction l as [|x l IH]; [reflexivity|].
  simpl. destruct (p x); [simpl; now rewrite IH | reflexivity].
Qed.

Lemma takewhile_all {A} (p : A -> bool) (l : list A) : forallb p (takewhile p l) = true.
Proof.
  induction l as [|x l IH]; [reflexivity|].
  simpl. destruct (p x) eqn:Hx; [simpl; now rewrite Hx | reflexivity].
Qed.

(** A string is its [rstrip] followed by whitespace. *)
Lemma rstrip_tail (s : str) :
  exists tail, blank tail = true /\ s = rstrip s ++ tail.
Proof.
  exists (reverse (takewhile isspace (reverse s))). split.
  - rewrite blank_reverse. apply takewhile_all.
  - unfold rstrip. rewrite !reverse_rev, <- rev_app_distr, takewhile_dropwhile.
    now rewrite rev_involutive.
Qed.

Lemma split_strip (s : str) : Py.split (strip s) = Py.split s.
Proof.
  unfold Py.split, strip.
  destruct (rstrip_tail (lstrip s)) as (tail & Ht & E).
  rewrite <- (split_from_blank_tail (rstrip (lstrip s)) [] tail Ht), <- E.
  apply split_dropwhile.
Qed.

(** X1: the words of the chunks, read in chunk order, are the words of the
    semantic units: joining units into chunks loses, merges and reorders no
    word. *)
Theorem chunks_keep_the_words (text : str) :
  List.concat (List.map Py.split (_create_intelligent_chunks text))
  = List.concat (List.map Py.split (semantic_units text)).
Proof.
  rewrite chunks_are_joined_groups, <- chunk_groups_concat.
  induction (chunk_groups text) as [|g gs IH]; [reflexivity|].
  simpl. rewrite split_join, IH, map_app, concat_app. reflexivity.
Qed.

Lemma count_words_join (units : list str) :
  count_words (join paragraph_separator units)
  = fold_right (fun u acc => count_words u + acc) 0 units.
Proof.
  unfold count_words. rewrite split_join.
  induction units as [|u units IH]; [reflexivity|].
  simpl. unfold len in *. rewrite length_app, Nat2Z.inj_add, IH. reflexivity.
Qed.

Lemma units_tokens_bounds (units : list str) :
  10 * units_tokens units
    <= 13 * fold_right (fun u acc => count_words u + acc) 0 units
    <= 10 * units_tokens units + 9 * len units.
Proof.
  unfold units_tokens, len. induction units as [|u units IH].
  - simpl. lia.
  - cbn [fold_right List.length]. rewrite Nat2Z.inj_succ.
    rewrite estimate_tokens_floor.
    pose proof (Z.div_mod (count_words u * 13) 10 ltac:(lia)).
    pose proof (Z.mod_pos_bound (count_words u * 13) 10 ltac:(lia)).
    lia.
Qed.

(** X2: the estimate [_process_chunk] computes for a chunk is at least the
    running total under which the planner closed it, and exceeds it by
    less than the number of units joined in the chunk. *)
Theorem chunk_estimate_against_running_total (text : str) :
  Forall (fun g =>
            units_tokens g <= estimate_tokens (join paragraph_separator g)
              < units_tokens g + len g)
         (chunk_groups text).
Proof.
  eapply Forall_impl; [|apply chunk_groups_nonempty].
  intros g Hg. cbv beta in *.
  rewrite estimate_tokens_floor, count_words_join.
  pose proof (units_tokens_bounds g) as Hb.
  set (W := fold_right (fun u acc => count_words u + acc) 0 g) in *.
  pose proof (Z.div_mod (W * 13) 10 ltac:(lia)).
  pose proof (Z.mod_pos_bound (W * 13) 10 ltac:(lia)).
  assert (0 < len g) by (destruct g; [congruence | unfold len; simpl; lia]).
  lia.
Qed.

Lemma count_words_zero_iff_blank (text : str) :
  count_words text = 0 <-> blank text = true.
Proof.
  unfold count_words, len, Py.split.
  destruct (Py.split_from [] text) eqn:E.
  - apply split_from_nil_iff in E as [_ E]. simpl. tauto.
  - split; [simpl; lia|]. intros H.
    assert (E' : Py.split_from [] text = []) by (apply split_from_nil_iff; auto).
    congruence.
Qed.

(** X3: a text is estimated at 0 tokens exactly when it has no word, that
    is when it is blank; and the token estimate is never below the word
    count. *)
Theorem zero_tokens_iff_blank (text : str) :
  (estimate_tokens text = 0 <-> blank text = true) /\
  (count_words text = 0 <-> blank text = true) /\
  count_words text <= estimate_tokens text.
Proof.
  pose proof (count_words_zero_iff_blank text) as Hc.
  pose proof (count_words_nonneg text).
  rewrite estimate_tokens_floor.
  pose proof (Z.div_mod (count_words text * 13) 10 ltac:(lia)).
  pose proof (Z.mod_pos_bound (count_words text * 13) 10 ltac:(lia)).
  split; [|split; [exact Hc | lia]].
  rewrite <- Hc. lia.
Qed.

(** X4: stripping a text changes neither its words nor its estimate. *)
Theorem strip_keeps_the_words (text : str) :
  Py.split (strip text) = Py.split text /\
  count_words (strip text) = count_words text /\
  estimate_tokens (strip text) = estimate_tokens text.
Proof.
  unfold estimate_tokens, count_words. now rewrite split_strip.
Qed.

(** ** Budgets of the two stages *)

Lemma str_eqb_eq (a : str) : forall b, str_eqb a b = true <-> a = b.
Proof.
  induction a as [|x a IH]; intros [|y b]; simpl; try (intuition discriminate).
  unfold char_eqb. rewrite andb_true_iff, N.eqb_eq, IH.
  split; [intros [-> ->]; reflexivity | intros H; injection H; auto].
Qed.

(** X5: the output budget of a map-stage call is half the chunk's
    estimate, rounded down and capped at 4000: it lies between 0 and 4000,
    twice the budget never exceeds the estimate, the cap is reached exactly
    from 8000 estimated tokens on, and a chunk of a single word is sent with
    a budget of 0 tokens. *)
Theorem map_stage_budget (chunk detail_level prompt_instruction : str) :
  let budget :=
    max_completion_tokens (process_chunk_input chunk detail_level prompt_instruction) in
  0 <= budget <= 4000 /\
  2 * budget <= estimate_tokens chunk /\
  (budget = 4000 <-> 8000 <= estimate_tokens chunk) /\
  (budget = 0 <-> count_words chunk <= 1).
Proof.
  intros budget.
  assert (E : budget = Z.min (Z.quot (estimate_tokens chunk) 2) 4000) by reflexivity.
  pose proof (estimate_tokens_nonneg chunk) as Ht.
  pose proof (count_words_nonneg chunk) as Hw.
  rewrite Z.quot_div_nonneg in E by lia.
  pose proof (Z.div_mod (estimate_tokens chunk) 2 ltac:(lia)).
  pose proof (Z.mod_pos_bound (estimate_tokens chunk) 2 ltac:(lia)).
  assert (Hone : estimate_tokens chunk <= 1 <-> count_words chunk <= 1).
  { rewrite estimate_tokens_floor.
    pose proof (Z.div_mod (count_words chunk * 13) 10 ltac:(lia)).
    pose proof (Z.mod_pos_bound (count_words chunk * 13) 10 ltac:(lia)).
    lia. }
  repeat split; try lia.
Qed.

(** X6: whatever the level string, the worker runs with one of three
    parameter sets: ["low"] gives 6500 target tokens, ["medium"] 3250 and
    every other string the concise 1040.  The reduce call's output budget is
    always the target itself (the cap of 16000 never applies), and the word
    count quoted in the synthesis prompt is the level's [target_words]. *)
Theorem level_budgets (summary_level : str) (chunk_summaries : list str) :
  let target_words := fst (fst (level_parameters summary_level)) in
  let target_tokens := target_tokens_of summary_level in
  ((summary_level = lit "low" /\ target_words = 5000 /\ target_tokens = 6500)
   \/ (summary_level = lit "medium" /\ target_words = 2500 /\ target_tokens = 3250)
   \/ (summary_level <> lit "low" /\ summary_level <> lit "medium"
       /\ target_words = 800 /\ target_tokens = 1040)) /\
  max_completion_tokens
    (final_synthesis_input chunk_summaries target_tokens
       (detail_level_of summary_level) (prompt_instruction_of summary_level))
  = target_tokens /\
  estimate_words_from_tokens target_tokens = target_words.
Proof.
  intros target_words target_tokens.
  subst target_words target_tokens. unfold target_tokens_of, level_parameters.
  destruct (str_eqb summary_level (lit "low")) eqn:Hlow.
  { apply str_eqb_eq in Hlow. cbn [fst snd]. split; [left|]; repeat split; auto. }
  destruct (str_eqb summary_level (lit "medium")) eqn:Hmed.
  { apply str_eqb_eq in Hmed. cbn [fst snd]. split; [right; left|]; repeat split; auto. }
  cbn [fst snd]. split; [right; right|]; repeat split; auto.
  - intros E. apply str_eqb_eq in E. congruence.
  - intros E. apply str_eqb_eq in E. congruence.
Qed.

(** ** Signals of a run *)

Lemma map_stage_not_terminal (d p : str) (n : Z) (chunks : list str) :
  forall i,
  forallb (fun e => negb (is_terminal e)) (map_stage_events d p n i chunks) = true.
Proof. induction chunks as [|c cs IH]; intros i; simpl; auto. Qed.

Lemma finished_run_shape (stage : list event) (input : request) (summary : str) :
  forallb (fun e => negb (is_terminal e)) stage = true ->
  exists before last_event,
    [Progress 10; Progress 20] ++ stage
      ++ [Progress 80; ClientRun input; Progress 100; Finished summary]
    = before ++ [last_event] /\
    is_terminal last_event = true /\
    forallb (fun e => negb (is_terminal e)) before = true.
Proof.
  intros Hstage.
  exists ([Progress 10; Progress 20] ++ stage ++ [Progress 80; ClientRun input; Progress 100]),
         (Finished summary).
  split; [|split].
  - rewrite <- !app_assoc. reflexivity.
  - reflexivity.
  - rewrite !forallb_app, Hstage. reflexivity.
Qed.

(** X7: every run ends with exactly one terminal signal, [finished] or
    [error]: it is the last event of the run, and no terminal signal is
    emitted before it. *)
Theorem one_terminal_signal (client : service) (self : ReplicateSummarizerWorker) :
  exists before last_event,
    events_of_run client self = before ++ [last_event] /\
    is_terminal last_event = true /\
    forallb (fun e => negb (is_terminal e)) before = true.
Proof.
  destruct (token_rejected (api_token self)) eqn:Htoken.
  { exists [], (Error (lit "Error: Replicate API Token is not correctly set.")).
    rewrite (run_on_rejected_token client self Htoken). repeat split. }
  destruct (text_to_summarize self) as [text|type_error] eqn:Htext.
  - rewrite (run_on_text client self text Htoken Htext).
    apply finished_run_shape, map_stage_not_terminal.
  - exists [Progress 10], (Error (lit "Summarization error: " ++ type_error)).
    rewrite (run_on_non_text client self type_error Htoken Htext). repeat split.
Qed.

(** X8: a run that reports an error has issued no completion call and
    delivers no summary. *)
Theorem failed_run_issues_no_call (client : service) (self : ReplicateSummarizerWorker) :
  error_messages (events_of_run client self) <> [] ->
  requests_issued (events_of_run client self) = [] /\
  finished_summaries (events_of_run client self) = [].
Proof.
  intros Herr.
  destruct (token_rejected (api_token self)) eqn:Htoken.
  { now rewrite (run_on_rejected_token client self Htoken). }
  destruct (text_to_summarize self) as [text|type_error] eqn:Htext.
  - now rewrite (errors_on_text client self text Htoken Htext) in Herr.
  - now rewrite (run_on_non_text client self type_error Htoken Htext).
Qed.

Lemma failed_run_issues_no_call_witness :
  error_messages (events_of_run always_answers (worker_on (lit "One paragraph.") None)) <> [] /\
  requests_issued (events_of_run always_answers (worker_on (lit "One paragraph.") None)) = [].
Proof.
  split.
  - vm_compute. discriminate.
  - apply (failed_run_issues_no_call always_answers (worker_on (lit "One paragraph.") None)).
    vm_compute. discriminate.
Defined.

(** X9: every progress value a run emits lies between 10 and 100. *)
Theorem progress_values_in_range (client : service) (self : ReplicateSummarizerWorker) :
  Forall (fun v => 10 <= v <= 100) (progress_values (events_of_run client self)).
Proof.
  destruct (token_rejected (api_token self)) eqn:Htoken.
  { rewrite (run_on_rejected_token client self Htoken). constructor. }
  destruct (text_to_summarize self) as [text|type_error] eqn:Htext.
  - rewrite (progress_on_text client self text Htoken Htext).
    unfold successful_progress.
    apply Forall_app. split; [repeat constructor; lia|].
    apply Forall_app. split; [|repeat constructor; lia].
    apply Forall_map, Forall_forall. intros i Hi. apply in_seq in Hi.
    pose proof (mapping_progress_bounds
                  (Z.of_nat (List.length (_create_intelligent_chunks text))) i
                  ltac:(lia) ltac:(lia)).
    lia.
  - rewrite (run_on_non_text client self type_error Htoken Htext).
    repeat constructor; lia.
Qed.

(** ** Characters of the units and of the chunks *)

Lemma in_dropwhile {A} (p : A -> bool) (l : list A) (x : A) :
  In x (dropwhile p l) -> In x l.
Proof.
  induction l as [|y l IH]; simpl; [tauto|].
  destruct (p y); [intros H; right; auto | auto].
Qed.

Lemma in_strip (s : str) (c : char) : In c (strip s) -> In c s.
Proof.
  unfold strip, rstrip, lstrip. rewrite !reverse_rev. intros H.
  apply in_rev, in_dropwhile in H. apply in_rev in H.
  now apply in_dropwhile in H.
Qed.

Lemma forallb_reverse (q : char -> bool) (s : str) :
  forallb q s = true -> forallb q (reverse s) = true.
Proof.
  rewrite reverse_rev, !forallb_forall. intros H c Hc. apply H. now apply in_rev.
Qed.

Lemma stripped_units_chars (q : char -> bool) (pieces : list str) :
  Forall (fun p => forallb q p = true) pieces ->
  Forall (fun u => forallb q u = true) (stripped_units pieces).
Proof.
  unfold stripped_units. induction 1 as [|p pieces Hp _ IH]; simpl; [constructor|].
  destruct (truthy (strip p)); [|assumption].
  constructor; [|assumption].
  rewrite forallb_forall in *. intros c Hc. apply Hp. now apply in_strip.
Qed.

Lemma join_chars (q : char -> bool) (sep : str) (g : list str) :
  forallb q sep = true ->
  Forall (fun u => forallb q u = true) g ->
  forallb q (join sep g) = true.
Proof.
  intros Hsep. induction 1 as [|u g Hu Hg IH]; [reflexivity|].
  destruct g as [|v g]; [exact Hu|].
  change (join sep (u :: v :: g)) with (u ++ sep ++ join sep (v :: g)).
  now rewrite !forallb_app, Hu, Hsep, IH.
Qed.

Lemma chunks_chars (q : char -> bool) (text : str) :
  q Re.newline = true ->
  Forall (fun u => forallb q u = true) (semantic_units text) ->
  Forall (fun chunk => forallb q chunk = true) (_create_intelligent_chunks text).
Proof.
  intros Hnl Hunits.
  rewrite chunks_are_joined_groups. rewrite <- chunk_groups_concat in Hunits.
  apply Forall_concat in Hunits. apply Forall_map.
  eapply Forall_impl; [|exact Hunits].
  intros g Hg. apply join_chars; [|exact Hg].
  change (forallb q [Re.newline; Re.newline] = true).
  simpl. now rewrite Hnl.
Qed.

Lemma sentence_pieces_no_terminator (s : str) :
  forall skip piece,
  forallb (fun c => negb (Re.is_terminator c)) piece = true ->
  Forall (fun p => forallb (fun c => negb (Re.is_terminator c)) p = true)
         (Re.split_from Re.sentence_end skip piece s).
Proof.
  induction s as [|c s IH]; intros skip piece Hp; simpl.
  - constructor; [now apply forallb_reverse | constructor].
  - destruct skip as [|k]; [|now apply IH].
    unfold Re.sentence_end. simpl.
    destruct (Re.is_terminator c) eqn:Hc; simpl.
    + constructor; [now apply forallb_reverse | now apply IH].
    + apply IH. simpl. now rewrite Hc.
Qed.

(** X10: when the planner falls back to sentences (at most two paragraphs
    and more than 500 characters), the sentence terminators are cut out with
    the split: no chunk it returns contains a [.], [!] or [?]. *)
Theorem sentence_chunks_lose_terminators (text : str) :
  len (stripped_units (Re.split Re.blank_line text)) <= 2 ->
  len text > 500 ->
  Forall (fun chunk => forallb (fun c => negb (Re.is_terminator c)) chunk = true)
         (_create_intelligent_chunks text).
Proof.
  intros Hpar Hlen. apply chunks_chars; [reflexivity|].
  unfold semantic_units.
  destruct (Z.leb_spec (len (stripped_units (Re.split Re.blank_line text))) 2); [|lia].
  destruct (Z.gtb_spec (len text) 500); [|lia].
  simpl. apply stripped_units_chars. now apply sentence_pieces_no_terminator.
Qed.

Lemma sentence_chunks_lose_terminators_witness :
  len (stripped_units (Re.split Re.blank_line (sentence 300 ++ sentence 300))) <= 2 /\
  len (sentence 300 ++ sentence 300) > 500 /\
  Forall (fun chunk => forallb (fun c => negb (Re.is_terminator c)) chunk = true)
         (_create_intelligent_chunks (sentence 300 ++ sentence 300)).
Proof.
  split; [vm_compute; discriminate|]. split; [vm_compute; reflexivity|].
  apply (sentence_chunks_lose_terminators (sentence 300 ++ sentence 300));
    [vm_compute; discriminate | vm_compute; reflexivity].
Defined.

Lemma re_split_without_newline (s : str) :
  forall piece, ~ In Re.newline s ->
  Re.split_from Re.blank_line 0 piece s = [reverse piece ++ s].
Proof.
  induction s as [|c s IH]; intros piece Hnl.
  - simpl. now rewrite app_nil_r.
  - cbn [Re.split_from Re.blank_line].
    destruct (char_eqb c Re.newline) eqn:Hc.
    { apply N.eqb_eq in Hc. subst c. exfalso. apply Hnl. now left. }
    rewrite IH by (intros H; apply Hnl; now right).
    rewrite !reverse_rev. simpl. now rewrite <- app_assoc.
Qed.

(** X11: a text without a newline character is never cut at a blank line;
    when it has at most 500 characters its only semantic unit is the
    stripped text, or nothing when it is blank, whatever punctuation it
    contains. *)
Theorem text_without_newline_is_one_paragraph (text : str) :
  ~ In Re.newline text ->
  Re.split Re.blank_line text = [text] /\
  (len text <= 500 ->
   semantic_units text = if blank text then [] else [strip text]).
Proof.
  intros Hnl.
  assert (E : Re.split Re.blank_line text = [text]).
  { unfold Re.split. now rewrite re_split_without_newline. }
  split; [exact E|]. intros Hlen.
  unfold semantic_units. rewrite E.
  destruct (Z.gtb_spec (len text) 500); [lia|]. rewrite andb_false_r.
  unfold stripped_units. simpl. rewrite truthy_strip.
  now destruct (blank text).
Qed.

Lemma text_without_newline_is_one_paragraph_witness :
  ~ In Re.newline (lit " Is it one? Yes. ") /\
  semantic_units (lit " Is it one? Yes. ") = [lit "Is it one? Yes."].
Proof.
  assert (H : ~ In Re.newline (lit " Is it one? Yes. ")).
  { vm_compute. intuition discriminate. }
  split; [exact H|].
  destruct (text_without_newline_is_one_paragraph (lit " Is it one? Yes. ") H) as [_ Hu].
  rewrite Hu; [reflexivity | vm_compute; discriminate].
Defined.

(** ** Both ends of a chunk *)

Lemma strip_ends_with_text (s : str) :
  blank s = false -> ends_with_text (strip s) = true.
Proof.
  intros H. unfold ends_with_text, strip, rstrip, lstrip.
  rewrite !reverse_rev, rev_involutive.
  destruct (dropwhile_stops _ _ H) as (c & rest & E & Hc). rewrite E.
  assert (Hb : forallb isspace (rev (c :: rest)) = false).
  { pose proof (blank_reverse (c :: rest)) as Hr.
    rewrite reverse_rev in Hr. unfold blank in Hr. rewrite Hr. simpl. now rewrite Hc. }
  destruct (dropwhile_stops _ _ Hb) as (x & rest' & -> & Hx).
  simpl. now rewrite Hx.
Qed.

Lemma stripped_units_end (pieces : list str) :
  Forall (fun u => ends_with_text u = true) (stripped_units pieces).
Proof.
  unfold stripped_units. induction pieces as [|p pieces IH]; simpl; [constructor|].
  rewrite truthy_strip. destruct (blank p) eqn:E; simpl; [assumption|].
  constructor; [now apply strip_ends_with_text | assumption].
Qed.

Lemma semantic_units_end (text : str) :
  Forall (fun u => ends_with_text u = true) (semantic_units text).
Proof.
  unfold semantic_units. destruct (_ && _); apply stripped_units_end.
Qed.

Lemma ends_with_text_app (a b : str) :
  ends_with_text b = true -> ends_with_text (a ++ b) = true.
Proof.
  unfold ends_with_text. rewrite !reverse_rev, rev_app_distr.
  now destruct (rev b).
Qed.

Lemma join_ends_with_text (sep : str) (g : list str) :
  g <> [] -> Forall (fun u => ends_with_text u = true) g ->
  ends_with_text (join sep g) = true.
Proof.
  intros Hne H. induction H as [|u g Hu Hg IH]; [congruence|].
  destruct g as [|v g]; [exact Hu|].
  change (join sep (u :: v :: g)) with (u ++ sep ++ join sep (v :: g)).
  rewrite app_assoc. apply ends_with_text_app. apply IH. discriminate.
Qed.

Lemma strip_fixed (s : str) :
  starts_with_text s = true -> ends_with_text s = true -> strip s = s.
Proof.
  intros Hs He. unfold strip, rstrip, lstrip.
  assert (E1 : dropwhile isspace s = s).
  { destruct s as [|c s]; [discriminate|]. simpl in *.
    apply negb_true_iff in Hs. now rewrite Hs. }
  rewrite E1. unfold ends_with_text in He.
  assert (E2 : dropwhile isspace (reverse s) = reverse s).
  { destruct (reverse s) as [|c r]; [discriminate|]. simpl in *.
    apply negb_true_iff in He. now rewrite He. }
  rewrite E2, !reverse_rev. apply rev_involutive.
Qed.

(** X12: every chunk begins and ends with a non-whitespace character, so
    stripping a chunk leaves it unchanged. *)
Theorem chunks_are_stripped (text : str) :
  Forall (fun chunk =>
            starts_with_text chunk = true /\ ends_with_text chunk = true /\
            strip chunk = chunk)
         (_create_intelligent_chunks text).
Proof.
  assert (He : Forall (fun chunk => ends_with_text chunk = true)
                      (_create_intelligent_chunks text)).
  { rewrite chunks_are_joined_groups. apply Forall_map.
    pose proof (chunk_groups_nonempty text) as Hne.
    pose proof (semantic_units_end text) as Hend.
    rewrite <- chunk_groups_concat in Hend. apply Forall_concat in Hend.
    rewrite Forall_forall in *. intros g Hg.
    apply join_ends_with_text; [now apply Hne | now apply Hend]. }
  pose proof (chunks_start_with_text text) as Hs.
  rewrite Forall_forall in *. intros chunk Hc.
  split; [now apply Hs|]. split; [now apply He|].
  apply strip_fixed; [now apply Hs | now apply He].
Qed.

(** ** How many chunks, and how full *)

Lemma nonempty_groups_length {A} (groups : list (list A)) :
  Forall (fun g => g <> []) groups ->
  (List.length groups <= List.length (List.concat groups))%nat.
Proof.
  induction 1 as [|g groups Hg _ IH]; simpl; [lia|].
  rewrite length_app. destruct g; [congruence | simpl; lia].
Qed.

(** X13: the planner returns at most as many chunks as there are semantic
    units, and no chunk exactly when there is no unit. *)
Theorem chunk_count (text : str) :
  len (_create_intelligent_chunks text) <= len (semantic_units text) /\
  (_create_intelligent_chunks text = [] <-> semantic_units text = []).
Proof.
  pose proof (chunk_groups_nonempty text) as Hne.
  pose proof (chunk_groups_concat text) as Hc.
  rewrite chunks_are_joined_groups. split.
  - unfold len. rewrite length_map, <- Hc.
    apply inj_le. now apply nonempty_groups_length.
  - destruct (chunk_groups text) as [|g gs] eqn:E.
    + simpl in Hc. now rewrite <- Hc.
    + inversion Hne; subst. destruct g as [|u g]; [congruence|].
      simpl in Hc. rewrite <- Hc. simpl. split; discriminate.
Qed.

(** X14: when no semantic unit alone exceeds the ceiling, the running
    total of every chunk is at most 8000. *)
Theorem no_oversized_unit_no_oversized_chunk (text : str) :
  Forall (fun u => estimate_tokens u <= max_chunk_tokens) (semantic_units text) ->
  Forall (fun g => units_tokens g <= max_chunk_tokens) (chunk_groups text).
Proof.
  intros Hunits. rewrite <- chunk_groups_concat in Hunits.
  apply Forall_concat in Hunits.
  assert (Hc : Forall group_within_ceiling (chunk_groups text)).
  { apply pack_groups_ceiling; [reflexivity | | constructor].
    left. unfold units_tokens, max_chunk_tokens. simpl. lia. }
  rewrite Forall_forall in *. intros g Hg.
  destruct (Hc g Hg) as [Hle|(u & -> & Hgt)]; [exact Hle|].
  specialize (Hunits [u] Hg). inversion Hunits; subst. lia.
Qed.

Lemma no_oversized_unit_no_oversized_chunk_witness :
  Forall (fun u => estimate_tokens u <= max_chunk_tokens) (semantic_units three_paragraphs) /\
  Forall (fun g => units_tokens g <= max_chunk_tokens) (chunk_groups three_paragraphs).
Proof.
  assert (H : Forall (fun u => estimate_tokens u <= max_chunk_tokens)
                     (semantic_units three_paragraphs)).
  { assert (Hb : forallb (fun u => estimate_tokens u <=? max_chunk_tokens)
                         (semantic_units three_paragraphs) = true)
      by (vm_compute; reflexivity).
    rewrite forallb_forall in Hb. apply Forall_forall.
    intros u Hu. apply Z.leb_le. exact (Hb u Hu). }
  split; [exact H | exact (no_oversized_unit_no_oversized_chunk three_paragraphs H)].
Defined.

Lemma closed_when_full_snoc (gs : list (list str)) :
  forall g g',
  closed_when_full (gs ++ [g]) ->
  units_tokens g + estimate_tokens (hd [] g') > max_chunk_tokens ->
  closed_when_full ((gs ++ [g]) ++ [g']).
Proof.
  induction gs as [|a gs IH]; intros g g' H Hfull.
  - simpl. auto.
  - destruct gs as [|b gs].
    + simpl in *. destruct H as [Hab _]. auto.
    + change (closed_when_full (a :: (b :: gs) ++ [g])) in H.
      change (closed_when_full (a :: ((b :: gs) ++ [g]) ++ [g'])).
      simpl in H. destruct H as [Hab H].
      simpl. split; [exact Hab|].
      apply (IH g g'); assumption.
Qed.

Lemma closed_when_full_grow_last (gs : list (list str)) :
  forall g p, g <> [] ->
  closed_when_full (gs ++ [g]) -> closed_when_full (gs ++ [g ++ [p]]).
Proof.
  induction gs as [|a gs IH]; intros g p Hg H.
  - simpl. auto.
  - destruct gs as [|b gs].
    + simpl in *. destruct H as [Hab _]. split; [|exact I].
      destruct g; [congruence | exact Hab].
    + simpl in H. destruct H as [Hab H].
      simpl. split; [exact Hab|]. now apply (IH g p).
Qed.

Lemma pack_groups_closed_when_full (paragraphs : list str) :
  forall groups current_chunk current_tokens,
  current_tokens = units_tokens current_chunk ->
  (current_chunk = [] -> groups = []) ->
  (current_chunk <> [] -> closed_when_full (groups ++ [current_chunk])) ->
  closed_when_full (pack_groups paragraphs groups current_chunk current_tokens).
Proof.
  induction paragraphs as [|p ps IH]; intros groups cur t Ht Hnil Hcur.
  - simpl. destruct cur as [|u cur]; simpl.
    + now rewrite Hnil.
    + apply Hcur. discriminate.
  - assert (Hone : units_tokens [p] = estimate_tokens p)
      by (unfold units_tokens; simpl; lia).
    simpl pack_groups.
    destruct (Z.gtb_spec (t + estimate_tokens p) max_chunk_tokens) as [Hover|Hfits];
      simpl andb.
    + destruct cur as [|u cur]; simpl truthy; cbv iota.
      * apply IH.
        -- rewrite units_tokens_app, Hone, Ht. reflexivity.
        -- discriminate.
        -- intros _. now rewrite Hnil.
      * apply IH.
        -- now rewrite Hone.
        -- discriminate.
        -- intros _. apply closed_when_full_snoc.
           ++ apply Hcur. discriminate.
           ++ simpl hd. lia.
    + apply IH.
      * rewrite units_tokens_app, Hone, Ht. reflexivity.
      * intros E. now destruct cur.
      * intros _. destruct cur as [|u cur].
        -- now rewrite Hnil.
        -- apply closed_when_full_grow_last; [discriminate|].
           apply Hcur. discriminate.
Qed.

(** X15: the packing is greedy: a chunk is closed only when the first unit
    of the next chunk would have brought its running total above 8000, so
    no two neighbouring chunks could have been packed further. *)
Theorem chunks_are_closed_when_full (text : str) :
  closed_when_full (chunk_groups text).
Proof.
  apply pack_groups_closed_when_full; [reflexivity | reflexivity | congruence].
Qed.

(** ** The planner of app.py *)

(** X16: the planner of [app.py] and the planner of [summarizer.py] return
    the same chunks for every text of more than 500 characters and for
    every text with more than two paragraphs; they can differ only on a
    text of at most 500 characters with at most two paragraphs, which
    [app.py] splits into sentences and [summarizer.py] does not. *)
Theorem app_planner_agrees (text : str) :
  len text > 500 \/ len (stripped_units (Re.split Re.blank_line text)) > 2 ->
  App._create_intelligent_chunks text = _create_intelligent_chunks text.
Proof.
  intros H.
  unfold App._create_intelligent_chunks, _create_intelligent_chunks,
    App.semantic_units, semantic_units.
  destruct (Z.leb_spec (len (stripped_units (Re.split Re.blank_line text))) 2);
    [|reflexivity].
  destruct (Z.gtb_spec (len text) 500); [reflexivity | lia].
Qed.

Lemma app_planner_agrees_witness :
  len (sentence 300) > 500 /\
  App._create_intelligent_chunks (sentence 300) = _create_intelligent_chunks (sentence 300).
Proof.
  split; [vm_compute; reflexivity|].
  apply (app_planner_agrees (sentence 300)). left. vm_compute. reflexivity.
Defined.

(** On a short text the two planners do differ: [app.py] cuts the
    sentences apart and drops their terminators. *)
Example app_planner_differs :
  App._create_intelligent_chunks (lit "Hello. World!")
    = [join paragraph_separator [lit "Hello"; lit "World"]] /\
  _create_intelligent_chunks (lit "Hello. World!") = [lit "Hello. World!"].
Proof. split; reflexivity. Qed.

(** ** The extractor of pdf_processor.py *)

(** The exact embedding of the extractor's float expressions against
    binary64, for documents of up to 150 pages. *)
Lemma binary64_extractor_agrees :
  forallb (fun n =>
             forallb (fun i =>
                        (Binary64Extractor.progress_share (i + 1) (n + 1)
                           =? Z.quot ((i + 1) * 80) (n + 1))
                        && Bool.eqb (Binary64Extractor.ratio_above i (n + 1))
                                    (10 * i >? 7 * (n + 1))
                        && Bool.eqb (Binary64Extractor.average_below (200 * (n + 1) - 75 + i) (n + 1))
                                    (200 * (n + 1) - 75 + i <? 200 * (n + 1)))
                     (Binary64.upto (n + 2)))
          (Binary64.upto 150) = true.
Proof. vm_compute. reflexivity. Qed.

Module PdfFacts.

Import Pdf.

(** *** The page loop *)

Lemma page_texts_cons (p : page) (ps : list page) :
  page_texts (p :: ps)
  = match p with
    | Ok (Some s) => if has_text (Some s) then s :: page_texts ps else page_texts ps
    | _ => page_texts ps
    end.
Proof.
  unfold page_texts. cbn [flat_map].
  destruct p as [[s|]|e]; [destruct (has_text (Some s))| |]; reflexivity.
Qed.

Lemma len_cons {A} (x : A) (l : list A) : len (x :: l) = len l + 1.
Proof. unfold len. simpl List.length. lia. Qed.

Lemma len_nonneg {A} (l : list A) : 0 <= len l.
Proof. unfold len. lia. Qed.

Lemma page_texts_le (ps : list page) : len (page_texts ps) <= len ps.
Proof.
  induction ps as [|p ps IH]; [reflexivity|].
  rewrite page_texts_cons, len_cons.
  destruct p as [[s|]|e]; [destruct (has_text (Some s))| |];
    rewrite ?len_cons; lia.
Qed.

Lemma same_stats (a b c d e a' b' c' d' e' : Z) (q : quotient) :
  a = a' -> b = b' -> c = c' -> d = d' -> e = e' ->
  {| total_pages := a; pages_with_text := b; pages_with_substantial_text := c;
     empty_pages := d; total_characters := e; average_chars_per_page := q |}
  = {| total_pages := a'; pages_with_text := b'; pages_with_substantial_text := c';
       empty_pages := d'; total_characters := e'; average_chars_per_page := q |}.
Proof. now intros -> -> -> -> ->. Qed.

Lemma same_triple {A B C} (a a' : A) (b b' : B) (c c' : C) :
  a = a' -> b = b' -> c = c' -> (a, b, c) = (a', b', c').
Proof. now intros -> -> ->. Qed.

Ltac same_extraction :=
  apply same_triple; [reflexivity | apply same_stats; lia | reflexivity].

Lemma extract_pages_spec (total : Z) (ps : list page) :
  forall page_num text stats,
  extract_pages total page_num ps text stats
  = ((text ++ extracted_text ps,
      {| total_pages := total_pages stats;
         pages_with_text := pages_with_text stats + len (page_texts ps);
         pages_with_substantial_text :=
           pages_with_substantial_text stats
           + len (List.filter is_substantial (page_texts ps));
         empty_pages := empty_pages stats + (len ps - len (page_texts ps));
         total_characters := total_characters stats;
         average_chars_per_page := average_chars_per_page stats |}),
     page_events total page_num ps).
Proof.
  induction ps as [|p ps IH]; intros page_num text stats.
  - cbn [extract_pages page_events]. destruct stats.
    cbn [total_pages pages_with_text pages_with_substantial_text
         empty_pages total_characters average_chars_per_page].
    change (extracted_text []) with (@nil char). rewrite app_nil_r.
    change (page_texts []) with (@nil str). cbn [List.filter].
    change (len (@nil str)) with 0. change (len (@nil page)) with 0.
    same_extraction.
  - cbn [extract_pages page_events]. rewrite page_texts_cons, len_cons.
    destruct p as [[s|]|e].
    + destruct (has_text (Some s)) eqn:Ht.
      * cbv beta iota zeta.
        match goal with
        | |- context [extract_pages ?t ?n ?p ?x ?st] => rewrite (IH n x st)
        end.
        cbn [total_pages pages_with_text pages_with_substantial_text
             empty_pages total_characters average_chars_per_page].
        unfold extracted_text. rewrite page_texts_cons, Ht.
        cbn [List.map List.concat List.filter]. fold (is_substantial s).
        rewrite <- !app_assoc.
        destruct (is_substantial s); rewrite !len_cons; same_extraction.
      * cbv beta iota zeta.
        match goal with
        | |- context [extract_pages ?t ?n ?p ?x ?st] => rewrite (IH n x st)
        end.
        cbn [total_pages pages_with_text pages_with_substantial_text
             empty_pages total_characters average_chars_per_page].
        unfold extracted_text. rewrite page_texts_cons, Ht.
        same_extraction.
    + cbn [has_text]. cbv beta iota zeta.
        match goal with
        | |- context [extract_pages ?t ?n ?p ?x ?st] => rewrite (IH n x st)
        end.
      cbn [total_pages pages_with_text pages_with_substantial_text
           empty_pages total_characters average_chars_per_page].
      unfold extracted_text. rewrite page_texts_cons.
      same_extraction.
    + cbn [has_text]. cbv beta iota zeta.
        match goal with
        | |- context [extract_pages ?t ?n ?p ?x ?st] => rewrite (IH n x st)
        end.
      cbn [total_pages pages_with_text pages_with_substantial_text
           empty_pages total_characters average_chars_per_page].
      unfold extracted_text. rewrite page_texts_cons.
      same_extraction.
Qed.

Lemma extract_spec (reader : PdfReader) (ps : list page) :
  pages reader = Ok ps ->
  _extract_and_validate_text reader
  = (Ok (extracted_text ps, expected_stats ps), page_events (len ps) 0 ps).
Proof.
  intros H. unfold _extract_and_validate_text, bind, lift. rewrite H.
  cbn [fst snd]. rewrite extract_pages_spec.
  cbn [fst snd app total_pages pages_with_text pages_with_substantial_text
       empty_pages total_characters average_chars_per_page].
  unfold expected_stats. repeat f_equal.
Qed.

(** *** What the page loop emits *)

Lemma page_events_report (total : Z) (ps : list page) :
  forall page_num, forallb is_report (page_events total page_num ps) = true.
Proof.
  induction ps as [|p ps IH]; intros page_num; [reflexivity|].
  cbn [page_events forallb]. rewrite IH. now destruct p.
Qed.

Lemma progress_values_cons (e : signal) (events : list signal) :
  progress_values (e :: events)
  = match e with Progress v => v :: progress_values events | _ => progress_values events end.
Proof. now destruct e. Qed.

Lemma progress_values_app (a b : list signal) :
  progress_values (a ++ b) = progress_values a ++ progress_values b.
Proof. unfold progress_values. apply flat_map_app. Qed.

Lemma page_events_progress_bounds (total : Z) (ps : list page) :
  0 < total ->
  forall page_num, 0 <= page_num -> page_num + len ps <= total ->
  Forall (fun v => (page_num + 1) * 80 / total <= v <= 80)
         (progress_values (page_events total page_num ps)).
Proof.
  intros Htotal. induction ps as [|p ps IH]; intros page_num Hp Hlen; [constructor|].
  rewrite len_cons in Hlen. pose proof (len_nonneg ps) as Hps.
  cbn [page_events]. rewrite progress_values_cons.
  assert (Hrest : Forall (fun v => (page_num + 1) * 80 / total <= v <= 80)
                         (progress_values (page_events total (page_num + 1) ps))).
  { eapply Forall_impl; [|apply (IH (page_num + 1)); lia].
    intros v [Hlo Hhi]. split; [|exact Hhi].
    etransitivity; [|exact Hlo]. apply Z.div_le_mono; lia. }
  destruct p as [extracted|e]; [|exact Hrest].
  constructor; [|exact Hrest].
  rewrite Z.quot_div_nonneg by lia. split; [lia|].
  apply Z.div_le_upper_bound; lia.
Qed.

Lemma page_events_progress_sorted (total : Z) (ps : list page) :
  0 < total ->
  forall page_num, 0 <= page_num -> page_num + len ps <= total ->
  StronglySorted Z.le (progress_values (page_events total page_num ps)).
Proof.
  intros Htotal. induction ps as [|p ps IH]; intros page_num Hp Hlen; [constructor|].
  rewrite len_cons in Hlen. pose proof (len_nonneg ps) as Hps.
  cbn [page_events]. rewrite progress_values_cons.
  assert (Hrest : StronglySorted Z.le
                    (progress_values (page_events total (page_num + 1) ps)))
    by (apply IH; lia).
  destruct p as [extracted|e]; [|exact Hrest].
  constructor; [exact Hrest|].
  eapply Forall_impl;
    [|apply (page_events_progress_bounds total ps Htotal (page_num + 1)); lia].
  intros v [Hlo _]. rewrite Z.quot_div_nonneg by lia.
  etransitivity; [|exact Hlo]. apply Z.div_le_mono; lia.
Qed.

(** *** The four validations, case by case *)

Lemma validate_extension_cases (self : file) :
  (str_eqb (file_extension self) (lit ".pdf") = true
   /\ _validate_file_extension self = (Ok true, []))
  \/ (str_eqb (file_extension self) (lit ".pdf") = false
      /\ exists message,
           _validate_file_extension self = (Ok false, [ValidationFailed message])).
Proof.
  unfold _validate_file_extension.
  destruct (str_eqb (file_extension self) (lit ".pdf")).
  - left. split; reflexivity.
  - right. split; [reflexivity|]. eexists. reflexivity.
Qed.

Lemma validate_size_cases (self : file) :
  (size_ok self = true /\ _validate_file_size self = (Ok true, []))
  \/ (size_ok self = false
      /\ exists message, _validate_file_size self = (Ok false, [ValidationFailed message])).
Proof.
  unfold _validate_file_size, size_ok, try_except, bind, lift.
  destruct (getsize self) as [file_size|e]; cbn [fst snd].
  - destruct (Z.eqb_spec file_size 0) as [->|Hz].
    { right. split; [reflexivity|]. eexists. reflexivity. }
    destruct (Z.ltb_spec file_size 1024) as [Hsmall|Hbig].
    { right. split; [|eexists; reflexivity].
      apply andb_false_iff. left. apply Z.leb_gt. exact Hsmall. }
    destruct (Z.gtb_spec file_size (100 * 1024 * 1024)) as [Hlarge|Hfits].
    { right. split; [|eexists; reflexivity].
      apply andb_false_iff. right. apply Z.leb_gt. lia. }
    left. split; [|reflexivity].
    apply andb_true_iff. split; apply Z.leb_le; lia.
  - right. split; [reflexivity|]. eexists. reflexivity.
Qed.

Lemma validate_structure_cases (reader : PdfReader) :
  (structure_ok reader = true /\ _validate_pdf_structure reader = (Ok true, []))
  \/ (structure_ok reader = false
      /\ exists message,
           _validate_pdf_structure reader = (Ok false, [ValidationFailed message])).
Proof.
  unfold _validate_pdf_structure, structure_ok, try_except, bind, lift.
  destruct (pages reader) as [ps|e]; cbn [fst snd].
  - destruct (Z.ltb_spec (len ps) MIN_PAGES) as [Hfew|Henough].
    { right. split; [|eexists; reflexivity].
      apply andb_false_iff. left. apply Z.leb_gt. exact Hfew. }
    assert (Hp : (MIN_PAGES <=? len ps) = true) by (apply Z.leb_le; lia).
    rewrite Hp. cbn [andb fst snd].
    destruct (is_encrypted reader) as [[|]|e]; cbn [fst snd app negb].
    + right. split; [reflexivity|]. eexists. reflexivity.
    + left. split; reflexivity.
    + right. split; [reflexivity|]. eexists. reflexivity.
  - right. split; [reflexivity|]. eexists. reflexivity.
Qed.

Lemma validate_text_cases (ps : list page) :
  1 <= len ps ->
  (text_ok ps = true
   /\ _validate_extracted_text (extracted_text ps) (expected_stats ps)
      = (Ok true, [Progress 85; Progress 100]))
  \/ (text_ok ps = false
      /\ exists message,
           _validate_extracted_text (extracted_text ps) (expected_stats ps)
           = (Ok false, [Progress 85; ValidationFailed message])).
Proof.
  intros Hpages.
  assert (Hgt : (len ps >? 0) = true) by (apply Z.gtb_lt; lia).
  unfold _validate_extracted_text, text_ok, expected_stats, bind, emit.
  cbn [fst snd total_pages pages_with_text pages_with_substantial_text empty_pages
       total_characters average_chars_per_page].
  rewrite Hgt. cbn [numerator denominator].
  fold (count_words (extracted_text ps)).
  set (text := extracted_text ps).
  destruct (negb (truthy text) || negb (truthy (strip text))) eqn:Hblank.
  { right. split; [|eexists; reflexivity].
    assert (Hb : blank text = true).
    { apply orb_true_iff in Hblank as [H|H].
      - destruct text; [reflexivity | discriminate].
      - rewrite truthy_strip in H. now destruct (blank text). }
    apply count_words_zero_iff_blank in Hb. rewrite Hb. reflexivity. }
  destruct (Z.ltb_spec (count_words text) MIN_WORDS) as [Hfew|Hwords].
  { right. split; [|eexists; reflexivity].
    assert (E : (MIN_WORDS <=? count_words text) = false) by (apply Z.leb_gt; exact Hfew).
    now rewrite E. }
  destruct (Z.eqb_spec (len ps) 0) as [Hz|_]; [lia|].
  assert (E1 : (MIN_WORDS <=? count_words text) = true) by (apply Z.leb_le; lia).
  rewrite E1. cbn [andb].
  destruct (Z.gtb_spec (10 * (len ps - len (page_texts ps))) (7 * len ps)) as [Hempty|Hfull].
  { right. split; [|eexists; reflexivity].
    assert (E : (10 * (len ps - len (page_texts ps)) <=? 7 * len ps) = false)
      by (apply Z.leb_gt; lia).
    now rewrite E. }
  assert (E2 : (10 * (len ps - len (page_texts ps)) <=? 7 * len ps) = true)
    by (apply Z.leb_le; lia).
  rewrite E2. cbn [andb].
  pose proof (len_nonneg (List.filter is_substantial (page_texts ps))) as Hs.
  destruct (Z.eqb_spec (len (List.filter is_substantial (page_texts ps))) 0) as [Hnone|Hsome].
  { right. split; [|eexists; reflexivity]. now rewrite Hnone. }
  assert (E3 : (1 <=? len (List.filter is_substantial (page_texts ps))) = true)
    by (apply Z.leb_le; lia).
  rewrite E3. cbn [andb].
  destruct (Z.ltb_spec (len text) (200 * len ps)) as [Hthin|Hdense].
  { right. split; [|eexists; reflexivity]. apply Z.leb_gt. exact Hthin. }
  left. split; [apply Z.leb_le; lia | reflexivity].
Qed.

(** *** A run, in its three shapes *)

Ltac run_step := cbn [fst snd negb app].

Lemma structure_ok_pages (reader : PdfReader) :
  structure_ok reader = true ->
  exists ps, pages reader = Ok ps /\ 1 <= len ps /\ is_encrypted reader = Ok false.
Proof.
  unfold structure_ok. destruct (pages reader) as [ps|e]; [|discriminate].
  intros H. apply andb_true_iff in H as [Hlen Henc]. apply Z.leb_le in Hlen.
  exists ps. split; [reflexivity|]. split; [exact Hlen|].
  destruct (is_encrypted reader) as [[|]|e]; try discriminate. reflexivity.
Qed.

Lemma run_shape (self : file) :
  (accepted self = true
   /\ exists reader ps,
        open_reader self = Ok reader /\ pages reader = Ok ps /\ 1 <= len ps
        /\ events_of_run self
           = page_events (len ps) 0 ps
             ++ [Progress 85; Progress 100;
                 Finished (basename self) (strip (extracted_text ps))])
  \/ (accepted self = false
      /\ ((exists message, events_of_run self = [ValidationFailed message])
          \/ exists reader ps message,
               open_reader self = Ok reader /\ pages reader = Ok ps /\ 1 <= len ps
               /\ events_of_run self
                  = page_events (len ps) 0 ps ++ [Progress 85; ValidationFailed message])).
Proof.
  unfold events_of_run, accepted.
  destruct (validate_extension_cases self) as [[He Hv]|[He (m & Hv)]]; rewrite He;
    cbn [andb].
  2: { right. split; [reflexivity|]. left. exists m.
       unfold run, try_except, bind. rewrite Hv. reflexivity. }
  destruct (validate_size_cases self) as [[Hs Hvs]|[Hs (m & Hvs)]]; rewrite Hs;
    cbn [andb].
  2: { right. split; [reflexivity|]. left. exists m.
       unfold run, try_except, bind. rewrite Hv. run_step. rewrite Hvs. reflexivity. }
  destruct (open_reader self) as [reader|e] eqn:Hopen.
  2: { right. split; [reflexivity|]. left.
       destruct e as [msg|msg]; eexists;
         unfold run, try_except, bind, lift; rewrite Hv; run_step; rewrite Hvs; run_step;
         rewrite Hopen; reflexivity. }
  destruct (validate_structure_cases reader) as [[Hst Hvst]|[Hst (m & Hvst)]]; rewrite Hst;
    cbn [andb].
  2: { right. split; [reflexivity|]. left. exists m.
       unfold run, try_except, bind, lift. rewrite Hv. run_step. rewrite Hvs. run_step.
       rewrite Hopen. run_step. rewrite Hvst. reflexivity. }
  destruct (structure_ok_pages reader Hst) as (ps & Hpages & Hlen & _).
  unfold pages_of. rewrite Hpages.
  destruct (validate_text_cases ps Hlen) as [[Ht Hvt]|[Ht (m & Hvt)]]; rewrite Ht.
  - left. split; [reflexivity|]. exists reader, ps.
    split; [reflexivity|]. split; [exact Hpages|]. split; [exact Hlen|].
    unfold run, try_except, bind, lift, emit. rewrite Hv. run_step. rewrite Hvs. run_step.
    rewrite Hopen. run_step. rewrite Hvst. run_step.
    rewrite (extract_spec reader ps Hpages). run_step. rewrite Hvt. run_step.
    reflexivity.
  - right. split; [reflexivity|]. right. exists reader, ps, m.
    split; [reflexivity|]. split; [exact Hpages|]. split; [exact Hlen|].
    unfold run, try_except, bind, lift, emit. rewrite Hv. run_step. rewrite Hvs. run_step.
    rewrite Hopen. run_step. rewrite Hvst. run_step.
    rewrite (extract_spec reader ps Hpages). run_step. rewrite Hvt. run_step.
    reflexivity.
Qed.

(** *** Properties of the extraction *)

Lemma filter_len_le {A} (f : A -> bool) (l : list A) : len (List.filter f l) <= len l.
Proof.
  induction l as [|x l IH]; [reflexivity|].
  simpl List.filter. destruct (f x); rewrite !len_cons; lia.
Qed.

(** X17: the page loop never raises and counts every page exactly once:
    the text is the texts of the pages that have text, each followed by a
    blank line, in page order; [pages_with_text] and [empty_pages] add up to
    [total_pages]; the substantial pages are among the pages with text; and
    [total_characters] is the length of the text. *)
Theorem extraction_statistics (reader : PdfReader) (ps : list page) :
  pages reader = Ok ps ->
  exists text stats,
    _extract_and_validate_text reader = (Ok (text, stats), page_events (len ps) 0 ps) /\
    text = List.concat (List.map (fun s => s ++ paragraph_separator) (page_texts ps)) /\
    total_pages stats = len ps /\
    pages_with_text stats = len (page_texts ps) /\
    pages_with_text stats + empty_pages stats = total_pages stats /\
    0 <= pages_with_substantial_text stats <= pages_with_text stats /\
    0 <= empty_pages stats /\
    total_characters stats = len text.
Proof.
  intros H. exists (extracted_text ps), (expected_stats ps).
  split; [now apply extract_spec|]. split; [reflexivity|].
  unfold expected_stats.
  cbn [total_pages pages_with_text pages_with_substantial_text empty_pages
       total_characters].
  pose proof (page_texts_le ps).
  pose proof (filter_len_le is_substantial (page_texts ps)).
  pose proof (len_nonneg (List.filter is_substantial (page_texts ps))).
  repeat split; lia.
Qed.

Lemma extraction_statistics_witness :
  exists text stats,
    _extract_and_validate_text
      {| pages := Ok four_pages; is_encrypted := Ok false |}
    = (Ok (text, stats), page_events (len four_pages) 0 four_pages) /\
    pages_with_text stats + empty_pages stats = total_pages stats.
Proof.
  destruct (extraction_statistics
              {| pages := Ok four_pages; is_encrypted := Ok false |} four_pages eq_refl)
    as (text & stats & H & _ & _ & _ & Hsum & _).
  exists text, stats. split; [exact H | exact Hsum].
Defined.

Lemma page_events_length (total : Z) (ps : list page) :
  forall page_num, List.length (page_events total page_num ps) = List.length ps.
Proof.
  induction ps as [|p ps IH]; intros page_num; [reflexivity|].
  cbn [page_events List.length]. now rewrite IH.
Qed.

Lemma page_events_progress_count (total : Z) (ps : list page) :
  forall page_num,
  len (progress_values (page_events total page_num ps))
  = len (List.filter (fun p => match p with Ok _ => true | Raised _ => false end) ps).
Proof.
  induction ps as [|p ps IH]; intros page_num; [reflexivity|].
  cbn [page_events List.filter]. rewrite progress_values_cons.
  destruct p; rewrite ?len_cons, IH; reflexivity.
Qed.

(** X18: during extraction only progress values and printed lines are
    emitted, one per page: a progress value for each page that was read, a
    printed line for each page that raised.  The progress values never
    decrease and lie between 0 and 80. *)
Theorem extraction_reports (reader : PdfReader) (ps : list page) :
  pages reader = Ok ps ->
  forallb is_report (snd (_extract_and_validate_text reader)) = true /\
  List.length (snd (_extract_and_validate_text reader)) = List.length ps /\
  len (progress_values (snd (_extract_and_validate_text reader)))
  = len (List.filter (fun p => match p with Ok _ => true | Raised _ => false end) ps) /\
  Sorted Z.le (progress_values (snd (_extract_and_validate_text reader))) /\
  Forall (fun v => 0 <= v <= 80)
         (progress_values (snd (_extract_and_validate_text reader))).
Proof.
  intros H. rewrite (extract_spec reader ps H). cbn [snd].
  split; [apply page_events_report|].
  split; [apply page_events_length|].
  split; [apply page_events_progress_count|].
  destruct ps as [|p ps]; [split; constructor|].
  assert (Htotal : 0 < len (p :: ps)) by (rewrite len_cons; pose proof (len_nonneg ps); lia).
  split.
  - apply StronglySorted_Sorted, page_events_progress_sorted; lia.
  - eapply Forall_impl;
      [|apply (page_events_progress_bounds _ (p :: ps) Htotal 0); lia].
    intros v [Hlo Hhi]. split; [|exact Hhi].
    etransitivity; [|exact Hlo]. apply Z.div_pos; lia.
Qed.

Lemma extraction_reports_witness :
  progress_values
    (snd (_extract_and_validate_text {| pages := Ok four_pages; is_encrypted := Ok false |}))
  = [20; 40; 80] /\
  Sorted Z.le
    (progress_values
       (snd (_extract_and_validate_text
               {| pages := Ok four_pages; is_encrypted := Ok false |}))).
Proof.
  split; [vm_compute; reflexivity|].
  apply (extraction_reports {| pages := Ok four_pages; is_encrypted := Ok false |}
           four_pages eq_refl).
Defined.

(** *** Properties of a run *)

Lemma not_in_reports (events : list signal) (e : signal) :
  forallb is_report events = true -> is_report e = false -> ~ In e events.
Proof.
  intros Hall He Hin. rewrite forallb_forall in Hall.
  specialize (Hall e Hin). congruence.
Qed.

Lemma accepted_iff (self : file) :
  accepted self = true <->
  (file_extension self = lit ".pdf" /\
   exists file_size reader ps,
     getsize self = Ok file_size /\ 1024 <= file_size <= 104857600 /\
     open_reader self = Ok reader /\ pages reader = Ok ps /\
     is_encrypted reader = Ok false /\
     1 <= len ps /\
     500 <= count_words (extracted_text ps) /\
     10 * (len ps - len (page_texts ps)) <= 7 * len ps /\
     1 <= len (List.filter is_substantial (page_texts ps)) /\
     200 * len ps <= len (extracted_text ps)).
Proof.
  unfold accepted, size_ok, text_ok. split.
  - intros H. apply andb_true_iff in H as [H Hreader].
    apply andb_true_iff in H as [Hext Hsize].
    apply str_eqb_eq in Hext. split; [exact Hext|].
    destruct (getsize self) as [file_size|e]; [|discriminate].
    apply andb_true_iff in Hsize as [Hlo Hhi].
    apply Z.leb_le in Hlo. apply Z.leb_le in Hhi.
    destruct (open_reader self) as [reader|e]; [|discriminate].
    apply andb_true_iff in Hreader as [Hst Htext].
    destruct (structure_ok_pages reader Hst) as (ps & Hpages & Hlen & Henc).
    unfold pages_of in Htext. rewrite Hpages in Htext.
    apply andb_true_iff in Htext as [Htext Hdense].
    apply andb_true_iff in Htext as [Htext Hsub].
    apply andb_true_iff in Htext as [Hwords Hempty].
    apply Z.leb_le in Hwords, Hempty, Hsub, Hdense.
    exists file_size, reader, ps. unfold MIN_WORDS in Hwords.
    repeat split; try assumption; lia.
  - intros (Hext & file_size & reader & ps & Hsize & Hbounds & Hopen & Hpages & Henc
            & Hlen & Hwords & Hempty & Hsub & Hdense).
    apply str_eqb_eq in Hext. rewrite Hext, Hsize, Hopen.
    unfold structure_ok, pages_of. rewrite Hpages, Henc.
    unfold MIN_PAGES, MIN_WORDS.
    repeat (apply andb_true_iff; split); try reflexivity; apply Z.leb_le; lia.
Qed.

Lemma finished_iff_accepted (self : file) :
  (exists filename text, In (Finished filename text) (events_of_run self))
  <-> accepted self = true.
Proof.
  destruct (run_shape self)
    as [(Hacc & reader & ps & _ & _ & _ & Hev)
       |(Hacc & [(m & Hev)|(reader & ps & m & _ & _ & _ & Hev)])];
    rewrite Hacc, Hev.
  - split; [reflexivity|]. intros _.
    exists (basename self), (strip (extracted_text ps)).
    apply in_or_app. right. right. right. now left.
  - split; [|discriminate]. intros (f & t & [H|[]]). discriminate.
  - split; [|discriminate]. intros (f & t & H). exfalso.
    apply in_app_or in H as [H|[H|[H|[]]]]; try discriminate.
    revert H. apply not_in_reports; [apply page_events_report | reflexivity].
Qed.

(** X19: the extractor emits [finished] exactly for a file with the
    extension [.pdf], of 1024 to 104857600 bytes, that opens as an
    unencrypted PDF of at least one page, whose extracted text has at least
    500 words and at least 200 characters per page on average, with at most
    70 percent of its pages empty and at least one substantial page. *)
Theorem extractor_accepts_iff (self : file) :
  (exists filename text, In (Finished filename text) (events_of_run self)) <->
  (file_extension self = lit ".pdf" /\
   exists file_size reader ps,
     getsize self = Ok file_size /\ 1024 <= file_size <= 104857600 /\
     open_reader self = Ok reader /\ pages reader = Ok ps /\
     is_encrypted reader = Ok false /\
     1 <= len ps /\
     500 <= count_words (extracted_text ps) /\
     10 * (len ps - len (page_texts ps)) <= 7 * len ps /\
     1 <= len (List.filter is_substantial (page_texts ps)) /\
     200 * len ps <= len (extracted_text ps)).
Proof. rewrite finished_iff_accepted. apply accepted_iff. Qed.

Lemma accepted_text_ok (self : file) (reader : PdfReader) (ps : list page) :
  accepted self = true -> open_reader self = Ok reader -> pages reader = Ok ps ->
  text_ok ps = true.
Proof.
  unfold accepted, pages_of. intros H Hopen Hpages. rewrite Hopen, Hpages in H.
  apply andb_true_iff in H as [_ H]. now apply andb_true_iff in H as [_ H].
Qed.

(** X20: the text the extractor delivers with [finished] is the stripped
    extracted text: it has at least 500 words, so it is not blank and is
    estimated at 650 tokens or more, and stripping it again changes nothing;
    the file name delivered with it is the base name of the path. *)
Theorem delivered_text (self : file) (filename text : str) :
  In (Finished filename text) (events_of_run self) ->
  filename = basename self /\
  500 <= count_words text /\
  650 <= estimate_tokens text /\
  blank text = false /\
  strip text = text.
Proof.
  intros Hin.
  destruct (run_shape self)
    as [(Hacc & reader & ps & Hopen & Hpages & _ & Hev)
       |(Hacc & [(m & Hev)|(reader & ps & m & _ & _ & _ & Hev)])];
    rewrite Hev in Hin.
  - apply in_app_or in Hin as [Hin|[Hin|[Hin|[Hin|[]]]]]; try discriminate.
    { exfalso. revert Hin.
      apply not_in_reports; [apply page_events_report | reflexivity]. }
    injection Hin as <- <-.
    pose proof (accepted_text_ok self reader ps Hacc Hopen Hpages) as Hok.
    unfold text_ok in Hok.
    apply andb_true_iff in Hok as [Hok _]. apply andb_true_iff in Hok as [Hok _].
    apply andb_true_iff in Hok as [Hwords _]. apply Z.leb_le in Hwords.
    unfold MIN_WORDS in Hwords.
    set (raw := extracted_text ps) in *.
    assert (Hcount : count_words (strip raw) = count_words raw)
      by (unfold count_words; now rewrite split_strip).
    assert (Hblank : blank raw = false).
    { destruct (blank raw) eqn:E; [|reflexivity].
      apply count_words_zero_iff_blank in E. lia. }
    split; [reflexivity|]. split; [lia|]. split.
    { rewrite estimate_tokens_floor, Hcount.
      apply Z.div_le_lower_bound; lia. }
    split.
    + apply starts_with_text_not_blank, strip_starts_with_text, Hblank.
    + apply strip_fixed;
        [apply strip_starts_with_text | apply strip_ends_with_text]; exact Hblank.
  - destruct Hin as [Hin|[]]. discriminate.
  - exfalso. apply in_app_or in Hin as [Hin|[Hin|[Hin|[]]]]; try discriminate.
    revert Hin. apply not_in_reports; [apply page_events_report | reflexivity].
Qed.

Lemma delivered_text_witness :
  In (Finished (lit "report.pdf") (strip (extracted_text four_pages)))
     (events_of_run (pdf_with four_pages)) /\
  500 <= count_words (strip (extracted_text four_pages)).
Proof.
  assert (H : In (Finished (lit "report.pdf") (strip (extracted_text four_pages)))
                 (events_of_run (pdf_with four_pages))).
  { assert (E : events_of_run (pdf_with four_pages)
                = page_events 4 0 four_pages
                  ++ [Progress 85; Progress 100;
                      Finished (lit "report.pdf") (strip (extracted_text four_pages))])
      by (vm_compute; reflexivity).
    rewrite E. apply in_or_app. right. right. right. left. reflexivity. }
  split; [exact H|].
  exact (proj1 (proj2 (delivered_text _ _ _ H))).
Defined.

(** X21: every run of the extractor ends with exactly one terminal signal,
    [finished] or [validation_failed], emitted last; before it only progress
    values and printed lines are emitted; the [error] signal is never
    emitted. *)
Theorem extractor_one_terminal_signal (self : file) :
  (exists before last_event,
     events_of_run self = before ++ [last_event] /\
     forallb is_report before = true /\
     ((exists filename text, last_event = Finished filename text)
      \/ exists message, last_event = ValidationFailed message)) /\
  (forall message, ~ In (Error message) (events_of_run self)).
Proof.
  destruct (run_shape self)
    as [(Hacc & reader & ps & _ & _ & _ & Hev)
       |(Hacc & [(m & Hev)|(reader & ps & m & _ & _ & _ & Hev)])];
    rewrite Hev.
  - split.
    + exists (page_events (len ps) 0 ps ++ [Progress 85; Progress 100]),
             (Finished (basename self) (strip (extracted_text ps))).
      split; [now rewrite <- app_assoc|].
      split; [rewrite forallb_app, page_events_report; reflexivity|].
      left. eexists. eexists. reflexivity.
    + intros message Hin.
      apply in_app_or in Hin as [Hin|[Hin|[Hin|[Hin|[]]]]]; try discriminate.
      revert Hin. apply not_in_reports; [apply page_events_report | reflexivity].
  - split.
    + exists [], (ValidationFailed m). split; [reflexivity|]. split; [reflexivity|].
      right. eexists. reflexivity.
    + intros message [Hin|[]]. discriminate.
  - split.
    + exists (page_events (len ps) 0 ps ++ [Progress 85]), (ValidationFailed m).
      split; [now rewrite <- app_assoc|].
      split; [rewrite forallb_app, page_events_report; reflexivity|].
      right. eexists. reflexivity.
    + intros message Hin.
      apply in_app_or in Hin as [Hin|[Hin|[Hin|[]]]]; try discriminate.
      revert Hin. apply not_in_reports; [apply page_events_report | reflexivity].
Qed.

Lemma page_progress_shape (ps : list page) :
  1 <= len ps ->
  StronglySorted Z.le (progress_values (page_events (len ps) 0 ps)) /\
  Forall (fun v => 0 <= v <= 80) (progress_values (page_events (len ps) 0 ps)).
Proof.
  intros Hlen. split.
  - apply page_events_progress_sorted; lia.
  - eapply Forall_impl; [|apply (page_events_progress_bounds (len ps) ps); lia].
    intros v [Hlo Hhi]. split; [|exact Hhi].
    etransitivity; [|exact Hlo]. apply Z.div_pos; lia.
Qed.

(** X22: in every run of the extractor the progress values never decrease
    and lie between 0 and 100, and the value 100 is emitted exactly in the
    runs that deliver a text. *)
Theorem extractor_progress (self : file) :
  Sorted Z.le (progress_values (events_of_run self)) /\
  Forall (fun v => 0 <= v <= 100) (progress_values (events_of_run self)) /\
  (In 100 (progress_values (events_of_run self))
   <-> exists filename text, In (Finished filename text) (events_of_run self)).
Proof.
  rewrite finished_iff_accepted.
  destruct (run_shape self)
    as [(Hacc & reader & ps & _ & _ & Hlen & Hev)
       |(Hacc & [(m & Hev)|(reader & ps & m & _ & _ & Hlen & Hev)])];
    rewrite Hacc, Hev.
  - destruct (page_progress_shape ps Hlen) as [Hs Hb].
    rewrite progress_values_app.
    change (progress_values [Progress 85; Progress 100; Finished _ _]) with [85; 100].
    rewrite Forall_forall in Hb.
    split; [|split].
    + apply StronglySorted_Sorted, strongly_sorted_app; [exact Hs | repeat constructor; lia |].
      intros x y Hx Hy. specialize (Hb x Hx). destruct Hy as [<-|[<-|[]]]; lia.
    + apply Forall_app. split; [|repeat constructor; lia].
      apply Forall_forall. intros v Hv. specialize (Hb v Hv). lia.
    + split; [reflexivity|]. intros _. apply in_or_app. right. right. now left.
  - change (progress_values [ValidationFailed m]) with (@nil Z).
    split; [constructor|]. split; [constructor|].
    split; [intros [] | discriminate].
  - destruct (page_progress_shape ps Hlen) as [Hs Hb].
    rewrite progress_values_app.
    change (progress_values [Progress 85; ValidationFailed m]) with [85].
    rewrite Forall_forall in Hb.
    split; [|split].
    + apply StronglySorted_Sorted, strongly_sorted_app; [exact Hs | repeat constructor |].
      intros x y Hx Hy. specialize (Hb x Hx). destruct Hy as [<-|[]]; lia.
    + apply Forall_app. split; [|repeat constructor; lia].
      apply Forall_forall. intros v Hv. specialize (Hb v Hv). lia.
    + split; [|discriminate]. intros Hin. exfalso.
      apply in_app_or in Hin as [Hin|[Hin|[]]]; [|lia].
      specialize (Hb 100 Hin). lia.
Qed.

End PdfFacts.
